(** * Nexalyze front end: SSE chat client, report polling, company search

    A shallow embedding of the client-side protocol code of
    [frontend-react/src/services/api.ts] and of the pages that call it,
    [frontend-react/src/pages/Reports.tsx], both versions of
    [frontend-react/src/pages/Chat.tsx] and the search page, with the
    slices of [frontend-react/src/store/index.ts] they use and the
    platform primitives they call ([String.prototype] methods,
    [TextDecoder], [JSON.parse], timers, [AbortController]) modelled
    next to them. *)

From Stdlib Require Import NArith ZArith String Ascii List Bool Lia.
From Stdlib.Strings Require Import Byte.
From stdpp Require Import gmap strings list fin_maps pretty.
Import ListNotations.

Local Open Scope N_scope.

(** ** JavaScript strings

    A JavaScript string is a sequence of UTF-16 code units.  Every method
    below is the code-unit level definition of ECMA-262. *)
Module JS.

Abbreviation codeunit := N (only parsing).
Abbreviation jsstring := (list N) (only parsing).

(** A string literal of the source, all of whose characters are ASCII. *)
Definition js (s : string) : list N := N_of_ascii <$> list_ascii_of_string s.

Definition LF : N := 10.

Definition eqb (a b : list N) : bool := bool_decide (a = b).

(** [ToBoolean] on a string: only the empty string is falsy. *)
Definition truthy (s : list N) : bool :=
  match s with [] => false | _ => true end.

(** [ToBoolean] on an optional property holding a string. *)
Definition truthy_opt (o : option (list N)) : bool :=
  match o with Some s => truthy s | None => false end.

(** [a || b] where [a] is a string or [undefined]. *)
Definition or_else (o : option (list N)) (d : list N) : list N :=
  match o with
  | Some s => if truthy s then s else d
  | None => d
  end.

(** [s.startsWith(p)] *)
Fixpoint startsWith (p s : list N) : bool :=
  match p, s with
  | [], _ => true
  | _ :: _, [] => false
  | a :: p', b :: s' => (a =? b) && startsWith p' s'
  end.

(** [s.slice(n)] for a non-negative [n]. *)
Definition slice (n : nat) (s : list N) : list N := drop n s.

(** [s.split(sep)] for a separator of one code unit: the pieces between
    the separators, always at least one piece. *)
Fixpoint split (sep : N) (s : list N) : list (list N) :=
  match s with
  | [] => [[]]
  | c :: s' =>
      if c =? sep then [] :: split sep s'
      else match split sep s' with
           | l :: ls => (c :: l) :: ls
           | [] => [[c]]
           end
  end.

(** [a.pop()]: the removed last element ([undefined] on an empty array)
    and the array that is left. *)
Definition pop {A} (a : list A) : option A * list A :=
  (last a, removelast a).

(** WhiteSpace and LineTerminator code points of ECMA-262, the ones
    [trim] strips. *)
Definition is_space (c : N) : bool :=
  (c =? 0x09) || (c =? 0x0A) || (c =? 0x0B) || (c =? 0x0C) || (c =? 0x0D)
  || (c =? 0x20) || (c =? 0xA0) || (c =? 0x1680)
  || ((0x2000 <=? c) && (c <=? 0x200A))
  || (c =? 0x2028) || (c =? 0x2029) || (c =? 0x202F) || (c =? 0x205F)
  || (c =? 0x3000) || (c =? 0xFEFF).

Fixpoint trimStart (s : list N) : list N :=
  match s with
  | c :: s' => if is_space c then trimStart s' else s
  | [] => []
  end.

Definition trimEnd (s : list N) : list N := rev (trimStart (rev s)).

(** [s.trim()] *)
Definition trim (s : list N) : list N := trimEnd (trimStart s).

(** [s.toLowerCase()] on the Basic Latin letters and on KELVIN SIGN, the
    only other code unit whose lower case is a Basic Latin letter; other
    code units are kept, which leaves every comparison of the result
    with an ASCII word unchanged. *)
Definition lower_unit (c : N) : N :=
  if (0x41 <=? c) && (c <=? 0x5A) then c + 0x20
  else if c =? 0x212A then 0x6B
  else c.

Definition toLowerCase (s : list N) : list N := lower_unit <$> s.

(** [String(n)] for a non-negative integer. *)
Definition of_N (n : N) : list N := js (pretty n).

(** [String(z)] for an integer. *)
Definition of_Z (z : Z) : list N :=
  match z with
  | Z0 => js "0"
  | Zpos p => of_N (Npos p)
  | Zneg p => js "-" ++ of_N (Npos p)
  end.

End JS.

(** ** [TextDecoder] for UTF-8, in streaming mode

    The UTF-8 decoder of the Encoding Standard, byte by byte, with the
    output written as UTF-16 code units.  [decode(value, {stream: true})]
    keeps the state of an unfinished sequence between calls. *)
Module TextDecoder.

Record t := mk {
  code_point : N;
  bytes_seen : N;
  bytes_needed : N;
  lower_boundary : N;
  upper_boundary : N;
  bom_seen : bool
}.

(** [new TextDecoder()] *)
Definition create : t :=
  {| code_point := 0; bytes_seen := 0; bytes_needed := 0;
     lower_boundary := 0x80; upper_boundary := 0xBF; bom_seen := false |}.

Definition reset (d : t) : t :=
  {| code_point := 0; bytes_seen := 0; bytes_needed := 0;
     lower_boundary := 0x80; upper_boundary := 0xBF; bom_seen := bom_seen d |}.

Definition REPLACEMENT : N := 0xFFFD.

(** The decoder's handler when no sequence is open: the scalar values it
    emits and the next state. *)
Definition handle_lead (d : t) (b : N) : list N * t :=
  if b <=? 0x7F then ([b], d)
  else if (0xC2 <=? b) && (b <=? 0xDF) then
    ([], {| code_point := N.land b 0x1F; bytes_seen := 0; bytes_needed := 1;
            lower_boundary := 0x80; upper_boundary := 0xBF;
            bom_seen := bom_seen d |})
  else if (0xE0 <=? b) && (b <=? 0xEF) then
    ([], {| code_point := N.land b 0xF; bytes_seen := 0; bytes_needed := 2;
            lower_boundary := if b =? 0xE0 then 0xA0 else 0x80;
            upper_boundary := if b =? 0xED then 0x9F else 0xBF;
            bom_seen := bom_seen d |})
  else if (0xF0 <=? b) && (b <=? 0xF4) then
    ([], {| code_point := N.land b 0x7; bytes_seen := 0; bytes_needed := 3;
            lower_boundary := if b =? 0xF0 then 0x90 else 0x80;
            upper_boundary := if b =? 0xF4 then 0x8F else 0xBF;
            bom_seen := bom_seen d |})
  else ([REPLACEMENT], d).

(** The handler on any byte.  A byte that cannot continue the open
    sequence ends it with U+FFFD and is then read again as a lead. *)
Definition handle (d : t) (b : N) : list N * t :=
  if bytes_needed d =? 0 then handle_lead d b
  else if (b <? lower_boundary d) || (upper_boundary d <? b) then
    let '(out, d') := handle_lead (reset d) b in (REPLACEMENT :: out, d')
  else
    let cp := N.lor (N.shiftl (code_point d) 6) (N.land b 0x3F) in
    if bytes_seen d + 1 =? bytes_needed d then ([cp], reset d)
    else ([], {| code_point := cp; bytes_seen := bytes_seen d + 1;
                 bytes_needed := bytes_needed d;
                 lower_boundary := 0x80; upper_boundary := 0xBF;
                 bom_seen := bom_seen d |}).

(** A scalar value as UTF-16 code units. *)
Definition utf16 (cp : N) : list N :=
  if cp <? 0x10000 then [cp]
  else [0xD800 + N.shiftr (cp - 0x10000) 10;
        0xDC00 + N.land (cp - 0x10000) 0x3FF].

(** Serialising the output: a U+FEFF that is the first scalar value of
    the stream is dropped ([ignoreBOM] is false by default). *)
Fixpoint serialize (d : t) (cps : list N) : list N * t :=
  match cps with
  | [] => ([], d)
  | cp :: rest =>
      if bom_seen d then
        let '(out, d') := serialize d rest in (utf16 cp ++ out, d')
      else
        let d1 := {| code_point := code_point d; bytes_seen := bytes_seen d;
                     bytes_needed := bytes_needed d;
                     lower_boundary := lower_boundary d;
                     upper_boundary := upper_boundary d;
                     bom_seen := true |} in
        let '(out, d') := serialize d1 rest in
        if cp =? 0xFEFF then (out, d') else (utf16 cp ++ out, d')
  end.

Definition decode_byte (d : t) (b : byte) : list N * t :=
  let '(cps, d1) := handle d (Byte.to_N b) in serialize d1 cps.

(** [decoder.decode(value, { stream: true })] *)
Fixpoint decode (d : t) (value : list byte) : list N * t :=
  match value with
  | [] => ([], d)
  | b :: rest =>
      let '(out1, d1) := decode_byte d b in
      let '(out2, d2) := decode d1 rest in
      (out1 ++ out2, d2)
  end.

End TextDecoder.

(** ** [JSON.parse]

    The JSON grammar of ECMA-404, which [JSON.parse] accepts.  A number is
    kept as its lexeme; the value of an IEEE double is not modelled. *)
Module Json.

#[warnings="-register-all"]
Inductive value :=
| JNull
| JBool (b : bool)
| JNumber (lexeme : list N)
| JString (s : list N)
| JArray (items : list value)
| JObject (members : list (list N * value)).

Definition is_ws (c : N) : bool :=
  (c =? 0x20) || (c =? 0x09) || (c =? 0x0A) || (c =? 0x0D).

Fixpoint skip_ws (s : list N) : list N :=
  match s with
  | c :: s' => if is_ws c then skip_ws s' else s
  | [] => []
  end.

Definition is_digit (c : N) : bool := (0x30 <=? c) && (c <=? 0x39).

Fixpoint digits (s : list N) : list N * list N :=
  match s with
  | c :: s' =>
      if is_digit c then let '(ds, r) := digits s' in (c :: ds, r)
      else ([], s)
  | [] => ([], [])
  end.

(** int: [0] or a non-zero digit followed by digits. *)
Definition int_part (s : list N) : option (list N * list N) :=
  match s with
  | c :: s' =>
      if c =? 0x30 then Some ([c], s')
      else if is_digit c then let '(ds, r) := digits s' in Some (c :: ds, r)
      else None
  | [] => None
  end.

(** frac: nothing, or [.] and at least one digit. *)
Definition frac_part (s : list N) : option (list N * list N) :=
  match s with
  | c :: s' =>
      if c =? 0x2E then
        match digits s' with
        | ([], _) => None
        | (ds, r) => Some (c :: ds, r)
        end
      else Some ([], s)
  | [] => Some ([], [])
  end.

(** exp: nothing, or [e] or [E], an optional sign and at least one digit. *)
Definition exp_part (s : list N) : option (list N * list N) :=
  match s with
  | c :: s' =>
      if (c =? 0x65) || (c =? 0x45) then
        let '(sign, s'') :=
          match s' with
          | g :: t => if (g =? 0x2B) || (g =? 0x2D) then ([g], t) else ([], s')
          | [] => ([], s')
          end in
        match digits s'' with
        | ([], _) => None
        | (ds, r) => Some (c :: sign ++ ds, r)
        end
      else Some ([], s)
  | [] => Some ([], [])
  end.

Definition number (s : list N) : option (list N * list N) :=
  let '(minus, s0) :=
    match s with
    | c :: s' => if c =? 0x2D then ([c], s') else ([], s)
    | [] => ([], s)
    end in
  '(i, s1) ← int_part s0;
  '(f, s2) ← frac_part s1;
  '(e, s3) ← exp_part s2;
  Some (minus ++ i ++ f ++ e, s3).

Definition hex_digit (c : N) : option N :=
  if is_digit c then Some (c - 0x30)
  else if (0x41 <=? c) && (c <=? 0x46) then Some (c - 0x41 + 10)
  else if (0x61 <=? c) && (c <=? 0x66) then Some (c - 0x61 + 10)
  else None.

Definition escape (c : N) : option N :=
  if c =? 0x22 then Some 0x22          (* quotation mark *)
  else if c =? 0x5C then Some 0x5C     (* reverse solidus *)
  else if c =? 0x2F then Some 0x2F     (* solidus *)
  else if c =? 0x62 then Some 0x08     (* b: backspace *)
  else if c =? 0x66 then Some 0x0C     (* f: form feed *)
  else if c =? 0x6E then Some 0x0A     (* n: line feed *)
  else if c =? 0x72 then Some 0x0D     (* r: carriage return *)
  else if c =? 0x74 then Some 0x09     (* t: tab *)
  else None.

(** The characters of a string after its opening quote, up to and
    including the closing quote. *)
Fixpoint chars (s : list N) : option (list N * list N) :=
  match s with
  | [] => None
  | c :: r =>
      if c =? 0x22 then Some ([], r)
      else if c =? 0x5C then
        match r with
        | e :: r1 =>
            if e =? 0x75 then
              match r1 with
              | h1 :: h2 :: h3 :: h4 :: r2 =>
                  a ← hex_digit h1; b ← hex_digit h2;
                  c ← hex_digit h3; d ← hex_digit h4;
                  '(cs, rest) ← chars r2;
                  Some (((a * 16 + b) * 16 + c) * 16 + d :: cs, rest)
              | _ => None
              end
            else
              u ← escape e;
              '(cs, rest) ← chars r1;
              Some (u :: cs, rest)
        | [] => None
        end
      else if c <? 0x20 then None
      else '(cs, rest) ← chars r; Some (c :: cs, rest)
  end.

Definition literal (word : string) (v : value) (s : list N)
  : option (value * list N) :=
  if JS.startsWith (JS.js word) s
  then Some (v, drop (String.length word) s) else None.

(** value, elements (after the opening bracket) and members
    (after the opening brace); [n] bounds the number of
    nested calls. *)
Fixpoint parse_value (n : nat) (s : list N) {struct n}
  : option (value * list N) :=
  match n with
  | O => None
  | S n' =>
      match skip_ws s with
      | [] => None
      | c :: r =>
          if c =? 0x7B then                       (* object *)
            match skip_ws r with
            | c' :: r' =>
                if c' =? 0x7D then Some (JObject [], r')
                else '(ms, rest) ← parse_members n' (c' :: r');
                     Some (JObject ms, rest)
            | [] => None
            end
          else if c =? 0x5B then                  (* array *)
            match skip_ws r with
            | c' :: r' =>
                if c' =? 0x5D then Some (JArray [], r')
                else '(vs, rest) ← parse_elements n' (c' :: r');
                     Some (JArray vs, rest)
            | [] => None
            end
          else if c =? 0x22 then                  (* string *)
            '(cs, rest) ← chars r; Some (JString cs, rest)
          else if c =? 0x74 then literal "true" (JBool true) (c :: r)
          else if c =? 0x66 then literal "false" (JBool false) (c :: r)
          else if c =? 0x6E then literal "null" JNull (c :: r)
          else '(lex, rest) ← number (c :: r); Some (JNumber lex, rest)
      end
  end
with parse_elements (n : nat) (s : list N) {struct n}
  : option (list value * list N) :=
  match n with
  | O => None
  | S n' =>
      '(v, r) ← parse_value n' s;
      match skip_ws r with
      | c :: r' =>
          if c =? 0x5D then Some ([v], r')
          else if c =? 0x2C then
            '(vs, rest) ← parse_elements n' r'; Some (v :: vs, rest)
          else None
      | [] => None
      end
  end
with parse_members (n : nat) (s : list N) {struct n}
  : option (list (list N * value) * list N) :=
  match n with
  | O => None
  | S n' =>
      match skip_ws s with
      | q :: r0 =>
          if q =? 0x22 then
            '(k, r1) ← chars r0;
            match skip_ws r1 with
            | colon :: r2 =>
                if colon =? 0x3A then
                  '(v, r3) ← parse_value n' r2;
                  match skip_ws r3 with
                  | c :: r' =>
                      if c =? 0x7D then Some ([(k, v)], r')
                      else if c =? 0x2C then
                        '(ms, rest) ← parse_members n' r';
                        Some ((k, v) :: ms, rest)
                      else None
                  | [] => None
                  end
                else None
            | [] => None
            end
          else None
      | [] => None
      end
  end.

(** [JSON.parse(text)]: [None] stands for the [SyntaxError] it throws.
    Of two nested calls of the parser at least one reads a code unit, so
    the bound is never what makes it fail ([parse_bound_is_enough]). *)
Definition parse (text : list N) : option value :=
  '(v, rest) ← parse_value (2 * length text + 2) text;
  match skip_ws rest with
  | [] => Some v
  | _ :: _ => None
  end.

(** [o[key]] on a parsed value: the last member of that name, as
    [JSON.parse] keeps the last of duplicate names; [undefined] on a
    value that is not an object. *)
Fixpoint assoc (key : list N) (ms : list (list N * value)) : option value :=
  match ms with
  | [] => None
  | (k, v) :: ms' =>
      match assoc key ms' with
      | Some v' => Some v'
      | None => if JS.eqb k key then Some v else None
      end
  end.

Definition get (key : string) (v : value) : option value :=
  match v with
  | JObject ms => assoc (JS.js key) ms
  | _ => None
  end.

End Json.

(** ** [types/index.ts] *)
Module Types.

Record ApiResponse (T : Type) := {
  success : bool;
  data : option T;
  error : option (list N);
  message : option (list N)
}.
Arguments success {T}.
Arguments data {T}.
Arguments error {T}.
Arguments message {T}.

Record ReportRequest := {
  topic : list N;
  report_type : list N;
  format : list N;
  use_langgraph : option bool
}.

End Types.

(** ** [services/api.ts] *)
Module Api.

Import JS.

(** *** Company search *)

Record CompanySearchFilters := {
  industry : option (list N);
  location : option (list N);
  min_year : option Z;
  stage : option (list N)
}.

(** A value of the [params] object, [string | number]. *)
Inductive param :=
| PStr (s : list N)
| PNum (z : Z).

(** The request handed to axios: [api.get(url, { params })]. *)
Record get_request := {
  get_url : list N;
  get_params : gmap string param
}.

(** [ToBoolean] on an optional number: [undefined] and [0] are falsy.
    A year is an integer here; [NaN], the other falsy number, has no
    counterpart. *)
Definition truthy_num (o : option Z) : bool :=
  match o with Some z => negb (z =? 0)%Z | None => false end.

(** [filters?.f] *)
Definition opt_chain {A B} (o : option A) (f : A -> option B) : option B :=
  match o with Some a => f a | None => None end.

Definition set_str (key : string) (o : option (list N))
    (params : gmap string param) : gmap string param :=
  match o with Some s => <[key := PStr s]> params | None => params end.

Definition set_num (key : string) (o : option Z)
    (params : gmap string param) : gmap string param :=
  match o with Some z => <[key := PNum z]> params | None => params end.

(** [searchCompanies(query, limit = 50, filters?)], up to the request it
    sends; its result is the [data] of the response, unchanged. *)
Definition searchCompanies (query : list N) (limit : option Z)
    (filters : option CompanySearchFilters) : get_request :=
  let limit := default 50%Z limit in
  let params : gmap string param :=
    <["limit" := PNum limit]> {["query" := PStr query]} in
  let i := opt_chain filters industry in
  let params :=
    if truthy_opt i && negb (eqb (toLowerCase (default [] i)) (js "all"))
    then set_str "industry" i params else params in
  let l := opt_chain filters location in
  let params := if truthy_opt l then set_str "location" l params else params in
  let y := opt_chain filters min_year in
  let params := if truthy_num y then set_num "min_year" y params else params in
  let s := opt_chain filters stage in
  let params := if truthy_opt s then set_str "stage" s params else params in
  {| get_url := js "/companies"; get_params := params |}.

(** *** Streaming chat *)

(** A thrown value: an [Error] or [DOMException] with its [name] and
    [message]. *)
Record Error := { name : list N; message : list N }.

(** [String(error)], that is [Error.prototype.toString]. *)
Definition String_of (e : Error) : list N :=
  if negb (truthy (name e)) then message e
  else if negb (truthy (message e)) then name e
  else name e ++ js ": " ++ message e.

(** [new Error(msg)] *)
Definition new_Error (msg : list N) : Error :=
  {| name := js "Error"; message := msg |}.

(** The [DOMException] an aborted [fetch] or body read rejects with. *)
Definition AbortError : Error :=
  {| name := js "AbortError"; message := js "The user aborted a request." |}.

(** What a call of the caller's [onEvent] does, as far as
    [streamChatMessage] can tell: it may call the [cancel] that
    [streamChatMessage] returned, and it returns or throws. *)
Record reaction := { cancels : bool; throws : bool }.

(** The caller's callback; its behaviour may depend on the events it was
    given before. *)
Definition callback := list Json.value -> Json.value -> reaction.

(** What [streamChatMessage] does to the outside, in order. *)
Inductive effect :=
| OnEvent (event : Json.value)          (* onEvent(event) is called *)
| LogParseFailure (line : list N)       (* console.error('[SSE] Failed to parse event:', e, line) *)
| LogStreamError (error : Error).       (* console.error('[SSE Chat] Error:', error) *)

Inductive settled := Fulfilled | Rejected.

Inductive phase :=
| AwaitFetch                 (* suspended at [await fetch(...)] *)
| AwaitRead                  (* suspended at [await reader.read()] *)
| Finished (how : settled).  (* [fetchSSE()] has settled *)

Record state := {
  at_ : phase;
  decoder : TextDecoder.t;
  buffer : list N;
  aborted : bool;                 (* controller.signal.aborted *)
  delivered : list Json.value     (* the arguments of the calls of onEvent so far *)
}.

Definition set_phase (p : phase) (st : state) : state :=
  {| at_ := p; decoder := decoder st; buffer := buffer st;
     aborted := aborted st; delivered := delivered st |}.

Definition set_aborted (st : state) : state :=
  {| at_ := at_ st; decoder := decoder st; buffer := buffer st;
     aborted := true; delivered := delivered st |}.

(** The fields the line loop never writes. *)
Definition reader_of (st : state) : phase * TextDecoder.t * list N :=
  (at_ st, decoder st, buffer st).

(** A state with these fields replaced. *)
Definition relay (p : phase) (d : TextDecoder.t) (b : list N) (st : state)
  : state :=
  {| at_ := p; decoder := d; buffer := b;
     aborted := aborted st; delivered := delivered st |}.

(** [onEvent?.(event)]: nothing happens without a callback.  The result
    says whether the call threw. *)
Definition call (onEvent : option callback) (event : Json.value)
    (st : state) : state * list effect * bool :=
  match onEvent with
  | None => (st, [], false)
  | Some f =>
      let r := f (delivered st) event in
      ({| at_ := at_ st; decoder := decoder st; buffer := buffer st;
          aborted := aborted st || cancels r;
          delivered := delivered st ++ [event] |},
       [OnEvent event], throws r)
  end.

(** The body of [for (const line of lines)]. *)
Definition process_line (onEvent : option callback) (st : state)
    (line : list N) : state * list effect :=
  if startsWith (js "data: ") line then
    let jsonStr := slice 6 line in
    if truthy (trim jsonStr) then
      match Json.parse jsonStr with
      | Some event =>
          let '(st', out, threw) := call onEvent event st in
          (st', out ++ if threw then [LogParseFailure line] else [])
      | None => (st, [LogParseFailure line])
      end
    else (st, [])
  else (st, []).

Fixpoint process_lines (onEvent : option callback) (st : state)
    (lines : list (list N)) : state * list effect :=
  match lines with
  | [] => (st, [])
  | line :: rest =>
      let '(st1, out1) := process_line onEvent st line in
      let '(st2, out2) := process_lines onEvent st1 rest in
      (st2, out1 ++ out2)
  end.

(** The body of [while (true)] after a read that returned [value]. *)
Definition process_chunk (onEvent : option callback) (st : state)
    (value : list byte) : state * list effect :=
  let '(text, dec) := TextDecoder.decode (decoder st) value in
  let lines := split LF (buffer st ++ text) in
  let '(last_line, lines) := pop lines in
  let st1 := {| at_ := at_ st; decoder := dec;
                buffer := or_else last_line [];
                aborted := aborted st; delivered := delivered st |} in
  process_lines onEvent st1 lines.

Definition error_event (error : Error) : Json.value :=
  Json.JObject [(js "type", Json.JString (js "error"));
                (js "message", Json.JString (String_of error))].

(** The [catch (error)] of [fetchSSE]. *)
Definition catch (onEvent : option callback) (st : state) (error : Error)
  : state * list effect :=
  if negb (eqb (name error) (js "AbortError")) then
    let '(st', out, threw) := call onEvent (error_event error) st in
    (set_phase (Finished (if threw then Rejected else Fulfilled)) st',
     LogStreamError error :: out)
  else (set_phase (Finished Fulfilled) st, []).

(** What can happen while [fetchSSE] is suspended. *)
Inductive input :=
| Cancel                                   (* some task calls the returned cancel() *)
| Response (ok : bool) (status : N) (has_body : bool)
| FetchFails (error : Error)               (* fetch rejects *)
| Chunk (value : list byte)                (* read gives { done: false, value } *)
| Done                                     (* read gives { done: true } *)
| ReadFails (error : Error).               (* read rejects *)

(** [streamChatMessage] right after it returned: the request is sent and
    [fetchSSE] is suspended. *)
Definition initial : state :=
  {| at_ := AwaitFetch; decoder := TextDecoder.create; buffer := [];
     aborted := false; delivered := [] |}.

(** One resumption of [fetchSSE], up to its next suspension.  Aborting
    rejects the pending [fetch] or [read] with [AbortError]; after an
    abort from inside the callback, the next [read] rejects at once. *)
Definition step (onEvent : option callback) (st : state) (i : input)
  : state * list effect :=
  match at_ st, i with
  | Finished _, _ => (st, [])
  | _, Cancel => catch onEvent (set_aborted st) AbortError
  | AwaitFetch, Response ok status has_body =>
      if negb ok then
        catch onEvent st
          (new_Error (js "HTTP error! status: " ++ of_N status))
      else if negb has_body then
        catch onEvent st (new_Error (js "No response body"))
      else
        ({| at_ := AwaitRead; decoder := TextDecoder.create; buffer := [];
            aborted := aborted st; delivered := delivered st |}, [])
  | AwaitFetch, FetchFails error => catch onEvent st error
  | AwaitRead, Chunk value =>
      let '(st1, out1) := process_chunk onEvent st value in
      if aborted st1 then
        let '(st2, out2) := catch onEvent st1 AbortError in
        (st2, out1 ++ out2)
      else (st1, out1)
  | AwaitRead, Done => (set_phase (Finished Fulfilled) st, [])
  | AwaitRead, ReadFails error => catch onEvent st error
  | _, _ => (st, [])        (* nothing of the kind is awaited *)
  end.

(** [fetchSSE()], resumed once for each thing that happens. *)
Fixpoint fetchSSE (onEvent : option callback) (st : state)
    (inputs : list input)
  : state * list effect :=
  match inputs with
  | [] => (st, [])
  | i :: rest =>
      let '(st1, out1) := step onEvent st i in
      let '(st2, out2) := fetchSSE onEvent st1 rest in
      (st2, out1 ++ out2)
  end.

(** The events given to [onEvent], in the order of the calls. *)
Definition events (out : list effect) : list Json.value :=
  omap (fun e => match e with OnEvent v => Some v | _ => None end) out.

(** The lines whose parse failure was logged. *)
Definition logged (out : list effect) : list (list N) :=
  omap (fun e => match e with LogParseFailure l => Some l | _ => None end) out.

(** *** The legacy wrapper [sendChatMessage]

    [streamChatMessage] hands its callback whatever [JSON.parse]
    returned, typed as a [ChatStreamEvent] without a check.  The callback
    of the wrapper is modelled on events that have that type. *)

Module ChatStreamEvent.

Inductive kind :=
| start | status | thinking | tool_call | tool
| content | complete | end_ | error.

Record t := {
  type : kind;
  message : option (list N);
  query : option (list N);
  session_id : option (list N);
  tool_name : option (list N);
  tools_used : option (list (list N));
  partial : option bool
}.

End ChatStreamEvent.

(** The [data] the wrapper resolves with. *)
Record ChatData := {
  response : list N;
  session_id : list N;
  tools_used : list (list N)
}.

(** A promise settles once; later calls of [resolve] and [reject] do
    nothing. *)
Inductive promise :=
| Pending
| Resolved (value : Types.ApiResponse ChatData)
| RejectedWith (reason : Error).

Definition settle (p q : promise) : promise :=
  match p with Pending => q | _ => p end.

(** The variables the callback of [sendChatMessage] closes over, and the
    promise it settles. *)
Record wrapper := {
  finalResponse : list N;
  finalSessionId : list N;
  toolsUsed : list (list N);
  result : promise
}.

(** The executor of [new Promise], before the first event:
    [finalSessionId = sessionId || ''].  *)
Definition sendChatMessage (sessionId : option (list N)) : wrapper :=
  {| finalResponse := []; finalSessionId := or_else sessionId [];
     toolsUsed := []; result := Pending |}.

(** The callback: [switch (event.type)]. *)
Definition on_event (w : wrapper) (event : ChatStreamEvent.t) : wrapper :=
  match ChatStreamEvent.type event with
  | ChatStreamEvent.content =>
      if truthy_opt (ChatStreamEvent.message event) then
        {| finalResponse :=
             finalResponse w ++ default [] (ChatStreamEvent.message event)
               ++ js " ";
           finalSessionId := finalSessionId w;
           toolsUsed := toolsUsed w; result := result w |}
      else w
  | ChatStreamEvent.complete =>
      {| finalResponse :=
           if truthy_opt (ChatStreamEvent.message event)
           then default [] (ChatStreamEvent.message event)
           else finalResponse w;
         finalSessionId :=
           if truthy_opt (ChatStreamEvent.session_id event)
           then default [] (ChatStreamEvent.session_id event)
           else finalSessionId w;
         toolsUsed :=
           match ChatStreamEvent.tools_used event with
           | Some used => used       (* an array is truthy, also when empty *)
           | None => toolsUsed w
           end;
         result := result w |}
  | ChatStreamEvent.end_ =>
      {| finalResponse := finalResponse w;
         finalSessionId := finalSessionId w;
         toolsUsed := toolsUsed w;
         result :=
           settle (result w)
             (Resolved
                {| Types.success := true;
                   Types.data :=
                     Some {| response := trim (finalResponse w);
                             session_id := finalSessionId w;
                             tools_used := toolsUsed w |};
                   Types.error := None; Types.message := None |}) |}
  | ChatStreamEvent.error =>
      {| finalResponse := finalResponse w;
         finalSessionId := finalSessionId w;
         toolsUsed := toolsUsed w;
         result :=
           settle (result w)
             (RejectedWith
                (new_Error
                   (or_else (ChatStreamEvent.message event)
                      (js "Chat failed")))) |}
  | _ => w
  end.

(** The wrapper after the stream has delivered [events]. *)
Definition deliver (w : wrapper) (events : list ChatStreamEvent.t) : wrapper :=
  foldl on_event w events.

(** *** Reports *)

Section BaseUrl.

(** [import.meta.env.VITE_API_URL], fixed when the bundle is built. *)
Variable VITE_API_URL : option (list N).

Definition API_BASE_URL : list N :=
  or_else VITE_API_URL (js "http://localhost:8000").

(** [downloadReport(filename)] *)
Definition downloadReport (filename : list N) : list N :=
  API_BASE_URL ++ js "/api/v1/download-report/" ++ filename.

End BaseUrl.

Record ReportGenerationResult := {
  report_filename : list N;
  report_path : list N;
  topic : list N;
  report_type : list N;
  format : list N
}.

Module ReportTaskStatus.

(** [status] is whatever string the server sent; the interface names
    pending, processing, completed and failed. *)
Record t := {
  status : list N;
  progress : option Z;
  message : option (list N);
  result : option ReportGenerationResult;
  error : option (list N)
}.

End ReportTaskStatus.

Record TaskId := { task_id : list N }.

(** The calls of the report endpoints, as the page issues them. *)
Inductive call_ :=
| generateReportBackground (request : Types.ReportRequest)
| getReportTaskStatus (taskId : list N).

(** *** Events as the interface [ChatStreamEvent] types them

    The value [JSON.parse] returned is used as a [ChatStreamEvent]
    without a check.  [typed] reads a value that does have that type. *)

Definition kind_of (s : list N) : option ChatStreamEvent.kind :=
  if eqb s (js "start") then Some ChatStreamEvent.start
  else if eqb s (js "status") then Some ChatStreamEvent.status
  else if eqb s (js "thinking") then Some ChatStreamEvent.thinking
  else if eqb s (js "tool_call") then Some ChatStreamEvent.tool_call
  else if eqb s (js "tool") then Some ChatStreamEvent.tool
  else if eqb s (js "content") then Some ChatStreamEvent.content
  else if eqb s (js "complete") then Some ChatStreamEvent.complete
  else if eqb s (js "end") then Some ChatStreamEvent.end_
  else if eqb s (js "error") then Some ChatStreamEvent.error
  else None.

Definition as_string (v : Json.value) : option (list N) :=
  match v with Json.JString s => Some s | _ => None end.

Definition as_boolean (v : Json.value) : option bool :=
  match v with Json.JBool b => Some b | _ => None end.

Definition as_strings (v : Json.value) : option (list (list N)) :=
  match v with Json.JArray items => mapM as_string items | _ => None end.

(** An optional property: absent, or of the type [read] accepts. *)
Definition optional {A} (read : Json.value -> option A) (key : string)
    (v : Json.value) : option (option A) :=
  match Json.get key v with
  | None => Some None
  | Some x => Some <$> read x
  end.

(** The case [switch (event.type)] takes, if any: strict equality with
    one of the nine words. *)
Definition case_of (v : Json.value) : option ChatStreamEvent.kind :=
  match Json.get "type" v with
  | Some (Json.JString s) => kind_of s
  | _ => None
  end.

Definition typed (v : Json.value) : option ChatStreamEvent.t :=
  ty ← case_of v;
  msg ← optional as_string "message" v;
  q ← optional as_string "query" v;
  sid ← optional as_string "session_id" v;
  tn ← optional as_string "tool_name" v;
  tu ← optional as_strings "tools_used" v;
  pa ← optional as_boolean "partial" v;
  Some {| ChatStreamEvent.type := ty;
          ChatStreamEvent.message := msg;
          ChatStreamEvent.query := q;
          ChatStreamEvent.session_id := sid;
          ChatStreamEvent.tool_name := tn;
          ChatStreamEvent.tools_used := tu;
          ChatStreamEvent.partial := pa |}.

(** [switch (event.type)] finds no case: the value is not [null] and its
    [type] is none of the nine words. *)
Definition no_case (v : Json.value) : bool :=
  match v with
  | Json.JNull => false
  | _ => match case_of v with Some _ => false | None => true end
  end.

(** What [streamChatMessage] sees of the two callbacks of this
    repository, the one of [sendChatMessage] and the one of the chat
    page: both start with [switch (event.type)], which throws on [null]
    and on nothing else that [JSON.parse] returns, and neither calls
    [cancel]. *)
Definition switch_on_type : callback :=
  fun _ event =>
    {| cancels := false;
       throws := match event with Json.JNull => true | _ => false end |}.

(** A property the callback reads only after it has tested it for
    truthiness: [null] is then as good as absent. *)
Definition nullable {A} (read : Json.value -> option A) (key : string)
    (v : Json.value) : option (option A) :=
  match Json.get key v with
  | None | Some Json.JNull => Some None
  | Some x => Some <$> read x
  end.

(** The callback of [sendChatMessage] on whatever [JSON.parse]
    returned.  On [null] it throws before it has done anything, and a
    value whose [type] is not one of its four cases it ignores: [Some
    None].  Otherwise it does what [on_event] does on the event made of
    the properties its case reads, none of them before a test for
    truthiness.  A value that has one of these properties with another
    type than the interface declares is outside the model: [None]. *)
Definition heard (v : Json.value) : option (option ChatStreamEvent.t) :=
  let event ty msg sid tu :=
    Some {| ChatStreamEvent.type := ty;
            ChatStreamEvent.message := msg;
            ChatStreamEvent.query := None;
            ChatStreamEvent.session_id := sid;
            ChatStreamEvent.tool_name := None;
            ChatStreamEvent.tools_used := tu;
            ChatStreamEvent.partial := None |} in
  match case_of v with
  | Some ChatStreamEvent.content =>
      msg ← nullable as_string "message" v;
      Some (event ChatStreamEvent.content msg None None)
  | Some ChatStreamEvent.complete =>
      msg ← nullable as_string "message" v;
      sid ← nullable as_string "session_id" v;
      tu ← nullable as_strings "tools_used" v;
      Some (event ChatStreamEvent.complete msg sid tu)
  | Some ChatStreamEvent.end_ =>
      Some (event ChatStreamEvent.end_ None None None)
  | Some ChatStreamEvent.error =>
      msg ← nullable as_string "message" v;
      Some (event ChatStreamEvent.error msg None None)
  | _ => Some None
  end.

(** *** The requests of the other endpoints *)

(** The body of [api.post('/generate-comprehensive-report...', body)]. *)
Record report_body := {
  body_topic : list N;
  body_report_type : list N;
  body_format : list N;
  body_use_langgraph : bool
}.

(** A request the axios instance sends, relative to its base address. *)
Inductive request :=
| Get (r : get_request)
| PostReport (url : list N) (body : report_body).

(** [request.use_langgraph ?? true] and the other fields as given. *)
Definition body_of (r : Types.ReportRequest) : report_body :=
  {| body_topic := Types.topic r;
     body_report_type := Types.report_type r;
     body_format := Types.format r;
     body_use_langgraph := default true (Types.use_langgraph r) |}.

(** The request each call of a report endpoint sends:
    [generateReportBackground(request)] and [getReportTaskStatus(taskId)]. *)
Definition send (c : call_) : request :=
  match c with
  | generateReportBackground r =>
      PostReport (js "/generate-comprehensive-report-background") (body_of r)
  | getReportTaskStatus taskId =>
      Get {| get_url := js "/report-tasks/" ++ taskId; get_params := ∅ |}
  end.

(** [generateReport(request)] *)
Definition generateReport (r : Types.ReportRequest) : request :=
  PostReport (js "/generate-comprehensive-report") (body_of r).

(** The body of [syncData(limit?, syncAll?)]:
    [limit: syncAll ? 0 : (limit || 500)]. *)
Record sync_body := {
  source : list N;
  limit : Z;
  sync_all : option bool
}.

Definition syncData (limit : option Z) (syncAll : option bool) : sync_body :=
  {| source := js "yc";
     limit := if default false syncAll then 0%Z
              else if truthy_num limit then default 0%Z limit else 500%Z;
     sync_all := syncAll |}.

End Api.

(** ** [pages/Reports.tsx]

    The component as a transition system: its React state, the ref that
    holds the interval handle, the intervals registered with the window,
    and the asynchronous functions that are suspended at an [await].  The
    time of day stored in a generated report and the contents of the
    console are left out.  What a function writes to the React state
    after the component is unmounted is kept in the record, although
    React drops it: only the intervals and the requests matter then. *)
Module Reports.

Import JS.

Module GeneratedReport.
Record t := { filename : list N; topic : list N; type : list N }.
End GeneratedReport.

(** The state variables a function of one render closes over and reads
    after an [await]. *)
Record closure := { seen_topic : list N; seen_reportType : list N }.

(** An interval registered by [window.setInterval(callback, delay)]; the
    callback is the one [pollStatus] builds for [taskId]. *)
Record interval := {
  delay : N;
  taskId : list N;
  env : closure
}.

(** An asynchronous function suspended at its [await]. *)
Inductive suspended :=
| AwaitSubmit (c : closure)                     (* handleGenerate, at generateReportBackground *)
| AwaitStatus (c : closure) (taskId : list N).  (* the interval callback, at getReportTaskStatus *)

Record state := {
  topic : list N;
  reportType : list N;
  format : list N;
  isGenerating : bool;
  pollingStatus : list N;
  error : option (list N);
  generatedReports : list GeneratedReport.t;
  pollingIntervalRef : option positive;
  intervals : gmap positive interval;   (* the active intervals of the window *)
  next_handle : positive;               (* the handle the next setInterval returns *)
  awaiting : list suspended;
  calls : list Api.call_;               (* the requests sent so far *)
  mounted : bool
}.

(** The first render. *)
Definition initial : state :=
  {| topic := []; reportType := js "comprehensive"; format := js "pdf";
     isGenerating := false; pollingStatus := []; error := None;
     generatedReports := []; pollingIntervalRef := None;
     intervals := ∅; next_handle := 1%positive; awaiting := [];
     calls := []; mounted := true |}.

(** One statement after the other. *)
Notation "st ▹ f" := (f st) (at level 45, left associativity, only parsing).

(** The setters of [useState]. *)
Definition setTopic (s : list N) (st : state) : state :=
  {| topic := s; reportType := reportType st; format := format st;
     isGenerating := isGenerating st; pollingStatus := pollingStatus st;
     error := error st; generatedReports := generatedReports st;
     pollingIntervalRef := pollingIntervalRef st;
     intervals := intervals st; next_handle := next_handle st;
     awaiting := awaiting st; calls := calls st; mounted := mounted st |}.

Definition setReportType (s : list N) (st : state) : state :=
  {| topic := topic st; reportType := s; format := format st;
     isGenerating := isGenerating st; pollingStatus := pollingStatus st;
     error := error st; generatedReports := generatedReports st;
     pollingIntervalRef := pollingIntervalRef st;
     intervals := intervals st; next_handle := next_handle st;
     awaiting := awaiting st; calls := calls st; mounted := mounted st |}.

Definition setFormat (s : list N) (st : state) : state :=
  {| topic := topic st; reportType := reportType st; format := s;
     isGenerating := isGenerating st; pollingStatus := pollingStatus st;
     error := error st; generatedReports := generatedReports st;
     pollingIntervalRef := pollingIntervalRef st;
     intervals := intervals st; next_handle := next_handle st;
     awaiting := awaiting st; calls := calls st; mounted := mounted st |}.

Definition setIsGenerating (b : bool) (st : state) : state :=
  {| topic := topic st; reportType := reportType st; format := format st;
     isGenerating := b; pollingStatus := pollingStatus st;
     error := error st; generatedReports := generatedReports st;
     pollingIntervalRef := pollingIntervalRef st;
     intervals := intervals st; next_handle := next_handle st;
     awaiting := awaiting st; calls := calls st; mounted := mounted st |}.

Definition setPollingStatus (s : list N) (st : state) : state :=
  {| topic := topic st; reportType := reportType st; format := format st;
     isGenerating := isGenerating st; pollingStatus := s;
     error := error st; generatedReports := generatedReports st;
     pollingIntervalRef := pollingIntervalRef st;
     intervals := intervals st; next_handle := next_handle st;
     awaiting := awaiting st; calls := calls st; mounted := mounted st |}.

Definition setError (e : option (list N)) (st : state) : state :=
  {| topic := topic st; reportType := reportType st; format := format st;
     isGenerating := isGenerating st; pollingStatus := pollingStatus st;
     error := e; generatedReports := generatedReports st;
     pollingIntervalRef := pollingIntervalRef st;
     intervals := intervals st; next_handle := next_handle st;
     awaiting := awaiting st; calls := calls st; mounted := mounted st |}.

(** [setGeneratedReports(prev => f(prev))] *)
Definition setGeneratedReports
    (f : list GeneratedReport.t -> list GeneratedReport.t) (st : state)
  : state :=
  {| topic := topic st; reportType := reportType st; format := format st;
     isGenerating := isGenerating st; pollingStatus := pollingStatus st;
     error := error st; generatedReports := f (generatedReports st);
     pollingIntervalRef := pollingIntervalRef st;
     intervals := intervals st; next_handle := next_handle st;
     awaiting := awaiting st; calls := calls st; mounted := mounted st |}.

(** [window.clearInterval(id)] *)
Definition clearInterval (id : positive) (st : state) : state :=
  {| topic := topic st; reportType := reportType st; format := format st;
     isGenerating := isGenerating st; pollingStatus := pollingStatus st;
     error := error st; generatedReports := generatedReports st;
     pollingIntervalRef := pollingIntervalRef st;
     intervals := delete id (intervals st); next_handle := next_handle st;
     awaiting := awaiting st; calls := calls st; mounted := mounted st |}.

(** [pollingIntervalRef.current = window.setInterval(callback, delay)]:
    the window registers the interval under a fresh handle, a positive
    integer, and the ref takes the handle. *)
Definition setInterval_into_ref (iv : interval) (st : state) : state :=
  {| topic := topic st; reportType := reportType st; format := format st;
     isGenerating := isGenerating st; pollingStatus := pollingStatus st;
     error := error st; generatedReports := generatedReports st;
     pollingIntervalRef := Some (next_handle st);
     intervals := <[next_handle st := iv]> (intervals st);
     next_handle := Pos.succ (next_handle st);
     awaiting := awaiting st; calls := calls st; mounted := mounted st |}.

(** [await request]: the request leaves and the function waits. *)
Definition await (request : Api.call_) (k : suspended) (st : state) : state :=
  {| topic := topic st; reportType := reportType st; format := format st;
     isGenerating := isGenerating st; pollingStatus := pollingStatus st;
     error := error st; generatedReports := generatedReports st;
     pollingIntervalRef := pollingIntervalRef st;
     intervals := intervals st; next_handle := next_handle st;
     awaiting := awaiting st ++ [k]; calls := calls st ++ [request];
     mounted := mounted st |}.

(** The [n]-th suspended function is resumed. *)
Definition resumed (n : nat) (st : state) : state :=
  {| topic := topic st; reportType := reportType st; format := format st;
     isGenerating := isGenerating st; pollingStatus := pollingStatus st;
     error := error st; generatedReports := generatedReports st;
     pollingIntervalRef := pollingIntervalRef st;
     intervals := intervals st; next_handle := next_handle st;
     awaiting := delete n (awaiting st); calls := calls st;
     mounted := mounted st |}.

Definition unmounted (st : state) : state :=
  {| topic := topic st; reportType := reportType st; format := format st;
     isGenerating := isGenerating st; pollingStatus := pollingStatus st;
     error := error st; generatedReports := generatedReports st;
     pollingIntervalRef := pollingIntervalRef st;
     intervals := intervals st; next_handle := next_handle st;
     awaiting := awaiting st; calls := calls st; mounted := false |}.

(** [if (pollingIntervalRef.current)
       window.clearInterval(pollingIntervalRef.current)];
    a handle is never zero, so the test asks whether the ref is set. *)
Definition clear_current (st : state) : state :=
  match pollingIntervalRef st with
  | Some id => st ▹ clearInterval id
  | None => st
  end.

(** [pollStatus(taskId)] *)
Definition pollStatus (st : state) (c : closure) (task : list N) : state :=
  st ▹ clear_current
     ▹ setInterval_into_ref {| delay := 10000; taskId := task; env := c |}.

(** [handleGenerate], up to its [await] or its early [return]. *)
Definition handleGenerate (st : state) : state :=
  if negb (truthy (trim (topic st))) then
    st ▹ setError (Some (js "Please enter a topic"))
  else
    st ▹ setIsGenerating true
       ▹ setError None
       ▹ setPollingStatus (js "Initializing report generation...")
       ▹ await
           (Api.generateReportBackground
              {| Types.topic := trim (topic st);
                 Types.report_type := reportType st;
                 Types.format := format st;
                 Types.use_langgraph := Some true |})
           (AwaitSubmit {| seen_topic := topic st;
                           seen_reportType := reportType st |}).

(** How the request of [handleGenerate] ends: a response, or an
    exception whose [response?.data?.detail] is given. *)
Inductive submit_outcome :=
| Submitted (response : Types.ApiResponse Api.TaskId)
| SubmitThrows (detail : option (list N)).

(** [handleGenerate] after its [await]. *)
Definition handleGenerate_resume (st : state) (c : closure)
    (o : submit_outcome) : state :=
  match o with
  | Submitted response =>
      if Types.success response
         && truthy_opt (Api.task_id <$> Types.data response)
      then pollStatus st c (default [] (Api.task_id <$> Types.data response))
      else
        st ▹ setError
               (Some (js "Failed to start report generation. Please try again."))
           ▹ setIsGenerating false
  | SubmitThrows detail =>
      st ▹ setError (Some (or_else detail (js "Failed to generate report")))
         ▹ setIsGenerating false
  end.

(** The interval callback, up to its [await]. *)
Definition tick (st : state) (iv : interval) : state :=
  st ▹ await (Api.getReportTaskStatus (taskId iv))
             (AwaitStatus (env iv) (taskId iv)).

(** How a status request ends. *)
Inductive status_outcome :=
| Polled (response : Types.ApiResponse Api.ReportTaskStatus.t)
| PollThrows.

(** The [completed] branch. *)
Definition on_completed (st : state) (c : closure)
    (task : Api.ReportTaskStatus.t) : state :=
  let st := st ▹ clear_current
               ▹ setIsGenerating false
               ▹ setPollingStatus [] in
  match Api.ReportTaskStatus.result task with
  | Some result =>
      if truthy (Api.report_filename result) then
        st ▹ setGeneratedReports
               (cons {| GeneratedReport.filename := Api.report_filename result;
                        GeneratedReport.topic :=
                          or_else (Some (Api.topic result)) (seen_topic c);
                        GeneratedReport.type :=
                          or_else (Some (Api.report_type result))
                                  (seen_reportType c) |})
           ▹ setTopic []
      else st
  | None => st
  end.

(** The [failed] branch. *)
Definition on_failed (st : state) (task : Api.ReportTaskStatus.t) : state :=
  st ▹ clear_current
     ▹ setIsGenerating false
     ▹ setPollingStatus []
     ▹ setError (Some (or_else (Api.ReportTaskStatus.error task)
                         (js "Report generation failed"))).

(** The branch of every other status. *)
Definition on_progress (st : state) (task : Api.ReportTaskStatus.t) : state :=
  st ▹ setPollingStatus
         (or_else (Api.ReportTaskStatus.message task) (js "Processing...")).

(** The interval callback after its [await]; the [catch] only logs. *)
Definition tick_resume (st : state) (c : closure) (o : status_outcome)
  : state :=
  match o with
  | PollThrows => st
  | Polled response =>
      match Types.data response with
      | None => st
      | Some task =>
          if eqb (Api.ReportTaskStatus.status task) (js "completed")
          then on_completed st c task
          else if eqb (Api.ReportTaskStatus.status task) (js "failed")
          then on_failed st task
          else on_progress st task
      end
  end.

(** The cleanup of the effect, run when the component unmounts. *)
Definition unmount (st : state) : state :=
  st ▹ clear_current ▹ unmounted.

(** What happens to the page: the user acts on it while it is mounted,
    the window runs the callback of an interval, a request comes back,
    the component unmounts.  The [disabled] attributes of the controls
    are not modelled: every handler may be called while the page is
    mounted. *)
Inductive action :=
| Type_ (s : list N)                    (* onChange of the topic input *)
| ChooseType (id : list N)
| ChooseFormat (id : list N)
| ClickGenerate
| Timer (id : positive)
| SubmitSettles (n : nat) (o : submit_outcome)
| StatusSettles (n : nat) (o : status_outcome)
| Unmount.

Definition step (st : state) (a : action) : state :=
  match a with
  | Type_ s => if mounted st then setTopic s st else st
  | ChooseType id => if mounted st then setReportType id st else st
  | ChooseFormat id => if mounted st then setFormat id st else st
  | ClickGenerate => if mounted st then handleGenerate st else st
  | Timer id =>
      match intervals st !! id with
      | Some iv => tick st iv
      | None => st
      end
  | SubmitSettles n o =>
      match awaiting st !! n with
      | Some (AwaitSubmit c) => handleGenerate_resume (resumed n st) c o
      | _ => st
      end
  | StatusSettles n o =>
      match awaiting st !! n with
      | Some (AwaitStatus c _) => tick_resume (resumed n st) c o
      | _ => st
      end
  | Unmount => if mounted st then unmount st else st
  end.

Definition run (st : state) (actions : list action) : state :=
  foldl step st actions.

(** A status request that says the task has ended: a response whose
    task has status completed or failed. *)
Definition terminal (o : status_outcome) : bool :=
  match o with
  | PollThrows => false
  | Polled response =>
      match Types.data response with
      | None => false
      | Some task =>
          eqb (Api.ReportTaskStatus.status task) (js "completed")
          || eqb (Api.ReportTaskStatus.status task) (js "failed")
      end
  end.

(** The only interval the window may hold for the page is the one the
    ref names. *)
Definition tidy (st : state) : Prop :=
  forall id, is_Some (intervals st !! id) -> pollingIntervalRef st = Some id.

(** A suspended function that is [handleGenerate]. *)
Definition submitting (k : suspended) : bool :=
  match k with AwaitSubmit _ => true | AwaitStatus _ _ => false end.

End Reports.

(** ** The stream and the wrapper, said in the words of the protocol *)
Module Protocol.

Import JS.

(** The text of complete lines, each followed by its line feed. *)
Definition with_line_feeds (lines : list (list N)) : list N :=
  concat ((fun l => l ++ [LF]) <$> lines).

(** The event a complete line stands for: the JSON value after
    [data: ], if there is one. *)
Definition decode_line (line : list N) : option Json.value :=
  if startsWith (js "data: ") line && truthy (trim (slice 6 line))
  then Json.parse (slice 6 line) else None.

(** A callback that never calls [cancel]. *)
Definition never_cancels (f : Api.callback) : Prop :=
  forall history event, Api.cancels (f history event) = false.

(** A callback that always returns normally. *)
Definition never_throws (f : Api.callback) : Prop :=
  forall history event, Api.throws (f history event) = false.

Import Api.ChatStreamEvent.

(** The event that settles the promise of the wrapper. *)
Definition settles (e : t) : bool :=
  match type e with end_ | error => true | _ => false end.

(** The events before the first one that settles, and that one. *)
Fixpoint until_settled (es : list t) : list t * option t :=
  match es with
  | [] => ([], None)
  | e :: rest =>
      if settles e then ([], Some e)
      else let '(before, s) := until_settled rest in (e :: before, s)
  end.

(** A [complete] event that carries a non-empty message. *)
Definition final_message (e : t) : option (list N) :=
  match type e with
  | complete => if truthy_opt (message e) then message e else None
  | _ => None
  end.

(** The message of the last [complete] event that has one, and the
    events after it; all events when there is none. *)
Fixpoint since_complete (es : list t) : option (list N) * list t :=
  match es with
  | [] => (None, [])
  | e :: rest =>
      match since_complete rest with
      | (Some m, after) => (Some m, after)
      | (None, _) =>
          match final_message e with
          | Some m => (Some m, rest)
          | None => (None, e :: rest)
          end
      end
  end.

(** The non-empty messages of the [content] events, a space after
    each. *)
Definition spaced_chunks (es : list t) : list N :=
  concat (omap (fun e =>
                  match type e with
                  | content =>
                      if truthy_opt (message e)
                      then Some (default [] (message e) ++ js " ") else None
                  | _ => None
                  end) es).

(** The messages of the [content] events, one after the other. *)
Definition joined_chunks (es : list t) : list N :=
  concat (omap (fun e =>
                  match type e with content => message e | _ => None end) es).

Definition response_text (es : list t) : list N :=
  let '(m, after) := since_complete es in
  trim (default [] m ++ spaced_chunks after).

(** The last [complete] event with a non-empty [session_id]. *)
Definition last_session_id (es : list t) : option (list N) :=
  last (omap (fun e =>
                match type e with
                | complete =>
                    if truthy_opt (session_id e) then session_id e else None
                | _ => None
                end) es).

(** The last [complete] event with a [tools_used] list. *)
Definition last_tools_used (es : list t) : option (list (list N)) :=
  last (omap (fun e =>
                match type e with complete => tools_used e | _ => None end)
             es).

(** A promise of the wrapper that is not resolved with a response that
    [trim] would still change. *)
Definition trimmed (p : Api.promise) : Prop :=
  match p with
  | Api.Resolved r =>
      Types.success r = true
      ∧ ∃ d, Types.data r = Some d ∧ trim (Api.response d) = Api.response d
  | _ => True
  end.

End Protocol.

(** ** [pages/Chat.tsx], the streaming version, with the chat slice of
    [store/index.ts]

    The store outlives the component: it is kept while the page is
    unmounted, and the callbacks of a stream write to it whether or not
    the component that started the stream is still there.  The state of
    a component and its [cancelRef] belong to one instance; what the
    callbacks of an earlier instance write to them is lost.  Message
    ids and time stamps are left out. *)
Module Chat.

Import JS.

Inductive Role := user | assistant.

Record ChatMessage := {
  role : Role;
  content : list N;
  tools_used : option (list (list N))
}.

(** The chat slice of the store. *)
Record store := {
  chatMessages : list ChatMessage;
  chatSessionId : option (list N);       (* null at first *)
  isChatLoading : bool
}.

Definition addChatMessage (m : ChatMessage) (s : store) : store :=
  {| chatMessages := chatMessages s ++ [m];
     chatSessionId := chatSessionId s; isChatLoading := isChatLoading s |}.

Definition setChatSessionId (id : list N) (s : store) : store :=
  {| chatMessages := chatMessages s;
     chatSessionId := Some id; isChatLoading := isChatLoading s |}.

Definition setIsChatLoading (b : bool) (s : store) : store :=
  {| chatMessages := chatMessages s;
     chatSessionId := chatSessionId s; isChatLoading := b |}.

Definition clearChatHistory (s : store) : store :=
  {| chatMessages := []; chatSessionId := None;
     isChatLoading := isChatLoading s |}.

(** The state and the ref of one instance of the component; [cancelRef]
    names the stream whose [cancel] it holds. *)
Record component := {
  input : list N;
  streamingContent : list N;
  streamingStatus : list N;
  currentTools : list (list N);
  cancelRef : option nat
}.

Definition setInput (s : list N) (c : component) : component :=
  {| input := s; streamingContent := streamingContent c;
     streamingStatus := streamingStatus c; currentTools := currentTools c;
     cancelRef := cancelRef c |}.

(** [setStreamingContent(prev => f(prev))] *)
Definition setStreamingContent (f : list N -> list N) (c : component)
  : component :=
  {| input := input c; streamingContent := f (streamingContent c);
     streamingStatus := streamingStatus c; currentTools := currentTools c;
     cancelRef := cancelRef c |}.

Definition setStreamingStatus (s : list N) (c : component) : component :=
  {| input := input c; streamingContent := streamingContent c;
     streamingStatus := s; currentTools := currentTools c;
     cancelRef := cancelRef c |}.

(** [setCurrentTools(prev => f(prev))] *)
Definition setCurrentTools (f : list (list N) -> list (list N))
    (c : component) : component :=
  {| input := input c; streamingContent := streamingContent c;
     streamingStatus := streamingStatus c; currentTools := f (currentTools c);
     cancelRef := cancelRef c |}.

(** [cancelRef.current = r] *)
Definition set_cancelRef (r : option nat) (c : component) : component :=
  {| input := input c; streamingContent := streamingContent c;
     streamingStatus := streamingStatus c; currentTools := currentTools c;
     cancelRef := r |}.

(** The three resets that end a turn. *)
Definition reset_streaming (c : component) : component :=
  setCurrentTools (fun _ => [])
    (setStreamingStatus [] (setStreamingContent (fun _ => []) c)).

(** The first render of an instance. *)
Definition fresh : component :=
  {| input := []; streamingContent := []; streamingStatus := [];
     currentTools := []; cancelRef := None |}.

(** The state variables the callback of a stream closes over: those of
    the render in which [handleSubmit] ran. *)
Record closure := {
  seen_streamingContent : list N;
  seen_currentTools : list (list N)
}.

(** A call of [streamChatMessage]: its arguments, the instance whose
    [handleSubmit] made it, and the stream itself. *)
Record stream := {
  query : list N;
  sessionId : option (list N);
  owner : nat;
  env : closure;
  connection : Api.state
}.

Record state := {
  app : store;
  view : component;          (* of the current instance *)
  mounted : bool;
  instance : nat;            (* how many instances there were before this one *)
  streams : list stream      (* every stream started so far *)
}.

Definition initial : state :=
  {| app := {| chatMessages := []; chatSessionId := None;
               isChatLoading := false |};
     view := fresh; mounted := true; instance := 0; streams := [] |}.

Notation "st ▹ f" := (f st) (at level 45, left associativity, only parsing).

(** A write to the store. *)
Definition in_store (f : store -> store) (st : state) : state :=
  {| app := f (app st); view := view st; mounted := mounted st;
     instance := instance st; streams := streams st |}.

(** A write to the state or the ref of instance [k]: it is lost unless
    that instance is the one on the page. *)
Definition in_view (k : nat) (f : component -> component) (st : state)
  : state :=
  if mounted st && bool_decide (k = instance st) then
    {| app := app st; view := f (view st); mounted := mounted st;
       instance := instance st; streams := streams st |}
  else st.

(** A write by a handler of the instance on the page. *)
Definition now (f : component -> component) (st : state) : state :=
  in_view (instance st) f st.

(** [${x}] in a template literal, for an optional string. *)
Definition template (o : option (list N)) : list N :=
  default (js "undefined") o.

(** The callback [handleSubmit] gives to [streamChatMessage], on an
    event that has the type [ChatStreamEvent]. *)
Definition on_event (s : stream) (st : state) (e : Api.ChatStreamEvent.t)
  : state :=
  let own := in_view (owner s) in
  match Api.ChatStreamEvent.type e with
  | Api.ChatStreamEvent.start =>
      st ▹ own (setStreamingStatus
                  (or_else (Api.ChatStreamEvent.message e)
                           (js "Processing...")))
  | Api.ChatStreamEvent.status =>
      let st :=
        st ▹ own (setStreamingStatus
                    (or_else (Api.ChatStreamEvent.message e)
                             (js "Initializing..."))) in
      if truthy_opt (Api.ChatStreamEvent.session_id e)
      then st ▹ in_store (setChatSessionId
                            (default [] (Api.ChatStreamEvent.session_id e)))
      else st
  | Api.ChatStreamEvent.thinking =>
      st ▹ own (setStreamingStatus
                  (or_else (Api.ChatStreamEvent.message e)
                           (js "Thinking...")))
  | Api.ChatStreamEvent.tool_call =>
      let st :=
        st ▹ own (setStreamingStatus
                    (js "Calling "
                     ++ template (Api.ChatStreamEvent.tool_name e)
                     ++ js "...")) in
      if truthy_opt (Api.ChatStreamEvent.tool_name e)
      then st ▹ own (setCurrentTools
                       (fun prev =>
                          prev ++ [default [] (Api.ChatStreamEvent.tool_name e)]))
      else st
  | Api.ChatStreamEvent.tool =>
      let st :=
        st ▹ own (setStreamingStatus
                    (js "Executing "
                     ++ template (Api.ChatStreamEvent.tool_name e)
                     ++ js "...")) in
      if truthy_opt (Api.ChatStreamEvent.tool_name e)
         && negb (bool_decide
                    (default [] (Api.ChatStreamEvent.tool_name e)
                     ∈ seen_currentTools (env s)))
      then st ▹ own (setCurrentTools
                       (fun prev =>
                          prev ++ [default [] (Api.ChatStreamEvent.tool_name e)]))
      else st
  | Api.ChatStreamEvent.content =>
      let st :=
        if truthy_opt (Api.ChatStreamEvent.message e)
        then st ▹ own (setStreamingContent
                         (fun prev =>
                            prev ++ default [] (Api.ChatStreamEvent.message e)
                                 ++ js " "))
        else st in
      st ▹ own (setStreamingStatus [])
  | Api.ChatStreamEvent.complete =>
      let st :=
        if truthy_opt (Api.ChatStreamEvent.session_id e)
        then st ▹ in_store (setChatSessionId
                              (default [] (Api.ChatStreamEvent.session_id e)))
        else st in
      st ▹ in_store
             (addChatMessage
                {| role := assistant;
                   content :=
                     or_else (Api.ChatStreamEvent.message e)
                             (trim (seen_streamingContent (env s)));
                   tools_used :=
                     Some (default (seen_currentTools (env s))
                                   (Api.ChatStreamEvent.tools_used e)) |})
         ▹ own reset_streaming
  | Api.ChatStreamEvent.end_ =>
      st ▹ in_store (setIsChatLoading false)
         ▹ own (set_cancelRef None)
  | Api.ChatStreamEvent.error =>
      st ▹ in_store
             (addChatMessage
                {| role := assistant;
                   content :=
                     js "I apologize, but I encountered an error: "
                     ++ template (Api.ChatStreamEvent.message e);
                   tools_used := None |})
         ▹ own reset_streaming
         ▹ in_store (setIsChatLoading false)
         ▹ own (set_cancelRef None)
  end.

(** The callback on whatever [JSON.parse] returned.  On [null] it throws
    before it has done anything, on a value whose [type] is none of the
    nine words it does nothing; a value that has a case but not the
    type of the interface is outside the model. *)
Definition receive (s : stream) (st : state) (v : Json.value) : option state :=
  match Api.typed v with
  | Some e => Some (on_event s st e)
  | None =>
      match v with
      | Json.JNull => Some st
      | _ => if Api.no_case v then Some st else None
      end
  end.

Fixpoint receive_all (s : stream) (st : state) (vs : list Json.value)
  : option state :=
  match vs with
  | [] => Some st
  | v :: vs' => st' ← receive s st v; receive_all s st' vs'
  end.

Definition set_connection (i : nat) (conn : Api.state) (st : state) : state :=
  {| app := app st; view := view st; mounted := mounted st;
     instance := instance st;
     streams :=
       alter (fun s => {| query := query s; sessionId := sessionId s;
                          owner := owner s; env := env s;
                          connection := conn |}) i (streams st) |}.

(** Something happens to stream [i] while it is suspended: [fetchSSE]
    runs up to its next suspension and calls the callback on the way. *)
Definition network (i : nat) (inp : Api.input) (st : state) : option state :=
  match inp, streams st !! i with
  | Api.Cancel, _ => Some st        (* only the page calls cancel *)
  | _, None => Some st
  | _, Some s =>
      let '(conn, out) :=
        Api.step (Some Api.switch_on_type) (connection s) inp in
      receive_all s (set_connection i conn st) (Api.events out)
  end.

(** [cancel()] of stream [i]: [controller.abort()].  The pending
    [fetch] or read rejects with [AbortError], for which the callback
    is not called. *)
Definition abort (i : nat) (st : state) : state :=
  match streams st !! i with
  | None => st
  | Some s =>
      set_connection i
        (fst (Api.step (Some Api.switch_on_type) (connection s) Api.Cancel))
        st
  end.

(** [handleSubmit] *)
Definition handleSubmit (st : state) : state :=
  if negb (truthy (trim (input (view st)))) || isChatLoading (app st) then st
  else
    let s :=
      {| query := trim (input (view st));
         sessionId :=
           if truthy_opt (chatSessionId (app st))
           then chatSessionId (app st) else None;
         owner := instance st;
         env := {| seen_streamingContent := streamingContent (view st);
                   seen_currentTools := currentTools (view st) |};
         connection := Api.initial |} in
    let st :=
      st ▹ in_store (addChatMessage
                       {| role := user; content := trim (input (view st));
                          tools_used := None |})
         ▹ now (setInput [])
         ▹ in_store (setIsChatLoading true)
         ▹ now reset_streaming in
    {| app := app st; view := view st; mounted := mounted st;
       instance := instance st; streams := streams st ++ [s] |}
      ▹ now (set_cancelRef (Some (length (streams st)))).

(** [handleCancel] *)
Definition handleCancel (st : state) : state :=
  match cancelRef (view st) with
  | Some i =>
      st ▹ abort i
         ▹ now (set_cancelRef None)
         ▹ in_store (setIsChatLoading false)
         ▹ now reset_streaming
  | None => st
  end.

(** The cleanup of the effect. *)
Definition unmount (st : state) : state :=
  let st := match cancelRef (view st) with
            | Some i => abort i st
            | None => st
            end in
  {| app := app st; view := view st; mounted := false;
     instance := instance st; streams := streams st |}.

(** A new instance of the component is put on the page. *)
Definition mount (st : state) : state :=
  {| app := app st; view := fresh; mounted := true;
     instance := S (instance st); streams := streams st |}.

(** What happens to the page.  The [disabled] attributes of the
    controls are not modelled. *)
Inductive action :=
| Type_ (s : list N)          (* onChange of the input, or a suggested query *)
| Submit                      (* the form is submitted, or Enter is pressed *)
| ClickCancel
| ClearHistory
| Network (i : nat) (inp : Api.input)
| Unmount
| Mount.

Definition step (st : state) (a : action) : option state :=
  match a with
  | Type_ s => Some (if mounted st then st ▹ now (setInput s) else st)
  | Submit => Some (if mounted st then handleSubmit st else st)
  | ClickCancel => Some (if mounted st then handleCancel st else st)
  | ClearHistory =>
      Some (if mounted st then st ▹ in_store clearChatHistory else st)
  | Network i inp => network i inp st
  | Unmount => Some (if mounted st then unmount st else st)
  | Mount => Some (if mounted st then st else mount st)
  end.

Fixpoint run (st : state) (actions : list action) : option state :=
  match actions with
  | [] => Some st
  | a :: rest => st' ← step st a; run st' rest
  end.

(** What the user can do, as opposed to the network. *)
Definition by_user (a : action) : bool :=
  match a with Network _ _ => false | _ => true end.

(** Stream [j] has nothing more to say to the page: its [fetchSSE] has
    settled, or no such stream was started. *)
Definition ended (j : nat) (st : state) : bool :=
  match streams st !! j with
  | Some s =>
      match Api.at_ (connection s) with Api.Finished _ => true | _ => false end
  | None => true
  end.

(** An action that is not the network speaking to a stream that is
    still open in [st], stream [i] apart. *)
Definition spares (i : nat) (st : state) (a : action) : bool :=
  match a with
  | Network j _ => bool_decide (j = i) || ended j st
  | _ => true
  end.

(** The message an event adds to the conversation, if any. *)
Definition reply (c : closure) (e : Api.ChatStreamEvent.t)
  : option ChatMessage :=
  match Api.ChatStreamEvent.type e with
  | Api.ChatStreamEvent.complete =>
      Some {| role := assistant;
              content := or_else (Api.ChatStreamEvent.message e)
                                 (trim (seen_streamingContent c));
              tools_used :=
                Some (default (seen_currentTools c)
                              (Api.ChatStreamEvent.tools_used e)) |}
  | Api.ChatStreamEvent.error =>
      Some {| role := assistant;
              content := js "I apologize, but I encountered an error: "
                         ++ template (Api.ChatStreamEvent.message e);
              tools_used := None |}
  | _ => None
  end.

End Chat.

(** ** [pages/Chat.tsx], the version that awaits [sendChatMessage]

    This version has neither a stop button nor a cleanup: [handleSubmit]
    waits for the promise of [sendChatMessage] and writes to the store
    when it settles. *)
Module ChatLegacy.

Import JS.

Record state := {
  app : Chat.store;
  input : list N
}.

Definition in_store (f : Chat.store -> Chat.store) (st : state) : state :=
  {| app := f (app st); input := input st |}.

Definition setInput (s : list N) (st : state) : state :=
  {| app := app st; input := s |}.

Notation "st ▹ f" := (f st) (at level 45, left associativity, only parsing).

(** [handleSubmit], up to its [await]: the page, and the arguments of
    the call of [sendChatMessage] if there was one. *)
Definition handleSubmit (st : state)
  : state * option (list N * option (list N)) :=
  if negb (truthy (trim (input st))) || Chat.isChatLoading (app st)
  then (st, None)
  else
    (st ▹ in_store (Chat.addChatMessage
                      {| Chat.role := Chat.user;
                         Chat.content := trim (input st);
                         Chat.tools_used := None |})
        ▹ setInput []
        ▹ in_store (Chat.setIsChatLoading true),
     Some (trim (input st),
           if truthy_opt (Chat.chatSessionId (app st))
           then Chat.chatSessionId (app st) else None)).

(** [handleSubmit] after its [await], once the promise has settled; as
    long as the promise is pending the function is not resumed. *)
Definition handleSubmit_resume (st : state) (p : Api.promise) : state :=
  match p with
  | Api.Pending => st
  | Api.Resolved response =>
      let st :=
        match Types.success response, Types.data response with
        | true, Some data =>
            let st :=
              if truthy (Api.session_id data)
              then st ▹ in_store (Chat.setChatSessionId (Api.session_id data))
              else st in
            st ▹ in_store
                   (Chat.addChatMessage
                      {| Chat.role := Chat.assistant;
                         Chat.content := Api.response data;
                         Chat.tools_used := Some (Api.tools_used data) |})
        | _, _ => st
        end in
      st ▹ in_store (Chat.setIsChatLoading false)
  | Api.RejectedWith _ =>
      st ▹ in_store
             (Chat.addChatMessage
                {| Chat.role := Chat.assistant;
                   Chat.content :=
                     js "I apologize, but I encountered an error. Please try again.";
                   Chat.tools_used := None |})
         ▹ in_store (Chat.setIsChatLoading false)
  end.

(** A whole turn: the question is submitted, the stream delivers
    [events] to the callback of [sendChatMessage], and [handleSubmit]
    goes on if the promise has settled. *)
Definition turn (st : state) (events : list Api.ChatStreamEvent.t) : state :=
  match handleSubmit st with
  | (st1, Some (_, sessionId)) =>
      handleSubmit_resume st1
        (Api.result (Api.deliver (Api.sendChatMessage sessionId) events))
  | (st1, None) => st1
  end.

End ChatLegacy.

(** ** The search page, with the search slice of [store/index.ts]

    The version of the page that leaves the filtering to the server.
    The store outlives the component; the chosen industry does not. *)
Module SearchPage.

Import JS.

(** [types/index.ts] *)
Record Company := {
  id : Z;
  name : list N;
  description : list N;
  industry : list N;
  location : list N;
  website : list N;
  founded_year : Z;
  yc_batch : list N;
  funding : list N;
  employees : list N;
  stage : list N;
  tags : list (list N);
  long_description : list N;
  is_active : bool;
  source : list N
}.

Definition industries : list (list N) :=
  [js "All"; js "AI"; js "FinTech"; js "Healthcare"; js "EdTech"; js "SaaS";
   js "E-commerce"; js "Developer Tools"; js "Security"].

Record state := {
  searchQuery : list N;             (* the store *)
  searchResults : list Company;
  isSearching : bool;
  selectedIndustry : list N;        (* the component *)
  showFilters : bool;
  mounted : bool;
  pending : nat;                    (* calls of handleSearch suspended at their await *)
  calls : list Api.get_request      (* the requests sent so far *)
}.

(** The application before the page is first shown. *)
Definition initial : state :=
  {| searchQuery := []; searchResults := []; isSearching := false;
     selectedIndustry := js "All"; showFilters := false;
     mounted := false; pending := 0; calls := [] |}.

Notation "st ▹ f" := (f st) (at level 45, left associativity, only parsing).

Definition setSearchQuery (q : list N) (st : state) : state :=
  {| searchQuery := q; searchResults := searchResults st;
     isSearching := isSearching st; selectedIndustry := selectedIndustry st;
     showFilters := showFilters st; mounted := mounted st;
     pending := pending st; calls := calls st |}.

Definition setSearchResults (results : list Company) (st : state) : state :=
  {| searchQuery := searchQuery st; searchResults := results;
     isSearching := isSearching st; selectedIndustry := selectedIndustry st;
     showFilters := showFilters st; mounted := mounted st;
     pending := pending st; calls := calls st |}.

Definition setIsSearching (b : bool) (st : state) : state :=
  {| searchQuery := searchQuery st; searchResults := searchResults st;
     isSearching := b; selectedIndustry := selectedIndustry st;
     showFilters := showFilters st; mounted := mounted st;
     pending := pending st; calls := calls st |}.

Definition setSelectedIndustry (i : list N) (st : state) : state :=
  {| searchQuery := searchQuery st; searchResults := searchResults st;
     isSearching := isSearching st; selectedIndustry := i;
     showFilters := showFilters st; mounted := mounted st;
     pending := pending st; calls := calls st |}.

Definition setShowFilters (b : bool) (st : state) : state :=
  {| searchQuery := searchQuery st; searchResults := searchResults st;
     isSearching := isSearching st; selectedIndustry := selectedIndustry st;
     showFilters := b; mounted := mounted st;
     pending := pending st; calls := calls st |}.

(** [await searchCompanies(...)]: the request leaves and the function
    waits. *)
Definition await (r : Api.get_request) (st : state) : state :=
  {| searchQuery := searchQuery st; searchResults := searchResults st;
     isSearching := isSearching st; selectedIndustry := selectedIndustry st;
     showFilters := showFilters st; mounted := mounted st;
     pending := S (pending st); calls := calls st ++ [r] |}.

Definition resumed (st : state) : state :=
  {| searchQuery := searchQuery st; searchResults := searchResults st;
     isSearching := isSearching st; selectedIndustry := selectedIndustry st;
     showFilters := showFilters st; mounted := mounted st;
     pending := Nat.pred (pending st); calls := calls st |}.

(** The [filters] object [handleSearch] builds. *)
Definition filters_of (st : state) : Api.CompanySearchFilters :=
  {| Api.industry :=
       if negb (eqb (selectedIndustry st) (js "All"))
       then Some (selectedIndustry st) else None;
     Api.location := None; Api.min_year := None; Api.stage := None |}.

(** [handleSearch], up to its [await]. *)
Definition handleSearch (st : state) : state :=
  st ▹ setIsSearching true
     ▹ await (Api.searchCompanies (trim (searchQuery st)) (Some 100%Z)
                (Some (filters_of st))).

(** How the request ends. *)
Inductive outcome :=
| Answered (response : Types.ApiResponse (list Company))
| Throws.

(** [handleSearch] after its [await]; an array is truthy, also when
    empty. *)
Definition handleSearch_resume (st : state) (o : outcome) : state :=
  let st :=
    match o with
    | Answered response =>
        match Types.success response, Types.data response with
        | true, Some found => st ▹ setSearchResults found
        | _, _ => st ▹ setSearchResults []
        end
    | Throws => st ▹ setSearchResults []
    end in
  st ▹ setIsSearching false.

(** A new instance of the page: both effects run, the one for the first
    load and the one that watches the industry, which is All and so
    truthy. *)
Definition mount (st : state) : state :=
  let st :=
    {| searchQuery := searchQuery st; searchResults := searchResults st;
       isSearching := isSearching st; selectedIndustry := js "All";
       showFilters := false; mounted := true;
       pending := pending st; calls := calls st |} in
  let st := handleSearch st in
  if truthy (selectedIndustry st) then handleSearch st else st.

Definition unmount (st : state) : state :=
  {| searchQuery := searchQuery st; searchResults := searchResults st;
     isSearching := isSearching st; selectedIndustry := selectedIndustry st;
     showFilters := showFilters st; mounted := false;
     pending := pending st; calls := calls st |}.

(** A click on an industry: the state changes, and when it did change
    the effect that watches it runs. *)
Definition choose (i : list N) (st : state) : state :=
  if eqb i (selectedIndustry st) then st
  else
    let st := st ▹ setSelectedIndustry i in
    if truthy i then handleSearch st else st.

Inductive action :=
| Type_ (q : list N)
| ToggleFilters
| ChooseIndustry (i : list N)
| Search                       (* the button, or Enter in the input *)
| Settles (o : outcome)        (* one of the pending requests ends *)
| Unmount
| Mount.

Definition step (st : state) (a : action) : state :=
  match a with
  | Type_ q => if mounted st then st ▹ setSearchQuery q else st
  | ToggleFilters =>
      if mounted st then st ▹ setShowFilters (negb (showFilters st)) else st
  | ChooseIndustry i => if mounted st then choose i st else st
  | Search => if mounted st then handleSearch st else st
  | Settles o =>
      match pending st with
      | O => st
      | S _ => handleSearch_resume (resumed st) o
      end
  | Unmount => if mounted st then unmount st else st
  | Mount => if mounted st then st else mount st
  end.

Definition run (st : state) (actions : list action) : state :=
  foldl step st actions.

(** A request for the first hundred matches of a trimmed query, with at
    most an industry as its filter, and never the industry All. *)
Definition well_formed (r : Api.get_request) : Prop :=
  Api.get_url r = js "/companies"
  ∧ Api.get_params r !! "limit" = Some (Api.PNum 100)
  ∧ (∃ q, Api.get_params r !! "query" = Some (Api.PStr q) ∧ trim q = q)
  ∧ dom (Api.get_params r) ⊆ {["query"; "limit"; "industry"]}
  ∧ ∀ i, Api.get_params r !! "industry" = Some (Api.PStr i) →
         i ≠ [] ∧ i ≠ js "All" ∧ toLowerCase i ≠ js "all".

End SearchPage.

(** ** Concrete streams, callbacks and pages, used to run the model *)
Module Samples.

Import JS.

(** The bytes of an ASCII text in which every apostrophe stands for a
    quotation mark. *)
Definition quoted (s : string) : list byte :=
  (fun b => if Byte.eqb b x27 then x22 else b) <$> list_byte_of_string s.

Definition text (s : string) : list N := Byte.to_N <$> quoted s.

(** One line of a stream, with its line feed. *)
Definition line (s : string) : list byte := quoted s ++ [x0a].

(** A callback that returns normally and leaves the stream alone. *)
Definition quiet : Api.callback :=
  fun _ _ => {| Api.cancels := false; Api.throws := false |}.

(** A callback that calls [cancel] on the first event it is given. *)
Definition cancel_on_first : Api.callback :=
  fun history _ =>
    {| Api.cancels := match history with [] => true | _ => false end;
       Api.throws := false |}.

(** The stream once the response has arrived. *)
Definition reading : Api.state :=
  fst (Api.step (Some quiet) Api.initial (Api.Response true 200 true)).

(** A turn of the chat, cut into chunks in the middle of a line and in
    the middle of the two bytes of a letter. *)
Definition turn : list (list byte) :=
  [ quoted "data: {'type':'start','message':'caf" ++ [xc3];
    [xa9] ++ quoted "'}" ++ [x0a; x0a] ++ quoted "data: {'type':'con";
    quoted "tent','message':'Hello'}" ++ [x0a; x0a];
    line "data: {'type':'end'}" ++ quoted "data: {'type':'sta" ].

(** A stream whose second line has a payload that is not JSON and whose
    third line has none. *)
Definition garbled : list (list byte) :=
  [ line "data: {'type':'start'}" ++ line "data: {'type':" ;
    line "data: " ++ line "data: {'type':'end'}" ].

(** Two events that arrive in one chunk. *)
Definition tool_events : list byte :=
  line "data: {'type':'tool_call','tool_name':'search_companies'}"
  ++ [x0a]
  ++ line "data: {'type':'tool','tool_name':'search_companies'}"
  ++ [x0a].

Definition tool_call_event : Json.value :=
  Json.JObject [(js "type", Json.JString (js "tool_call"));
                (js "tool_name", Json.JString (js "search_companies"))].

Definition tool_event : Json.value :=
  Json.JObject [(js "type", Json.JString (js "tool"));
                (js "tool_name", Json.JString (js "search_companies"))].

(** An event with a kind and a message only. *)
Definition event (k : Api.ChatStreamEvent.kind) (msg : option (list N))
  : Api.ChatStreamEvent.t :=
  {| Api.ChatStreamEvent.type := k;
     Api.ChatStreamEvent.message := msg;
     Api.ChatStreamEvent.query := None;
     Api.ChatStreamEvent.session_id := None;
     Api.ChatStreamEvent.tool_name := None;
     Api.ChatStreamEvent.tools_used := None;
     Api.ChatStreamEvent.partial := None |}.

(** The [complete] event of a turn. *)
Definition completed (msg session : list N) (tools : list (list N))
  : Api.ChatStreamEvent.t :=
  {| Api.ChatStreamEvent.type := Api.ChatStreamEvent.complete;
     Api.ChatStreamEvent.message := Some msg;
     Api.ChatStreamEvent.query := None;
     Api.ChatStreamEvent.session_id := Some session;
     Api.ChatStreamEvent.tool_name := None;
     Api.ChatStreamEvent.tools_used := Some tools;
     Api.ChatStreamEvent.partial := None |}.

(** Two chunks of an answer and the end of the stream, without a
    [complete] event. *)
Definition two_chunks : list Api.ChatStreamEvent.t :=
  [ event Api.ChatStreamEvent.content (Some (js "a"));
    event Api.ChatStreamEvent.content (Some (js "b"));
    event Api.ChatStreamEvent.end_ None ].

(** A whole turn. *)
Definition whole_turn : list Api.ChatStreamEvent.t :=
  [ event Api.ChatStreamEvent.start (Some (js "Processing"));
    event Api.ChatStreamEvent.content (Some (js "Stripe"));
    event Api.ChatStreamEvent.content (Some (js "is"));
    completed (js " Stripe is a payments company. ") (js "s-1")
              [js "search_companies"];
    event Api.ChatStreamEvent.end_ None;
    event Api.ChatStreamEvent.error (Some (js "late")) ].

(** The server accepts a report and names its task. *)
Definition accepted (task : string) : Reports.submit_outcome :=
  Reports.Submitted
    {| Types.success := true;
       Types.data := Some {| Api.task_id := js task |};
       Types.error := None; Types.message := None |}.

(** A status answer. *)
Definition answer (status : string) (msg : option (list N))
    (res : option Api.ReportGenerationResult) (err : option (list N))
  : Reports.status_outcome :=
  Reports.Polled
    {| Types.success := true;
       Types.data :=
         Some {| Api.ReportTaskStatus.status := js status;
                 Api.ReportTaskStatus.progress := None;
                 Api.ReportTaskStatus.message := msg;
                 Api.ReportTaskStatus.result := res;
                 Api.ReportTaskStatus.error := err |};
       Types.error := None; Types.message := None |}.

(** The answer for a task the server does not know, when it comes as a
    response without data. *)
Definition unknown_task : Reports.status_outcome :=
  Reports.Polled
    {| Types.success := false; Types.data := None;
       Types.error := Some (js "Task not found"); Types.message := None |}.

Definition fintech_report : Api.ReportGenerationResult :=
  {| Api.report_filename := js "fintech-analysis.pdf";
     Api.report_path := js "/reports/fintech-analysis.pdf";
     Api.topic := js "Fintech market analysis";
     Api.report_type := js "market_research";
     Api.format := js "pdf" |}.


(** The user types a topic and asks for the report; the server names
    the task. *)
Definition submitted : list Reports.action :=
  [ Reports.Type_ (js "Fintech market analysis");
    Reports.ClickGenerate;
    Reports.SubmitSettles 0 (accepted "t-123") ].


(** The user asks for a report and leaves the page before the server
    has answered. *)
Definition left_early : list Reports.action :=
  [ Reports.Type_ (js "Fintech market analysis");
    Reports.ClickGenerate;
    Reports.Unmount;
    Reports.SubmitSettles 0 (accepted "t-123") ].

(** What the functions of the first submission close over. *)
Definition seen : Reports.closure :=
  {| Reports.seen_topic := js "Fintech market analysis";
     Reports.seen_reportType := js "comprehensive" |}.

(** A callback that throws on every event. *)
Definition always_throws : Api.callback :=
  fun _ _ => {| Api.cancels := false; Api.throws := true |}.

(** What [fetch] rejects with when the server cannot be reached. *)
Definition network_down : Api.Error :=
  {| Api.name := js "TypeError"; Api.message := js "Failed to fetch" |}.

(** A stream whose last line has no line feed. *)
Definition cut_short : list (list byte) :=
  [ line "data: {'type':'content','message':'Hi'}"
    ++ quoted "data: {'type':'end'}" ].

(** A stream the server closes after its [complete] event, with a
    line of a type the interface does not know and a session that is
    [null]. *)
Definition unfinished : list (list byte) :=
  [ line "data: {'type':'heartbeat'}";
    line "data: {'type':'complete','message':'Hi','session_id':null}" ].

(** A first report is asked for and polled twice; the first answer says
    completed while the second is still on its way.  Then a second
    report is asked for and accepted. *)
Definition second_report : list Reports.action :=
  submitted ++
  [ Reports.Timer 1; Reports.Timer 1;
    Reports.StatusSettles 0
      (answer "completed" None (Some fintech_report) None);
    Reports.Type_ (js "Healthcare");
    Reports.ClickGenerate;
    Reports.SubmitSettles 1 (accepted "t-456") ].

(** The chat page on which a question has been typed. *)
Definition asked : Chat.state :=
  Chat.now (Chat.setInput (js " What is Stripe? ")) Chat.initial.

(** The stream that asks it. *)
Definition question : Chat.stream :=
  {| Chat.query := js "What is Stripe?"; Chat.sessionId := None;
     Chat.owner := 0;
     Chat.env := {| Chat.seen_streamingContent := [];
                    Chat.seen_currentTools := [] |};
     Chat.connection := Api.initial |}.

(** The chat page in the middle of the turn. *)
Definition mid_turn : Chat.state := Chat.handleSubmit asked.

(** The first turn ends with an error event of the server, which leaves
    its stream open; a second question is asked. *)
Definition second_turn : list Chat.action :=
  [ Chat.Type_ (js "What is Stripe?"); Chat.Submit;
    Chat.Network 0 (Api.Response true 200 true);
    Chat.Network 0
      (Api.Chunk (line "data: {'type':'error','message':'busy'}"));
    Chat.Type_ (js "And Plaid?"); Chat.Submit ].

(** The chat page in the middle of that second turn. *)
Definition during_second_turn : Chat.state :=
  default Chat.initial (Chat.run Chat.initial second_turn).

End Samples.

(** * Properties *)

(** ** The bound of the JSON parser *)

Section Fuel.
Import Json.

Lemma skip_ws_length (s : list N) : (length (skip_ws s) ≤ length s)%nat.
Proof.
  induction s as [|c s IH]; simpl; [lia|].
  destruct (is_ws c); simpl; lia.
Qed.

Lemma digits_length (s ds r : list N) :
  digits s = (ds, r) → (length r ≤ length s)%nat.
Proof.
  revert ds r. induction s as [|c s IH]; intros ds r; simpl.
  - intros [= <- <-]. simpl. lia.
  - destruct (is_digit c).
    + destruct (digits s) as [ds' r'] eqn:Hd. intros [= <- <-].
      specialize (IH _ _ eq_refl). lia.
    + intros [= <- <-]. simpl. lia.
Qed.

Lemma number_length (s lex r : list N) :
  number s = Some (lex, r) → (length r < length s)%nat.
Proof.
  unfold number.
  assert (Hint : ∀ s0 i s1, int_part s0 = Some (i, s1) →
                            (length s1 < length s0)%nat).
  { intros [|c s0] i s1; simpl; [done|].
    destruct (c =? 48); [intros [= <- <-]; lia|].
    destruct (is_digit c); [|done].
    destruct (digits s0) as [ds r'] eqn:Hd. intros [= <- <-].
    apply digits_length in Hd. lia. }
  assert (Hfrac : ∀ s1 f s2, frac_part s1 = Some (f, s2) →
                             (length s2 ≤ length s1)%nat).
  { intros [|c s1] f s2; simpl; [intros [= <- <-]; simpl; lia|].
    destruct (c =? 46).
    - destruct (digits s1) as [[|d ds] r'] eqn:Hd; [done|].
      intros [= <- <-]. apply digits_length in Hd. lia.
    - intros [= <- <-]. simpl. lia. }
  assert (Hexp : ∀ s2 e s3, exp_part s2 = Some (e, s3) →
                            (length s3 ≤ length s2)%nat).
  { intros [|c s2] e s3; simpl; [intros [= <- <-]; simpl; lia|].
    destruct ((c =? 101) || (c =? 69)).
    - destruct s2 as [|g t].
      + simpl. done.
      + destruct ((g =? 43) || (g =? 45)).
        * destruct (digits t) as [[|d ds] r'] eqn:Hd; [done|].
          intros [= <- <-]. apply digits_length in Hd. simpl. lia.
        * destruct (digits (g :: t)) as [[|d ds] r'] eqn:Hd; [done|].
          intros [= <- <-]. apply digits_length in Hd. simpl in *. lia.
    - intros [= <- <-]. simpl. lia. }
  destruct s as [|c s]; simpl.
  - done.
  - destruct (c =? 45).
    + destruct (int_part s) as [[i s1]|] eqn:H1; [|done]. simpl.
      destruct (frac_part s1) as [[f s2]|] eqn:H2; [|done]. simpl.
      destruct (exp_part s2) as [[e s3]|] eqn:H3; [|done]. simpl.
      intros [= <- <-].
      apply Hint in H1. apply Hfrac in H2. apply Hexp in H3. lia.
    + destruct (int_part (c :: s)) as [[i s1]|] eqn:H1; [|done]. simpl.
      destruct (frac_part s1) as [[f s2]|] eqn:H2; [|done]. simpl.
      destruct (exp_part s2) as [[e s3]|] eqn:H3; [|done]. simpl.
      intros [= <- <-].
      apply Hint in H1. apply Hfrac in H2. apply Hexp in H3. simpl in *. lia.
Qed.

Lemma chars_length (s cs r : list N) :
  chars s = Some (cs, r) → (length r < length s)%nat.
Proof.
  remember (length s) as m eqn:Hm.
  revert s cs r Hm. induction m as [m IH] using lt_wf_ind.
  intros [|c s] cs r Hm; [done|]. cbn [chars].
  destruct (c =? 34); [intros [= <- <-]; simpl in *; lia|].
  destruct (c =? 92).
  - destruct s as [|e r1]; [done|].
    destruct (e =? 117).
    + destruct r1 as [|h1 [|h2 [|h3 [|h4 r2]]]]; try done.
      destruct (hex_digit h1); [|done]. destruct (hex_digit h2); [|done].
      destruct (hex_digit h3); [|done]. destruct (hex_digit h4); [|done].
      cbn. destruct (chars r2) as [[cs' rest]|] eqn:Hc; [|done].
      intros [= <- <-].
      apply (IH (length r2)) in Hc; [|simpl in Hm; lia|done].
      simpl in *. lia.
    + destruct (escape e); [|done]. cbn.
      destruct (chars r1) as [[cs' rest]|] eqn:Hc; [|done].
      intros [= <- <-].
      apply (IH (length r1)) in Hc; [|simpl in Hm; lia|done].
      simpl in *. lia.
  - destruct (c <? 32); [done|].
    destruct (chars s) as [[cs' rest]|] eqn:Hc; [|done]. cbn.
    intros [= <- <-].
    apply (IH (length s)) in Hc; [|simpl in Hm; lia|done].
    simpl in *. lia.
Qed.


Lemma literal_length word v c (s : list N) v' rest :
  word ≠ EmptyString →
  literal word v (c :: s) = Some (v', rest) →
  (length rest < length (c :: s))%nat.
Proof.
  intros Hw. unfold literal. destruct (JS.startsWith _ _); [|done].
  intros [= <- <-]. rewrite length_drop.
  destruct word; [done|]. simpl. lia.
Qed.

(** A value, a list of elements and a list of members each take at least
    one code unit. *)
Lemma parse_consumes (n : nat) :
  (∀ s v r, parse_value n s = Some (v, r) → (length r < length s)%nat)
  ∧ (∀ s vs r, parse_elements n s = Some (vs, r) → (length r < length s)%nat)
  ∧ (∀ s ms r, parse_members n s = Some (ms, r) → (length r < length s)%nat).
Proof.
  induction n as [|n (IHv & IHe & IHm)]; [done|].
  split; [|split].
  - intros s v r. cbn [parse_value].
    pose proof (skip_ws_length s) as Hs.
    destruct (skip_ws s) as [|c t]; [done|]. simpl in Hs.
    destruct (c =? 123).
    { pose proof (skip_ws_length t) as Ht.
      destruct (skip_ws t) as [|c' t']; [done|]. simpl in Ht.
      destruct (c' =? 125); [intros [= <- <-]; lia|].
      destruct (parse_members n (c' :: t')) as [[ms rest]|] eqn:Hm; [|done].
      cbn. intros [= <- <-]. apply IHm in Hm. simpl in Hm. lia. }
    destruct (c =? 91).
    { pose proof (skip_ws_length t) as Ht.
      destruct (skip_ws t) as [|c' t']; [done|]. simpl in Ht.
      destruct (c' =? 93); [intros [= <- <-]; lia|].
      destruct (parse_elements n (c' :: t')) as [[vs rest]|] eqn:He; [|done].
      cbn. intros [= <- <-]. apply IHe in He. simpl in He. lia. }
    destruct (c =? 34).
    { destruct (chars t) as [[cs rest]|] eqn:Hc; [|done].
      cbn. intros [= <- <-]. apply chars_length in Hc. lia. }
    destruct (c =? 116).
    { intros H. apply literal_length in H; [simpl in H; lia|done]. }
    destruct (c =? 102).
    { intros H. apply literal_length in H; [simpl in H; lia|done]. }
    destruct (c =? 110).
    { intros H. apply literal_length in H; [simpl in H; lia|done]. }
    destruct (number (c :: t)) as [[lex rest]|] eqn:Hn; [|done].
    cbn. intros [= <- <-]. apply number_length in Hn. simpl in Hn. lia.
  - intros s vs r. cbn [parse_elements].
    destruct (parse_value n s) as [[v t]|] eqn:Hv; [|done]. cbn.
    apply IHv in Hv. pose proof (skip_ws_length t) as Ht.
    destruct (skip_ws t) as [|c t']; [done|]. simpl in Ht.
    destruct (c =? 93); [intros [= <- <-]; lia|].
    destruct (c =? 44); [|done].
    destruct (parse_elements n t') as [[vs' rest]|] eqn:He; [|done].
    cbn. intros [= <- <-]. apply IHe in He. lia.
  - intros s ms r. cbn [parse_members].
    pose proof (skip_ws_length s) as Hs.
    destruct (skip_ws s) as [|q r0]; [done|]. simpl in Hs.
    destruct (q =? 34); [|done].
    destruct (chars r0) as [[k r1]|] eqn:Hc; [|done]. cbn.
    apply chars_length in Hc. pose proof (skip_ws_length r1) as H1.
    destruct (skip_ws r1) as [|colon r2]; [done|]. simpl in H1.
    destruct (colon =? 58); [|done].
    destruct (parse_value n r2) as [[v r3]|] eqn:Hv; [|done]. cbn.
    apply IHv in Hv. pose proof (skip_ws_length r3) as H3.
    destruct (skip_ws r3) as [|c r']; [done|]. simpl in H3.
    destruct (c =? 125); [intros [= <- <-]; lia|].
    destruct (c =? 44); [|done].
    destruct (parse_members n r') as [[ms' rest]|] eqn:Hm; [|done].
    cbn. intros [= <- <-]. apply IHm in Hm. lia.
Qed.

Lemma parse_elements_S (n : nat) (s : list N) :
  parse_elements (S n) s =
  '(v, r) ← parse_value n s;
  match skip_ws r with
  | c :: r' =>
      if c =? 0x5D then Some ([v], r')
      else if c =? 0x2C then
        '(vs, rest) ← parse_elements n r'; Some (v :: vs, rest)
      else None
  | [] => None
  end.
Proof. reflexivity. Qed.

Lemma parse_members_S (n : nat) (s : list N) :
  parse_members (S n) s =
  match skip_ws s with
  | q :: r0 =>
      if q =? 0x22 then
        '(k, r1) ← chars r0;
        match skip_ws r1 with
        | colon :: r2 =>
            if colon =? 0x3A then
              '(v, r3) ← parse_value n r2;
              match skip_ws r3 with
              | c :: r' =>
                  if c =? 0x7D then Some ([(k, v)], r')
                  else if c =? 0x2C then
                    '(ms, rest) ← parse_members n r';
                    Some ((k, v) :: ms, rest)
                  else None
              | [] => None
              end
            else None
        | [] => None
        end
      else None
  | [] => None
  end.
Proof. reflexivity. Qed.

(** With the bound [JSON.parse] starts from, one more nested call is
    never needed. *)
Lemma parse_fuel_step (n : nat) :
  (∀ s, (2 * length s + 1 ≤ n)%nat → parse_value (S n) s = parse_value n s)
  ∧ (∀ s, (2 * length s + 2 ≤ n)%nat →
          parse_elements (S n) s = parse_elements n s)
  ∧ (∀ s, (2 * length s ≤ n)%nat →
          parse_members (S n) s = parse_members n s).
Proof.
  induction n as [|n (IHv & IHe & IHm)].
  - split; [|split]; intros s Hs; [lia|lia|].
    destruct s; [done|]. simpl in Hs. lia.
  - split; [|split]; intros s Hs.
    + cbn [parse_value].
      pose proof (skip_ws_length s) as Hl.
      destruct (skip_ws s) as [|c t]; [done|]. simpl in Hl.
      pose proof (skip_ws_length t) as Ht.
      destruct (skip_ws t) as [|c' t'] eqn:Hsk; simpl in Ht.
      * done.
      * rewrite IHm by (simpl; lia). rewrite IHe by (simpl; lia). done.
    + rewrite (parse_elements_S (S n) s), (parse_elements_S n s).
      rewrite IHv by lia.
      destruct (parse_value n s) as [[v t]|] eqn:Hv; [|done]. cbn [mbind option_bind].
      apply (proj1 (parse_consumes n)) in Hv.
      pose proof (skip_ws_length t) as Ht.
      destruct (skip_ws t) as [|c t']; [done|]. simpl in Ht.
      rewrite IHe by lia. done.
    + rewrite (parse_members_S (S n) s), (parse_members_S n s).
      pose proof (skip_ws_length s) as Hl.
      destruct (skip_ws s) as [|q r0]; [done|]. simpl in Hl.
      destruct (q =? 34); [|done].
      destruct (chars r0) as [[k r1]|] eqn:Hc; [|done]. cbn [mbind option_bind].
      apply chars_length in Hc. pose proof (skip_ws_length r1) as H1.
      destruct (skip_ws r1) as [|colon r2]; [done|]. simpl in H1.
      destruct (colon =? 58); [|done].
      rewrite IHv by lia.
      destruct (parse_value n r2) as [[v r3]|] eqn:Hv; [|done]. cbn [mbind option_bind].
      apply (proj1 (parse_consumes n)) in Hv.
      pose proof (skip_ws_length r3) as H3.
      destruct (skip_ws r3) as [|c r']; [done|]. simpl in H3.
      rewrite IHm by lia. done.
Qed.

(** [JSON.parse] gives the same answer however much more the bound on
    nested calls is raised: it never fails for want of it. *)
Lemma parse_bound_is_enough (text : list N) (extra : nat) :
  parse_value (2 * length text + 2 + extra) text
  = parse_value (2 * length text + 2) text.
Proof.
  induction extra as [|k IH]; [by rewrite Nat.add_0_r|].
  rewrite Nat.add_succ_r.
  rewrite (proj1 (parse_fuel_step _)) by lia. exact IH.
Qed.

End Fuel.

(** ** Lines of a text *)
Section Lines.
Import JS Protocol.

(** [split] cuts a text into its complete lines and what follows the
    last separator. *)
Lemma split_spec (sep : N) (s : list N) :
  ∃ (lines : list (list N)) (rest : list N),
    split sep s = lines ++ [rest]
    ∧ s = concat ((fun l => l ++ [sep]) <$> lines) ++ rest
    ∧ Forall (fun l => sep ∉ l) lines
    ∧ sep ∉ rest.
Proof.
  induction s as [|c s (lines & rest & Hs & Hcat & Hl & Hr)]; simpl.
  - exists [], []. repeat split; [constructor | apply not_elem_of_nil].
  - destruct (N.eqb_spec c sep) as [->|Hne].
    + exists ([] :: lines), rest. rewrite Hs. repeat split; try done.
      * simpl. f_equal. exact Hcat.
      * constructor; [apply not_elem_of_nil | done].
    + rewrite Hs. destruct lines as [|l lines]; simpl in *.
      * exists [], (c :: rest). repeat split; try done.
        -- simpl. f_equal. exact Hcat.
        -- rewrite not_elem_of_cons. split; [congruence | done].
      * exists ((c :: l) :: lines), rest. inversion Hl; subst.
        repeat split; try done.
        constructor; [|done]. rewrite not_elem_of_cons. split; [congruence | done].
Qed.

Lemma pop_snoc {A} (l : list A) (x : A) : pop (l ++ [x]) = (Some x, l).
Proof. unfold pop. by rewrite last_snoc, removelast_last. Qed.


Lemma or_else_Some (s : list N) : or_else (Some s) [] = s.
Proof. by destruct s. Qed.

Lemma with_line_feeds_app (l1 l2 : list (list N)) :
  with_line_feeds (l1 ++ l2) = with_line_feeds l1 ++ with_line_feeds l2.
Proof. unfold with_line_feeds. by rewrite fmap_app, concat_app. Qed.

(** A text has one reading as complete lines and an unfinished rest. *)
Lemma first_line_unique (a b x y : list N) :
  LF ∉ a → LF ∉ b → a ++ LF :: x = b ++ LF :: y → a = b ∧ x = y.
Proof.
  revert b. induction a as [|c a IH]; intros [|d b] Ha Hb Heq; simpl in *.
  - by inversion Heq.
  - inversion Heq; subst. exfalso. apply Hb. left.
  - inversion Heq; subst. exfalso. apply Ha. left.
  - inversion Heq; subst.
    apply not_elem_of_cons in Ha as [_ Ha]. apply not_elem_of_cons in Hb as [_ Hb].
    destruct (IH b Ha Hb) as [-> ->]; done.
Qed.

Lemma lines_unique (l1 l2 : list (list N)) (r1 r2 : list N) :
  Forall (fun l => LF ∉ l) l1 → Forall (fun l => LF ∉ l) l2 →
  LF ∉ r1 → LF ∉ r2 →
  with_line_feeds l1 ++ r1 = with_line_feeds l2 ++ r2 →
  l1 = l2 ∧ r1 = r2.
Proof.
  revert l2. induction l1 as [|a l1 IH]; intros [|b l2] H1 H2 Hr1 Hr2 Heq.
  - done.
  - exfalso. apply Hr1. unfold with_line_feeds in Heq. simpl in Heq.
    rewrite Heq, <- !app_assoc. apply elem_of_app. right. left.
  - exfalso. apply Hr2. unfold with_line_feeds in Heq. simpl in Heq.
    rewrite <- Heq, <- !app_assoc. apply elem_of_app. right. left.
  - inversion H1; inversion H2; subst.
    unfold with_line_feeds in Heq. simpl in Heq.
    rewrite <- !app_assoc in Heq. simpl in Heq.
    apply first_line_unique in Heq as [-> Heq]; [|done..].
    destruct (IH l2) as [-> ->]; done.
Qed.

End Lines.

Section Stream.
Import JS Protocol Api.

Variable f : callback.

Lemma process_line_relay p d b st line :
  process_line (Some f) (relay p d b st) line =
  (relay p d b (fst (process_line (Some f) st line)), (snd (process_line (Some f) st line))).
Proof.
  unfold process_line.
  destruct (startsWith _ line); [|done].
  destruct (truthy _); [|done].
  destruct (Json.parse _); [|done].
  simpl. by destruct (throws _).
Qed.

Lemma process_lines_relay p d b st lines :
  process_lines (Some f) (relay p d b st) lines =
  (relay p d b (fst (process_lines (Some f) st lines)), (snd (process_lines (Some f) st lines))).
Proof.
  revert st. induction lines as [|l lines IH]; intros st; simpl; [done|].
  rewrite process_line_relay.
  destruct (process_line (Some f) st l) as [st1 out1]; simpl.
  rewrite IH. by destruct (process_lines (Some f) st1 lines).
Qed.

Lemma process_lines_app st l1 l2 :
  process_lines (Some f) st (l1 ++ l2) =
  let '(st1, out1) := process_lines (Some f) st l1 in
  let '(st2, out2) := process_lines (Some f) st1 l2 in
  (st2, out1 ++ out2).
Proof.
  revert st. induction l1 as [|l l1 IH]; intros st; simpl.
  - by destruct (process_lines (Some f) st l2).
  - destruct (process_line (Some f) st l) as [st1 out1].
    rewrite IH. destruct (process_lines (Some f) st1 l1) as [st2 out2].
    destruct (process_lines (Some f) st2 l2) as [st3 out3].
    by rewrite app_assoc.
Qed.

Lemma events_app o1 o2 : events (o1 ++ o2) = events o1 ++ events o2.
Proof. unfold events. by rewrite omap_app. Qed.

Lemma logged_app o1 o2 : logged (o1 ++ o2) = logged o1 ++ logged o2.
Proof. unfold logged. by rewrite omap_app. Qed.

(** One line: the event it stands for is given to the callback, and
    nothing else is. *)
Lemma process_line_events st line :
  events (snd (process_line (Some f) st line)) = option_list (decode_line line)
  ∧ delivered (fst (process_line (Some f) st line))
    = delivered st ++ option_list (decode_line line)
  ∧ reader_of (fst (process_line (Some f) st line)) = reader_of st.
Proof.
  unfold process_line, decode_line.
  destruct (startsWith _ line); simpl; [|by rewrite app_nil_r].
  destruct (truthy _); simpl; [|by rewrite app_nil_r].
  destruct (Json.parse _) as [event|]; simpl; [|by rewrite app_nil_r].
  by destruct (throws _).
Qed.

Lemma process_lines_events st lines :
  events (snd (process_lines (Some f) st lines)) = omap decode_line lines
  ∧ delivered (fst (process_lines (Some f) st lines))
    = delivered st ++ omap decode_line lines
  ∧ reader_of (fst (process_lines (Some f) st lines)) = reader_of st.
Proof.
  revert st. induction lines as [|l lines IH]; intros st; simpl.
  - by rewrite app_nil_r.
  - destruct (process_line_events st l) as (He & Hd & Hr).
    destruct (process_line (Some f) st l) as [st1 out1]; simpl in *.
    destruct (IH st1) as (He' & Hd' & Hr').
    destruct (process_lines (Some f) st1 lines) as [st2 out2]; simpl in *.
    rewrite events_app, He, He', Hd', Hd, Hr', Hr, <- app_assoc.
    by destruct (decode_line l).
Qed.

Lemma process_line_aborted st line :
  never_cancels f →
  aborted (fst (process_line (Some f) st line)) = aborted st.
Proof.
  intros Hf. unfold process_line.
  destruct (startsWith _ line); [|done].
  destruct (truthy _); [|done].
  destruct (Json.parse _); [|done].
  simpl. rewrite Hf. by rewrite orb_false_r.
Qed.

Lemma process_lines_aborted st lines :
  never_cancels f →
  aborted (fst (process_lines (Some f) st lines)) = aborted st.
Proof.
  intros Hf. revert st. induction lines as [|l lines IH]; intros st; simpl; [done|].
  pose proof (process_line_aborted st l Hf) as H1.
  destruct (process_line (Some f) st l) as [st1 out1]; simpl in *.
  specialize (IH st1).
  destruct (process_lines (Some f) st1 lines) as [st2 out2]; simpl in *.
  congruence.
Qed.

Lemma decode_app d a b :
  TextDecoder.decode d (a ++ b) =
  let '(t1, d1) := TextDecoder.decode d a in
  let '(t2, d2) := TextDecoder.decode d1 b in
  (t1 ++ t2, d2).
Proof.
  revert d. induction a as [|x a IH]; intros d; simpl.
  - by destruct (TextDecoder.decode d b).
  - destruct (TextDecoder.decode_byte d x) as [o1 d1].
    rewrite IH. destruct (TextDecoder.decode d1 a) as [t1 d2].
    destruct (TextDecoder.decode d2 b) as [t2 d3].
    by rewrite app_assoc.
Qed.

(** One chunk: the lines that the chunk completes are processed, the
    rest is kept. *)
Lemma process_chunk_spec st value :
  ∃ lines rest,
    buffer st ++ (fst (TextDecoder.decode (decoder st) value))
      = with_line_feeds lines ++ rest
    ∧ Forall (fun l => LF ∉ l) lines ∧ (LF ∉ rest)
    ∧ process_chunk (Some f) st value =
      (relay (at_ st) (snd (TextDecoder.decode (decoder st) value)) rest
             (fst (process_lines (Some f) st lines)),
       (snd (process_lines (Some f) st lines))).
Proof.
  unfold process_chunk.
  destruct (TextDecoder.decode (decoder st) value) as [text dec].
  destruct (split_spec LF (buffer st ++ text)) as (lines & rest & Hs & Hc & Hl & Hr).
  exists lines, rest. rewrite Hs, pop_snoc, or_else_Some. simpl.
  repeat split; try done.
  rewrite <- process_lines_relay. done.
Qed.

(** The reads of a stream that is not cancelled: the complete lines of
    the whole text are processed in order, whatever the chunks are. *)
Lemma run_chunks st values :
  never_cancels f → at_ st = AwaitRead → aborted st = false →
  LF ∉ buffer st →
  ∃ lines rest,
    buffer st ++ (fst (TextDecoder.decode (decoder st) (concat values)))
      = with_line_feeds lines ++ rest
    ∧ Forall (fun l => LF ∉ l) lines ∧ (LF ∉ rest)
    ∧ fetchSSE (Some f) st (Chunk <$> values) =
      (relay AwaitRead (snd (TextDecoder.decode (decoder st) (concat values))) rest
             (fst (process_lines (Some f) st lines)),
       (snd (process_lines (Some f) st lines))).
Proof.
  intros Hf. revert st.
  induction values as [|v values IH]; intros st Hat Hab Hbuf.
  - exists [], (buffer st). simpl. rewrite app_nil_r. repeat split; try done.
    rewrite <- Hat. by destruct st.
  - rewrite fmap_cons. cbn [fetchSSE concat]. unfold step. rewrite Hat.
    destruct (process_chunk_spec st v) as (l1 & r1 & Hc1 & Hl1 & Hr1 & ->).
    set (st1 := relay _ _ _ _).
    assert (Hab1 : aborted st1 = false).
    { subst st1. simpl. by rewrite process_lines_aborted. }
    rewrite Hab1.
    destruct (IH st1) as (l2 & r2 & Hc2 & Hl2 & Hr2 & Hrun); [done..|].
    rewrite Hrun. exists (l1 ++ l2), r2.
    rewrite decode_app.
    destruct (TextDecoder.decode (decoder st) v) as [t1 d1]; simpl in *.
    subst st1. simpl in *. rewrite Hat in *.
    destruct (TextDecoder.decode d1 (concat values)) as [t2 d2]; simpl in *.
    repeat split.
    + rewrite app_assoc, Hc1, <- app_assoc, Hc2, with_line_feeds_app.
      by rewrite app_assoc.
    + by apply Forall_app.
    + done.
    + rewrite process_lines_app.
      destruct (process_lines (Some f) st l1) as [sa oa]; simpl.
      rewrite process_lines_relay.
      destruct (process_lines (Some f) sa l2) as [sb ob]; simpl.
      done.
Qed.

(** A line after [data: ] that [JSON.parse] rejects: the state is
    left as it was; the failure is logged when there was something to
    parse. *)
Lemma process_line_malformed st bad :
  startsWith (js "data: ") bad = true → Json.parse (slice 6 bad) = None →
  process_line (Some f) st bad =
  (st, if truthy (trim (slice 6 bad)) then [LogParseFailure bad] else []).
Proof.
  intros Hs Hp. unfold process_line. rewrite Hs, Hp.
  by destruct (truthy _).
Qed.

Lemma process_line_logged st line l :
  l ∈ logged (snd (process_line (Some f) st line)) →
  l = line ∧ truthy (trim (slice 6 line)) = true.
Proof.
  unfold process_line.
  destruct (startsWith _ line); simpl; [|by intros ?%elem_of_nil].
  destruct (truthy _); simpl; [|by intros ?%elem_of_nil].
  destruct (Json.parse _) as [event|]; simpl.
  - destruct (throws _); simpl.
    + by intros ->%list_elem_of_singleton.
    + by intros ?%elem_of_nil.
  - by intros ->%list_elem_of_singleton.
Qed.

Lemma process_lines_logged st lines l :
  l ∈ logged (snd (process_lines (Some f) st lines)) →
  l ∈ lines ∧ truthy (trim (slice 6 l)) = true.
Proof.
  revert st. induction lines as [|x lines IH]; intros st; simpl.
  - by intros ?%elem_of_nil.
  - pose proof (process_line_logged st x l) as H1.
    destruct (process_line (Some f) st x) as [st1 out1]; simpl in *.
    specialize (IH st1).
    destruct (process_lines (Some f) st1 lines) as [st2 out2]; simpl in *.
    rewrite logged_app, elem_of_app. intros [H|H].
    + destruct (H1 H) as [-> ?]. split; [left | done].
    + destruct (IH H). split; [by right | done].
Qed.

(** The lines around a malformed line are processed as if it were not
    there. *)
Lemma process_lines_malformed st before bad after :
  startsWith (js "data: ") bad = true → Json.parse (slice 6 bad) = None →
  let mid := if truthy (trim (slice 6 bad)) then [LogParseFailure bad] else [] in
  let '(st1, out1) := process_lines (Some f) st before in
  let '(st2, out2) := process_lines (Some f) st1 after in
  process_lines (Some f) st (before ++ bad :: after)
  = (st2, out1 ++ mid ++ out2)
  ∧ process_lines (Some f) st (before ++ after) = (st2, out1 ++ out2).
Proof.
  intros Hs Hp mid.
  rewrite !process_lines_app.
  destruct (process_lines (Some f) st before) as [st1 out1].
  cbn [process_lines]. rewrite (process_line_malformed _ _ Hs Hp).
  by destruct (process_lines (Some f) st1 after) as [st2 out2].
Qed.

End Stream.

(** ** The SSE reader *)

Section Reader.
Import JS Protocol Api.

(** C1.  Whatever chunks the reads of a stream return, and wherever
    they cut the bytes, the callback is given exactly the events of the
    complete lines of the text decoded so far, in the order of the
    lines: that text is those lines, each with its line feed, followed
    by the buffer, which holds no line feed and of which nothing has
    been decoded.  The end of the stream decodes nothing more.  As the
    statement holds for every list of chunks, it holds after each
    chunk. *)
Theorem reader_delivers_complete_lines_in_order
    (f : callback) (st : state) (values : list (list byte)) :
  never_cancels f → at_ st = AwaitRead → aborted st = false →
  LF ∉ buffer st →
  let st' := fst (fetchSSE (Some f) st (Chunk <$> values)) in
  let out := snd (fetchSSE (Some f) st (Chunk <$> values)) in
  ∃ lines : list (list N),
    buffer st ++ fst (TextDecoder.decode (decoder st) (concat values))
      = with_line_feeds lines ++ buffer st'
    ∧ Forall (fun l => LF ∉ l) lines
    ∧ (LF ∉ buffer st')
    ∧ events out = omap decode_line lines
    ∧ delivered st' = delivered st ++ omap decode_line lines
    ∧ at_ st' = AwaitRead
    ∧ events (snd (fetchSSE (Some f) st' [Done])) = []
    ∧ delivered (fst (fetchSSE (Some f) st' [Done])) = delivered st'.
Proof.
  intros Hf Hat Hab Hbuf st' out.
  destruct (run_chunks f st values Hf Hat Hab Hbuf)
    as (lines & rest & Hc & Hl & Hr & Hrun).
  destruct (process_lines_events f st lines) as (He & Hd & _).
  exists lines. subst st' out. rewrite Hrun. simpl.
  repeat split; done.
Qed.

Lemma reader_delivers_complete_lines_in_order_witness :
  never_cancels Samples.quiet
  ∧ at_ Samples.reading = AwaitRead
  ∧ aborted Samples.reading = false
  ∧ (LF ∉ buffer Samples.reading)
  ∧ let st' := fst (fetchSSE (Some Samples.quiet) Samples.reading
                      (Chunk <$> Samples.turn)) in
    let out := snd (fetchSSE (Some Samples.quiet) Samples.reading
                      (Chunk <$> Samples.turn)) in
    ∃ lines : list (list N),
      buffer Samples.reading
        ++ fst (TextDecoder.decode (decoder Samples.reading)
                  (concat Samples.turn))
      = with_line_feeds lines ++ buffer st'
      ∧ Forall (fun l => LF ∉ l) lines
      ∧ (LF ∉ buffer st')
      ∧ events out = omap decode_line lines
      ∧ delivered st' = delivered Samples.reading ++ omap decode_line lines
      ∧ at_ st' = AwaitRead
      ∧ events (snd (fetchSSE (Some Samples.quiet) st' [Done])) = []
      ∧ delivered (fst (fetchSSE (Some Samples.quiet) st' [Done])) = delivered st'.
Proof.
  assert (H1 : never_cancels Samples.quiet) by (intros ? ?; reflexivity).
  assert (H2 : at_ Samples.reading = AwaitRead) by reflexivity.
  assert (H3 : aborted Samples.reading = false) by reflexivity.
  assert (H4 : LF ∉ buffer Samples.reading) by apply not_elem_of_nil.
  do 4 (split; [assumption|]).
  exact (reader_delivers_complete_lines_in_order
           Samples.quiet Samples.reading Samples.turn H1 H2 H3 H4).
Defined.

(** The sample turn: three events, of which the first was cut inside a
    letter of two bytes, and an unfinished line left in the buffer. *)
Example turn_runs :
  length (events (snd (fetchSSE (Some Samples.quiet) Samples.reading
                         (Chunk <$> Samples.turn)))) = 3%nat
  ∧ buffer (fst (fetchSSE (Some Samples.quiet) Samples.reading
                   (Chunk <$> Samples.turn)))
    = Samples.text "data: {'type':'sta"
  ∧ Json.get "message"
      <$> head (events (snd (fetchSSE (Some Samples.quiet) Samples.reading
                               (Chunk <$> Samples.turn))))
    = Some (Some (Json.JString (js "caf" ++ [0xE9]))).
Proof. vm_compute. done. Qed.

(** C4, as the code has it.  A complete line that starts with
    [data: ] and whose payload [JSON.parse] rejects stands for no event,
    and the stream goes on: the callback is given the events of the
    lines before it and of the lines after it, as if the line were not
    there, so every later line that stands for an event is delivered.
    The failure is logged exactly when the payload is not blank; a
    blank payload is skipped without a word. *)
Theorem malformed_line_is_skipped
    (f : callback) (st : state) (values : list (list byte))
    (before after : list (list N)) (bad rest : list N) :
  never_cancels f → at_ st = AwaitRead → aborted st = false →
  LF ∉ buffer st →
  buffer st ++ fst (TextDecoder.decode (decoder st) (concat values))
    = with_line_feeds (before ++ bad :: after) ++ rest →
  Forall (fun l => LF ∉ l) (before ++ bad :: after) → LF ∉ rest →
  startsWith (js "data: ") bad = true →
  Json.parse (slice 6 bad) = None →
  let st' := fst (fetchSSE (Some f) st (Chunk <$> values)) in
  let out := snd (fetchSSE (Some f) st (Chunk <$> values)) in
  decode_line bad = None
  ∧ events out = omap decode_line before ++ omap decode_line after
  ∧ (∀ l e, l ∈ after → decode_line l = Some e → e ∈ events out)
  ∧ (bad ∈ logged out ↔ trim (slice 6 bad) ≠ [])
  ∧ at_ st' = AwaitRead
  ∧ buffer st' = rest.
Proof.
  intros Hf Hat Hab Hbuf Htext Hlines Hrest Hs Hp st' out.
  destruct (run_chunks f st values Hf Hat Hab Hbuf)
    as (lines & rest' & Hc & Hl & Hr & Hrun).
  rewrite Htext in Hc.
  destruct (lines_unique _ _ _ _ Hlines Hl Hrest Hr Hc) as [<- <-].
  assert (Hbad : decode_line bad = None).
  { unfold decode_line. rewrite Hs, Hp. by destruct (truthy _). }
  subst st' out. rewrite Hrun. cbn [fst snd relay at_ buffer].
  assert (Hev : events (snd (process_lines (Some f) st (before ++ bad :: after)))
                = omap decode_line before ++ omap decode_line after).
  { destruct (process_lines_events f st (before ++ bad :: after)) as (-> & _).
    rewrite omap_app. simpl. by rewrite Hbad. }
  split; [done|]. split; [done|]. split; [|split; [|done]].
  - intros l e Hin Hl'. rewrite Hev.
    apply elem_of_app. right. apply list_elem_of_omap. eauto.
  - split.
    + intros Hin. apply process_lines_logged in Hin as [_ Hin].
      by destruct (trim (slice 6 bad)).
    + intros Hne.
      pose proof (process_lines_malformed f st before bad after Hs Hp) as H.
      cbv zeta in H.
      destruct (process_lines (Some f) st before) as [st1 out1].
      destruct (process_lines (Some f) st1 after) as [st2 out2].
      destruct H as [-> _]. cbn [snd].
      rewrite !logged_app, !elem_of_app. right. left.
      destruct (trim (slice 6 bad)); [done|]. cbn. left.
Qed.

Lemma malformed_line_is_skipped_witness :
  let f := Samples.quiet in
  let st := Samples.reading in
  let values := Samples.garbled in
  let before := [Samples.text "data: {'type':'start'}"] in
  let bad := Samples.text "data: {'type':" in
  let after := [Samples.text "data: "; Samples.text "data: {'type':'end'}"] in
  never_cancels f ∧ at_ st = AwaitRead ∧ aborted st = false
  ∧ (LF ∉ buffer st)
  ∧ buffer st ++ fst (TextDecoder.decode (decoder st) (concat values))
    = with_line_feeds (before ++ bad :: after) ++ []
  ∧ Forall (fun l => LF ∉ l) (before ++ bad :: after)
  ∧ (LF ∉ @nil N)
  ∧ startsWith (js "data: ") bad = true
  ∧ Json.parse (slice 6 bad) = None
  ∧ (let st' := fst (fetchSSE (Some f) st (Chunk <$> values)) in
     let out := snd (fetchSSE (Some f) st (Chunk <$> values)) in
     decode_line bad = None
     ∧ events out = omap decode_line before ++ omap decode_line after
     ∧ (∀ l e, l ∈ after → decode_line l = Some e → e ∈ events out)
     ∧ (bad ∈ logged out ↔ trim (slice 6 bad) ≠ [])
     ∧ at_ st' = AwaitRead
     ∧ buffer st' = []).
Proof.
  intros f st values before bad after.
  assert (H1 : never_cancels f) by (intros ? ?; reflexivity).
  assert (H2 : at_ st = AwaitRead) by reflexivity.
  assert (H3 : aborted st = false) by reflexivity.
  assert (H4 : LF ∉ buffer st) by apply not_elem_of_nil.
  assert (H5 : buffer st ++ fst (TextDecoder.decode (decoder st) (concat values))
               = with_line_feeds (before ++ bad :: after) ++ [])
    by (vm_compute; reflexivity).
  assert (H6 : Forall (fun l => LF ∉ l) (before ++ bad :: after))
    by (compute_done).
  assert (H7 : LF ∉ @nil N) by apply not_elem_of_nil.
  assert (H8 : startsWith (js "data: ") bad = true) by (vm_compute; reflexivity).
  assert (H9 : Json.parse (slice 6 bad) = None) by (vm_compute; reflexivity).
  do 9 (split; [assumption|]).
  exact (malformed_line_is_skipped f st values before after bad []
           H1 H2 H3 H4 H5 H6 H7 H8 H9).
Defined.

(** C4 as it is written fails on a line that is [data: ] and nothing
    more: its payload is not JSON, no event is delivered for it, the
    stream goes on, but nothing is logged. *)
Lemma blank_payload_is_not_logged :
  let bad := Samples.text "data: " in
  let out := snd (fetchSSE (Some Samples.quiet) Samples.reading
                    (Chunk <$> Samples.garbled)) in
  bad ∈ [Samples.text "data: {'type':'start'}";
         Samples.text "data: {'type':";
         bad;
         Samples.text "data: {'type':'end'}"]
  ∧ fst (TextDecoder.decode TextDecoder.create (concat Samples.garbled))
    = with_line_feeds [Samples.text "data: {'type':'start'}";
                       Samples.text "data: {'type':";
                       bad;
                       Samples.text "data: {'type':'end'}"]
  ∧ startsWith (js "data: ") bad = true
  ∧ Json.parse (slice 6 bad) = None
  ∧ (bad ∉ logged out)
  ∧ logged out = [Samples.text "data: {'type':"].
Proof.
  intros bad out.
  assert (Hlog : logged out = [Samples.text "data: {'type':"])
    by (vm_compute; reflexivity).
  split; [compute_done|].
  split; [vm_compute; reflexivity|].
  split; [vm_compute; reflexivity|].
  split; [vm_compute; reflexivity|].
  split; [|exact Hlog].
  rewrite Hlog. compute_done.
Qed.

End Reader.

(** ** Cancelling a stream *)

Section Cancel.
Import JS Protocol Api.

Lemma run_finished onEvent st inputs how :
  at_ st = Finished how → fetchSSE onEvent st inputs = (st, []).
Proof.
  intros Hat. induction inputs as [|i inputs IH]; simpl; [done|].
  unfold step. rewrite Hat, IH. done.
Qed.

(** The [catch] of [fetchSSE] on the [AbortError]: no log, no event. *)
Lemma catch_AbortError onEvent st :
  catch onEvent st AbortError = (set_phase (Finished Fulfilled) st, []).
Proof. reflexivity. Qed.

(** A call of the callback that cancels aborts the signal, and the
    signal stays aborted. *)
Lemma process_line_signal (f : callback) st line :
  aborted (fst (process_line (Some f) st line))
  = aborted st
    || match decode_line line with
       | Some e => cancels (f (delivered st) e)
       | None => false
       end.
Proof.
  unfold process_line, decode_line.
  destruct (startsWith _ line); cbn [andb fst]; [|by rewrite orb_false_r].
  destruct (truthy _); cbn [fst]; [|by rewrite orb_false_r].
  destruct (Json.parse _) as [event|]; cbn; [|by rewrite orb_false_r].
  done.
Qed.

Lemma process_lines_cons onEvent st l lines :
  fst (process_lines onEvent st (l :: lines))
  = fst (process_lines onEvent (fst (process_line onEvent st l)) lines).
Proof.
  cbn [process_lines]. destruct (process_line onEvent st l) as [st1 out1].
  cbn [fst]. by destruct (process_lines onEvent st1 lines).
Qed.

Lemma process_lines_stay_aborted (f : callback) st lines :
  aborted st = true → aborted (fst (process_lines (Some f) st lines)) = true.
Proof.
  revert st. induction lines as [|l lines IH]; intros st Hab; [done|].
  rewrite process_lines_cons. apply IH.
  rewrite process_line_signal, Hab. done.
Qed.

Lemma process_lines_cancelled (f : callback) st lines i e :
  omap decode_line lines !! i = Some e →
  cancels (f (delivered st ++ take i (omap decode_line lines)) e) = true →
  aborted (fst (process_lines (Some f) st lines)) = true.
Proof.
  revert st i. induction lines as [|l lines IH]; intros st i; [done|].
  rewrite process_lines_cons. cbn [omap list_omap].
  pose proof (process_line_signal f st l) as H1.
  destruct (process_line_events f st l) as (_ & Hd & _).
  destruct (decode_line l) as [e0|]; cbn [option_list] in *.
  - destruct i as [|i]; cbn [lookup list_lookup take].
    + intros [= ->]. rewrite app_nil_r. intros Hc.
      apply process_lines_stay_aborted. rewrite H1, Hc. apply orb_true_r.
    + intros Hi Hc. apply (IH _ i Hi). rewrite Hd, <- app_assoc. exact Hc.
  - intros Hi Hc. apply (IH _ i Hi). rewrite Hd, app_nil_r. exact Hc.
Qed.

(** C3, as the code has it.  When [cancel] is called while the stream
    is suspended at [fetch] or at a read, which is when the stop
    button and the unmount cleanup run, the signal is aborted, the
    function ends without an exception, and the callback is not called
    again, not even with an error event: nothing at all is done for the
    rest of the stream.  When the callback itself calls [cancel], the
    line loop goes on: the callback is given the event of every
    complete line of the chunk at hand, those after the cancelling one
    included, and no other event; the signal is aborted, the read that
    follows is rejected, no error event is made of it, and the stream
    ends in the same way, with nothing done after that chunk. *)
Theorem cancel_ends_the_stream
    (onEvent : option callback) (st : state) (after : list input) :
  (* cancel is called while the stream is suspended *)
  (let st' := fst (fetchSSE onEvent st (Cancel :: after)) in
   snd (fetchSSE onEvent st (Cancel :: after)) = []
   ∧ delivered st' = delivered st
   ∧ at_ st' = match at_ st with
               | Finished how => Finished how
               | _ => Finished Fulfilled
               end
   ∧ aborted st' = match at_ st with
                   | Finished _ => aborted st
                   | _ => true
                   end)
  (* a chunk is processed to its end; if the signal is aborted by then,
     the stream ends there *)
  ∧ (∀ value : list byte,
       at_ st = AwaitRead →
       let st1 := fst (step onEvent st (Chunk value)) in
       snd (step onEvent st (Chunk value))
         = snd (process_chunk onEvent st value)
       ∧ delivered st1 = delivered (fst (process_chunk onEvent st value))
       ∧ (aborted st1 = true →
          at_ st1 = Finished Fulfilled
          ∧ fetchSSE onEvent st1 after = (st1, [])))
  (* the callback is given the event of every complete line of the
     chunk, whether or not it cancels on the way *)
  ∧ (∀ (f : callback) (value : list byte),
       onEvent = Some f → at_ st = AwaitRead →
       let st1 := fst (step onEvent st (Chunk value)) in
       ∃ (lines : list (list N)) (rest : list N),
         buffer st ++ fst (TextDecoder.decode (decoder st) value)
           = with_line_feeds lines ++ rest
         ∧ Forall (fun l => LF ∉ l) lines
         ∧ (LF ∉ rest)
         ∧ events (snd (step onEvent st (Chunk value))) = omap decode_line lines
         ∧ delivered st1 = delivered st ++ omap decode_line lines
         (* a call that cancels aborts the signal, and the stream ends
            with the chunk *)
         ∧ (∀ i e, omap decode_line lines !! i = Some e →
              cancels (f (delivered st ++ take i (omap decode_line lines)) e)
                = true →
              aborted st1 = true
              ∧ at_ st1 = Finished Fulfilled
              ∧ fetchSSE onEvent st1 after = (st1, []))).
Proof.
  split; [|split].
  - cbn [fetchSSE]. unfold step.
    destruct (at_ st) as [| |how] eqn:Hat.
    + rewrite catch_AbortError.
      rewrite (run_finished _ _ after Fulfilled) by done. done.
    + rewrite catch_AbortError.
      rewrite (run_finished _ _ after Fulfilled) by done. done.
    + rewrite (run_finished _ _ after how) by done. done.
  - intros value Hat. unfold step. rewrite Hat.
    destruct (process_chunk onEvent st value) as [st1 out1].
    destruct (aborted st1) eqn:Hab.
    + rewrite catch_AbortError. cbn [fst snd]. rewrite app_nil_r.
      split; [done|]. split; [done|]. intros _. split; [done|].
      apply (run_finished _ _ after Fulfilled). done.
    + cbn [fst snd]. split; [done|]. split; [done|]. congruence.
  - intros f value -> Hat st1. subst st1. unfold step. rewrite Hat.
    destruct (process_chunk_spec f st value)
      as (lines & rest & Hc & Hl & Hr & ->).
    exists lines, rest.
    destruct (process_lines_events f st lines) as (He & Hd & _).
    pose proof (process_lines_cancelled f st lines) as Hcan.
    destruct (process_lines (Some f) st lines) as [st2 out2]; cbn [fst snd] in *.
    cbn [relay aborted].
    destruct (aborted st2) eqn:Hab.
    + rewrite catch_AbortError. cbn [fst snd]. rewrite app_nil_r.
      cbn [set_phase relay delivered aborted].
      do 5 (split; [done|]). intros i e _ _.
      split; [done|]. split; [done|].
      apply (run_finished _ _ after Fulfilled). done.
    + cbn [fst snd relay delivered aborted]. do 5 (split; [done|]).
      intros i e Hi Hce. specialize (Hcan i e Hi Hce). congruence.
Qed.

Lemma cancel_ends_the_stream_witness :
  let f := Samples.cancel_on_first in
  let st := Samples.reading in
  let after := [Chunk (Samples.line "data: {'type':'end'}"); Done] in
  let st1 := fst (step (Some f) st (Chunk Samples.tool_events)) in
  at_ st = AwaitRead
  ∧ cancels (f (delivered st) Samples.tool_call_event) = true
  ∧ snd (fetchSSE (Some f) st (Cancel :: after)) = []
  ∧ events (snd (step (Some f) st (Chunk Samples.tool_events)))
    = [Samples.tool_call_event; Samples.tool_event]
  ∧ delivered st1 = [Samples.tool_call_event; Samples.tool_event]
  ∧ aborted st1 = true
  ∧ at_ st1 = Finished Fulfilled
  ∧ fetchSSE (Some f) st1 after = (st1, []).
Proof.
  intros f st after st1.
  assert (H1 : at_ st = AwaitRead) by reflexivity.
  assert (H2 : cancels (f (delivered st) Samples.tool_call_event) = true)
    by reflexivity.
  destruct (cancel_ends_the_stream (Some f) st after) as ((Ha & _) & Hb & Hc).
  destruct (Hc f Samples.tool_events eq_refl H1)
    as (lines & rest & Htext & Hl & Hr & He & Hd & Hcan).
  set (known :=
         [ Samples.text "data: {'type':'tool_call','tool_name':'search_companies'}";
           [];
           Samples.text "data: {'type':'tool','tool_name':'search_companies'}";
           [] ]).
  assert (Hk : buffer st ++ fst (TextDecoder.decode (decoder st) Samples.tool_events)
               = with_line_feeds known ++ []) by (vm_compute; reflexivity).
  assert (Hkl : Forall (fun l => LF ∉ l) known) by compute_done.
  rewrite Hk in Htext.
  destruct (lines_unique _ _ _ _ Hkl Hl (not_elem_of_nil LF) Hr Htext)
    as [<- <-].
  assert (Hev : omap decode_line known
                = [Samples.tool_call_event; Samples.tool_event])
    by (vm_compute; reflexivity).
  rewrite Hev in He, Hd, Hcan.
  destruct (Hcan 0%nat _ eq_refl H2) as (H3 & H4 & H5).
  split; [exact H1|]. split; [exact H2|]. split; [exact Ha|].
  split; [exact He|]. split; [exact Hd|]. split; [exact H3|].
  split; [exact H4|exact H5].
Defined.

(** C3 as it is written fails when the callback is the one that calls
    [cancel]: the two events below arrive in one chunk, the callback
    cancels the stream on the first, and is still given the second. *)
Lemma event_delivered_after_cancel :
  let onEvent := Some Samples.cancel_on_first in
  let first_line :=
    Samples.text "data: {'type':'tool_call','tool_name':'search_companies'}" in
  cancels (Samples.cancel_on_first [] Samples.tool_call_event) = true
  ∧ aborted (fst (process_line onEvent Samples.reading first_line)) = true
  ∧ events (snd (fetchSSE onEvent initial
                   [Response true 200 true; Chunk Samples.tool_events]))
    = [Samples.tool_call_event; Samples.tool_event].
Proof. vm_compute. done. Qed.

End Cancel.

(** ** The legacy wrapper *)

Section Wrapper.
Import JS Protocol Api Api.ChatStreamEvent.

Lemma deliver_cons w e es : deliver w (e :: es) = deliver (on_event w e) es.
Proof. reflexivity. Qed.

Lemma since_complete_None es l : since_complete es = (None, l) → l = es.
Proof.
  destruct es as [|e es]; simpl; [by intros [= <-]|].
  destruct (since_complete es) as [[m|] after]; [done|].
  destruct (final_message e); [done|]. by intros [= <-].
Qed.

Lemma default_last_cons {A} (a x : A) (l : list A) :
  default a (last (x :: l)) = default x (last l).
Proof.
  destruct l as [|y l]; [reflexivity|].
  change (last (x :: y :: l)) with (last (y :: l)).
  destruct (last (y :: l)) eqn:H; [reflexivity|].
  by apply last_None in H.
Qed.

(** The variables of the closure after any events. *)
Lemma deliver_finalResponse w es :
  finalResponse (deliver w es) =
  match since_complete es with
  | (Some m, after) => m ++ spaced_chunks after
  | (None, _) => finalResponse w ++ spaced_chunks es
  end.
Proof.
  revert w. induction es as [|e es IH]; intros w.
  - simpl. by rewrite app_nil_r.
  - rewrite deliver_cons, IH. cbn [since_complete].
    destruct (since_complete es) as [[m|] after] eqn:Hs; [done|].
    unfold final_message, on_event, spaced_chunks.
    destruct e as [ty msg q sid tn tu pa]; cbn.
    destruct ty; cbn; try done.
    + destruct (truthy_opt msg) eqn:Hm; cbn; [|done].
      by rewrite <- !app_assoc.
    + destruct (truthy_opt msg) eqn:Hm; cbn; [|done].
      by destruct msg.
Qed.

Lemma deliver_finalSessionId w es :
  finalSessionId (deliver w es)
  = default (finalSessionId w) (last_session_id es).
Proof.
  revert w. induction es as [|e es IH]; intros w; [done|].
  rewrite deliver_cons, IH. unfold last_session_id. cbn [omap list_omap].
  destruct e as [ty msg q sid tn tu pa]; cbn.
  destruct ty; cbn; try done.
  - destruct (truthy_opt msg); done.
  - destruct (truthy_opt sid) eqn:Hsid; cbn; [|done].
    destruct sid as [s|]; [|done]. cbn. by rewrite default_last_cons.
Qed.

Lemma deliver_toolsUsed w es :
  toolsUsed (deliver w es) = default (toolsUsed w) (last_tools_used es).
Proof.
  revert w. induction es as [|e es IH]; intros w; [done|].
  rewrite deliver_cons, IH. unfold last_tools_used. cbn [omap list_omap].
  destruct e as [ty msg q sid tn tu pa]; cbn.
  destruct ty; cbn; try done.
  - destruct (truthy_opt msg); done.
  - destruct tu as [u|]; [|done]. cbn. by rewrite default_last_cons.
Qed.

Lemma deliver_settled w es : result w ≠ Pending → result (deliver w es) = result w.
Proof.
  revert w. induction es as [|e es IH]; intros w Hw; [done|].
  rewrite deliver_cons, IH.
  - unfold on_event. destruct (type e); cbn; try done.
    + by destruct (truthy_opt _).
    + by destruct (result w).
    + by destruct (result w).
  - unfold on_event. destruct (type e); cbn; try done.
    + by destruct (truthy_opt _).
    + by destruct (result w).
    + by destruct (result w).
Qed.

Lemma deliver_app w es1 es2 : deliver w (es1 ++ es2) = deliver (deliver w es1) es2.
Proof. apply foldl_app. Qed.

Lemma until_settled_spec es :
  match until_settled es with
  | (before, None) => es = before ∧ Forall (fun e => settles e = false) before
  | (before, Some e) =>
      ∃ rest, es = before ++ e :: rest
              ∧ Forall (fun e => settles e = false) before
              ∧ settles e = true
  end.
Proof.
  induction es as [|e es IH]; simpl; [done|].
  destruct (settles e) eqn:He.
  - exists es. done.
  - destruct (until_settled es) as [before [s|]].
    + destruct IH as (rest & -> & Hb & Hs). exists rest.
      repeat split; try done. by constructor.
    + destruct IH as [-> Hb]. split; [done|]. by constructor.
Qed.

Lemma deliver_pending w es :
  Forall (fun e => settles e = false) es →
  result (deliver w es) = result w.
Proof.
  revert w. induction es as [|e es IH]; intros w Hes; [done|].
  inversion Hes as [|? ? He Hes']; subst.
  rewrite deliver_cons, IH by done.
  unfold settles in He. unfold on_event.
  destruct (type e); cbn; try done.
  by destruct (truthy_opt _).
Qed.

(** C7, as the code has it.  The promise of the wrapper settles at the
    first event that is [end] or [error], and stays as it is then.  At
    [end] it resolves with [success] true; the response is the trimmed
    text made of the message of the last [complete] event before it
    that has a non-empty message, if there is one, followed by the
    non-empty messages of the [content] events after that one (of all
    of them when there is none), a space after each.  [session_id] is
    that of the last [complete] event that has a non-empty one, else
    the one the wrapper was called with, else empty; [tools_used] is
    the list of the last [complete] event that has one, else empty.  At
    [error] it rejects with the message of the event, or with the
    words Chat failed. *)
Theorem sendChatMessage_settles (sessionId : option (list N)) (es : list t) :
  result (deliver (sendChatMessage sessionId) es) =
  match until_settled es with
  | (_, None) => Pending
  | (before, Some e) =>
      match type e with
      | error =>
          RejectedWith
            (new_Error (or_else (message e) (js "Chat failed")))
      | _ =>
          Resolved
            {| Types.success := true;
               Types.data :=
                 Some {| Api.response := response_text before;
                         Api.session_id :=
                           default (or_else sessionId [])
                                   (last_session_id before);
                         Api.tools_used :=
                           default [] (last_tools_used before) |};
               Types.error := None; Types.message := None |}
      end
  end.
Proof.
  pose proof (until_settled_spec es) as H.
  destruct (until_settled es) as [before [e|]].
  - destruct H as (rest & -> & Hb & He).
    rewrite deliver_app, deliver_cons.
    pose proof (deliver_pending (sendChatMessage sessionId) before Hb) as Hp.
    pose proof (deliver_finalResponse (sendChatMessage sessionId) before) as Hr.
    pose proof (deliver_finalSessionId (sendChatMessage sessionId) before) as Hi.
    pose proof (deliver_toolsUsed (sendChatMessage sessionId) before) as Ht.
    set (w := deliver (sendChatMessage sessionId) before) in *.
    unfold settles in He.
    rewrite deliver_settled.
    + unfold on_event. destruct (type e); try done.
      * cbn. rewrite Hp. cbn. rewrite Hr, Hi, Ht. unfold response_text.
        destruct (since_complete before) as [[m|] after] eqn:Hs; cbn; [done|].
        by rewrite (since_complete_None _ _ Hs).
      * cbn. rewrite Hp. done.
    + unfold on_event. destruct (type e); try done; cbn; by rewrite Hp.
  - destruct H as [-> Hb]. by rewrite deliver_pending.
Qed.

(** C7 as it is written fails on a stream of two chunks without a
    [complete] event: the response is not the chunks one after the
    other, a space stands between them. *)
Lemma chunks_are_joined_with_spaces :
  result (deliver (sendChatMessage None) Samples.two_chunks)
  = Resolved
      {| Types.success := true;
         Types.data := Some {| Api.response := js "a b";
                               Api.session_id := [];
                               Api.tools_used := [] |};
         Types.error := None; Types.message := None |}
  ∧ trim (joined_chunks Samples.two_chunks) = js "ab"
  ∧ js "a b" ≠ js "ab".
Proof. vm_compute. done. Qed.

(** A whole turn: the message of [complete] replaces the chunks and is
    trimmed, and the [error] that comes after [end] changes nothing. *)
Example whole_turn_resolves :
  result (deliver (sendChatMessage None) Samples.whole_turn)
  = Resolved
      {| Types.success := true;
         Types.data :=
           Some {| Api.response := js "Stripe is a payments company.";
                   Api.session_id := js "s-1";
                   Api.tools_used := [js "search_companies"] |};
         Types.error := None; Types.message := None |}.
Proof. vm_compute. done. Qed.

End Wrapper.

(** ** Company search *)

Section Search.
Import JS Api.

Lemma lookup_set_str_ne (b : bool) key o (params : gmap string param) k :
  k ≠ key →
  (if b then set_str key o params else params) !! k = params !! k.
Proof.
  intros Hne. destruct b; [|done]. unfold set_str.
  destruct o; [|done]. by rewrite lookup_insert_ne.
Qed.

Lemma lookup_set_num_ne (b : bool) key o (params : gmap string param) k :
  k ≠ key →
  (if b then set_num key o params else params) !! k = params !! k.
Proof.
  intros Hne. destruct b; [|done]. unfold set_num.
  destruct o; [|done]. by rewrite lookup_insert_ne.
Qed.

Lemma lookup_set_str_eq (b : bool) key o (params : gmap string param) :
  params !! key = None →
  (if b then set_str key o params else params) !! key
  = if b then PStr <$> o else None.
Proof.
  intros Hnone. destruct b; [|done]. unfold set_str.
  destruct o; [|done]. by rewrite lookup_insert_eq.
Qed.

Lemma lookup_set_num_eq (b : bool) key o (params : gmap string param) :
  params !! key = None →
  (if b then set_num key o params else params) !! key
  = if b then PNum <$> o else None.
Proof.
  intros Hnone. destruct b; [|done]. unfold set_num.
  destruct o; [|done]. by rewrite lookup_insert_eq.
Qed.

Lemma dom_set_str (b : bool) key o (params : gmap string param) :
  dom (if b then set_str key o params else params) ⊆ {[key]} ∪ dom params.
Proof.
  destruct b; [|set_solver]. unfold set_str.
  destruct o; [|set_solver]. rewrite dom_insert. set_solver.
Qed.

Lemma dom_set_num (b : bool) key o (params : gmap string param) :
  dom (if b then set_num key o params else params) ⊆ {[key]} ∪ dom params.
Proof.
  destruct b; [|set_solver]. unfold set_num.
  destruct o; [|set_solver]. rewrite dom_insert. set_solver.
Qed.

Lemma given_str (o : option (list N)) :
  (if truthy_opt o then PStr <$> o else None)
  = match o with
    | Some s => if decide (s ≠ []) then Some (PStr s) else None
    | None => None
    end.
Proof. destruct o as [[|c s]|]; done. Qed.

Lemma given_num (o : option Z) :
  (if truthy_num o then PNum <$> o else None)
  = match o with
    | Some y => if decide (y ≠ 0%Z) then Some (PNum y) else None
    | None => None
    end.
Proof.
  destruct o as [y|]; [|done]. simpl.
  destruct (Z.eqb_spec y 0); case_decide; done.
Qed.

Lemma given_industry (o : option (list N)) :
  (if truthy_opt o && negb (eqb (toLowerCase (default [] o)) (js "all"))
   then PStr <$> o else None)
  = match o with
    | Some i =>
        if decide (i ≠ [] ∧ toLowerCase i ≠ js "all")
        then Some (PStr i) else None
    | None => None
    end.
Proof.
  destruct o as [i|]; [|done]. unfold eqb.
  cbn [truthy_opt default fmap option_fmap option_map].
  destruct (decide (i ≠ [] ∧ toLowerCase i ≠ js "all")) as [[Hi Hall]|Hno].
  - rewrite bool_decide_eq_false_2 by done. by destruct i.
  - destruct i as [|c i]; [done|]. cbn [truthy andb].
    rewrite bool_decide_eq_true_2; [done|].
    destruct (decide (toLowerCase (c :: i) = js "all")); [done|].
    exfalso. apply Hno. done.
Qed.

(** C9, as the code has it.  The request goes to [/companies] and
    always carries [query] and [limit], 50 when no limit is given.  Of
    the filters, [industry] is sent exactly when it is given, is not
    empty and is not the word all in any mix of cases; [location] and
    [stage] exactly when given and not empty; [min_year] exactly when
    given and not zero.  Nothing else is sent. *)
Theorem searchCompanies_params
    (query : list N) (limit : option Z)
    (filters : option CompanySearchFilters) :
  let r := searchCompanies query limit filters in
  get_url r = js "/companies"
  ∧ get_params r !! "query" = Some (PStr query)
  ∧ get_params r !! "limit" = Some (PNum (default 50%Z limit))
  ∧ get_params r !! "industry"
    = match opt_chain filters industry with
      | Some i =>
          if decide (i ≠ [] ∧ toLowerCase i ≠ js "all")
          then Some (PStr i) else None
      | None => None
      end
  ∧ get_params r !! "location"
    = match opt_chain filters location with
      | Some l => if decide (l ≠ []) then Some (PStr l) else None
      | None => None
      end
  ∧ get_params r !! "min_year"
    = match opt_chain filters min_year with
      | Some y => if decide (y ≠ 0%Z) then Some (PNum y) else None
      | None => None
      end
  ∧ get_params r !! "stage"
    = match opt_chain filters stage with
      | Some s => if decide (s ≠ []) then Some (PStr s) else None
      | None => None
      end
  ∧ dom (get_params r)
    ⊆ {["query"; "limit"; "industry"; "location"; "min_year"; "stage"]}.
Proof.
  intros r. subst r. unfold searchCompanies. cbn [get_url get_params].
  set (base := <["limit" := PNum (default 50%Z limit)]>
                 ({["query" := PStr query]} : gmap string param)).
  assert (Hq : base !! "query" = Some (PStr query)) by done.
  assert (Hl : base !! "limit" = Some (PNum (default 50%Z limit))) by done.
  assert (Hn : ∀ k, k ≠ "query" → k ≠ "limit" → base !! k = None).
  { intros k H1 H2. subst base. by rewrite lookup_insert_ne, lookup_singleton_ne. }
  assert (Hd : dom base ⊆ {["query"; "limit"]}).
  { subst base. rewrite dom_insert, dom_singleton. set_solver. }
  clearbody base.
  split; [done|].
  split.
  { by rewrite lookup_set_str_ne, lookup_set_num_ne, !lookup_set_str_ne. }
  split.
  { by rewrite lookup_set_str_ne, lookup_set_num_ne, !lookup_set_str_ne. }
  split.
  { rewrite lookup_set_str_ne, lookup_set_num_ne, lookup_set_str_ne by done.
    rewrite lookup_set_str_eq by (by apply Hn). apply given_industry. }
  split.
  { rewrite lookup_set_str_ne, lookup_set_num_ne by done.
    rewrite lookup_set_str_eq by (by rewrite lookup_set_str_ne; [apply Hn|]).
    apply given_str. }
  split.
  { rewrite lookup_set_str_ne by done.
    rewrite lookup_set_num_eq
      by (by rewrite !lookup_set_str_ne; [apply Hn|..]).
    apply given_num. }
  split.
  { rewrite lookup_set_str_eq
      by (by rewrite lookup_set_num_ne, !lookup_set_str_ne; [apply Hn|..]).
    apply given_str. }
  etrans; [apply dom_set_str|].
  apply union_least; [set_solver|].
  etrans; [apply dom_set_num|].
  apply union_least; [set_solver|].
  etrans; [apply dom_set_str|].
  apply union_least; [set_solver|].
  etrans; [apply dom_set_str|].
  apply union_least; [set_solver|].
  set_solver.
Qed.

(** C9 as it is written fails for a filter that is given but falsy: a
    [min_year] of zero is left out of the request. *)
Lemma zero_min_year_is_left_out :
  let filters :=
    Some {| industry := None; location := None;
            min_year := Some 0%Z; stage := None |} in
  opt_chain filters min_year = Some 0%Z
  ∧ get_params (searchCompanies (js "ai") None filters) !! "min_year" = None
  ∧ dom (get_params (searchCompanies (js "ai") None filters))
    = {["query"; "limit"]}.
Proof.
  cbv zeta. split; [done|]. split; [done|].
  unfold searchCompanies. cbn.
  rewrite dom_insert_L, dom_singleton_L. set_solver.
Qed.

(** A search with every filter set. *)
Example search_with_filters :
  let filters :=
    Some {| industry := Some (js "FinTech"); location := Some (js "Boston");
            min_year := Some 2015%Z; stage := Some (js "seed") |} in
  let params := get_params (searchCompanies (js "pay") (Some 100%Z) filters) in
  params !! "limit" = Some (PNum 100)
  ∧ params !! "industry" = Some (PStr (js "FinTech"))
  ∧ params !! "min_year" = Some (PNum 2015)
  ∧ get_params (searchCompanies (js "pay") None
                  (Some {| industry := Some (js "ALL"); location := None;
                           min_year := None; stage := None |}))
    !! "industry" = None.
Proof. cbv zeta. repeat split; done. Qed.

End Search.

(** ** The address of a report *)

Section Download.
Import JS Api.

(** C8.  The address of a report is the base address of the API,
    [/api/v1/download-report/] and the file name, one after the other.
    It is a function of the file name and of the base address the
    bundle was built with: the same name gives the same address, and
    two names give two addresses. *)
Theorem downloadReport_is_determined_by_the_filename
    (VITE_API_URL : option (list N)) (filename other : list N) :
  downloadReport VITE_API_URL filename
  = API_BASE_URL VITE_API_URL ++ js "/api/v1/download-report/" ++ filename
  ∧ (filename = other
     ↔ downloadReport VITE_API_URL filename
       = downloadReport VITE_API_URL other)
  ∧ API_BASE_URL VITE_API_URL
    = match VITE_API_URL with
      | Some (c :: url) => c :: url
      | _ => js "http://localhost:8000"
      end.
Proof.
  split; [reflexivity|]. split.
  - split; [by intros ->|]. unfold downloadReport.
    intros H. by do 2 apply app_inv_head in H.
  - by destruct VITE_API_URL as [[|c url]|].
Qed.

Example download_address :
  downloadReport None (js "fintech-analysis.pdf")
  = js "http://localhost:8000/api/v1/download-report/fintech-analysis.pdf".
Proof. reflexivity. Qed.

End Download.

(** ** The Reports page *)

Section Page.
Import JS Reports.

Lemma trimStart_blank (s : list N) :
  Forall (fun c => is_space c = true) s → trimStart s = [].
Proof. induction 1 as [|c s Hc _ IH]; simpl; [done|]. by rewrite Hc. Qed.

Lemma trim_blank (s : list N) :
  Forall (fun c => is_space c = true) s → trim s = [].
Proof. intros H. unfold trim. by rewrite (trimStart_blank s H). Qed.

(** C6.  When the topic is empty or holds nothing but white space,
    [handleGenerate] sets the error message and returns: no request is
    sent, so no task is created, no function is left waiting, no
    interval is registered and the page does not start loading. *)
Theorem blank_topic_is_rejected (st : state) :
  Forall (fun c => is_space c = true) (topic st) →
  let st' := handleGenerate st in
  error st' = Some (js "Please enter a topic")
  ∧ calls st' = calls st
  ∧ awaiting st' = awaiting st
  ∧ intervals st' = intervals st
  ∧ pollingIntervalRef st' = pollingIntervalRef st
  ∧ isGenerating st' = isGenerating st
  ∧ pollingStatus st' = pollingStatus st
  ∧ step st ClickGenerate = if mounted st then st' else st.
Proof.
  intros Hblank st'. subst st'. unfold step, handleGenerate.
  rewrite (trim_blank _ Hblank). cbn. done.
Qed.

(** Clearing the current interval touches the intervals only. *)
Lemma clear_current_keeps st :
  pollingIntervalRef (clear_current st) = pollingIntervalRef st
  ∧ next_handle (clear_current st) = next_handle st
  ∧ isGenerating (clear_current st) = isGenerating st
  ∧ error (clear_current st) = error st
  ∧ generatedReports (clear_current st) = generatedReports st
  ∧ awaiting (clear_current st) = awaiting st
  ∧ calls (clear_current st) = calls st
  ∧ mounted (clear_current st) = mounted st.
Proof.
  unfold clear_current.
  destruct (pollingIntervalRef st) eqn:H; cbn; rewrite ?H; done.
Qed.




Lemma clear_current_empty st : tidy st → intervals (clear_current st) = ∅.
Proof.
  intros Ht. unfold clear_current. apply map_eq. intros id.
  rewrite lookup_empty.
  destruct (pollingIntervalRef st) as [cur|] eqn:Href; cbn.
  - destruct (decide (id = cur)) as [->|Hne].
    + by rewrite lookup_delete_eq.
    + rewrite lookup_delete_ne by done.
      destruct (intervals st !! id) eqn:Hid; [|done].
      specialize (Ht id (mk_is_Some _ _ Hid)). congruence.
  - destruct (intervals st !! id) eqn:Hid; [|done].
    specialize (Ht id (mk_is_Some _ _ Hid)). congruence.
Qed.

(** A step that keeps the ref and either keeps the intervals or clears
    the current one. *)
Lemma tidy_weaken st st' :
  tidy st → pollingIntervalRef st' = pollingIntervalRef st →
  intervals st' = intervals st ∨ intervals st' = intervals (clear_current st) →
  tidy st'.
Proof.
  intros Ht Href [Hi|Hi] id; rewrite Hi, Href.
  - apply Ht.
  - rewrite (clear_current_empty st Ht), lookup_empty. by intros [? ?].
Qed.

Lemma tidy_pollStatus st c task : tidy st → tidy (pollStatus st c task).
Proof.
  intros Ht id. unfold pollStatus. cbn.
  rewrite (clear_current_empty st Ht).
  destruct (decide (id = next_handle (clear_current st))) as [->|Hne]; [done|].
  rewrite lookup_insert_ne, lookup_empty by done. by intros [? ?].
Qed.

Lemma tidy_tick_resume st c o : tidy st → tidy (tick_resume st c o).
Proof.
  intros Ht. unfold tick_resume. destruct o as [response|]; [|done].
  destruct (Types.data response) as [task|]; [|done].
  destruct (clear_current_keeps st) as (Href & _).
  destruct (eqb _ (js "completed")).
  { apply (tidy_weaken st); [done| |right]; unfold on_completed;
      destruct (Api.ReportTaskStatus.result task) as [r|];
      try destruct (truthy (Api.report_filename r)); done. }
  destruct (eqb _ (js "failed")).
  { by apply (tidy_weaken st); [| |right]. }
  by apply (tidy_weaken st); [| |left].
Qed.

Lemma tidy_step st a : tidy st → tidy (step st a).
Proof.
  intros Ht. destruct a as [s|s|s| |id|n o|n o|]; cbn [step].
  - destruct (mounted st); [|done]. by apply (tidy_weaken st); [| |left].
  - destruct (mounted st); [|done]. by apply (tidy_weaken st); [| |left].
  - destruct (mounted st); [|done]. by apply (tidy_weaken st); [| |left].
  - destruct (mounted st); [|done]. apply (tidy_weaken st); [done| |left];
      unfold handleGenerate; by destruct (negb _).
  - destruct (intervals st !! id); [|done]. by apply (tidy_weaken st); [| |left].
  - destruct (awaiting st !! n) as [[c|c t]|]; [|done..].
    assert (Hr : tidy (resumed n st)) by (by apply (tidy_weaken st); [| |left]).
    unfold handleGenerate_resume.
    destruct o as [response|detail].
    + destruct (_ && _); [by apply tidy_pollStatus|].
      by apply (tidy_weaken (resumed n st)); [| |left].
    + by apply (tidy_weaken (resumed n st)); [| |left].
  - destruct (awaiting st !! n) as [[c|c t]|]; [done| |done].
    apply tidy_tick_resume. by apply (tidy_weaken st); [| |left].
  - destruct (mounted st); [|done].
    destruct (clear_current_keeps st) as (Href & _).
    by apply (tidy_weaken st); [| |right].
Qed.

Lemma tidy_run st actions : tidy st → tidy (run st actions).
Proof.
  revert st. induction actions as [|a actions IH]; intros st Ht; [done|].
  apply IH. by apply tidy_step.
Qed.

(** At every moment the window holds at most one interval of the page,
    the one the ref names. *)
Lemma at_most_one_interval (actions : list action) :
  let st := run initial actions in
  (size (intervals st) ≤ 1)%nat
  ∧ ∀ id, is_Some (intervals st !! id) → pollingIntervalRef st = Some id.
Proof.
  intros st.
  assert (Ht : tidy st).
  { apply tidy_run. intros id. cbn. rewrite lookup_empty. by intros [? ?]. }
  split; [|exact Ht].
  destruct (pollingIntervalRef st) as [cur|] eqn:Href.
  - destruct (intervals st !! cur) as [iv|] eqn:Hcur.
    + assert (intervals st = {[cur := iv]}) as ->.
      { apply map_eq. intros id. destruct (decide (id = cur)) as [->|Hne].
        - by rewrite lookup_singleton_eq.
        - rewrite lookup_singleton_ne by done.
          destruct (intervals st !! id) eqn:Hid; [|done].
          specialize (Ht id (mk_is_Some _ _ Hid)). congruence. }
      by rewrite map_size_singleton.
    + assert (intervals st = ∅) as ->.
      { apply map_eq. intros id. rewrite lookup_empty.
        destruct (intervals st !! id) eqn:Hid; [|done].
        specialize (Ht id (mk_is_Some _ _ Hid)). congruence. }
      rewrite map_size_empty. lia.
  - assert (intervals st = ∅) as ->.
    { apply map_eq. intros id. rewrite lookup_empty.
      destruct (intervals st !! id) eqn:Hid; [|done].
      specialize (Ht id (mk_is_Some _ _ Hid)). congruence. }
    rewrite map_size_empty. lia.
Qed.


Lemma blank_topic_is_rejected_witness :
  let st := setTopic (js "   ") initial in
  Forall (fun c => is_space c = true) (topic st)
  ∧ (let st' := handleGenerate st in
     error st' = Some (js "Please enter a topic")
     ∧ calls st' = calls st
     ∧ awaiting st' = awaiting st
     ∧ intervals st' = intervals st
     ∧ pollingIntervalRef st' = pollingIntervalRef st
     ∧ isGenerating st' = isGenerating st
     ∧ pollingStatus st' = pollingStatus st
     ∧ step st ClickGenerate = if mounted st then st' else st).
Proof.
  intros st.
  assert (H : Forall (fun c => is_space c = true) (topic st)) by compute_done.
  split; [exact H|].
  exact (blank_topic_is_rejected st H).
Defined.

(** A topic that is not blank does send the request. *)
Example topic_is_submitted :
  calls (run initial [Type_ (js " Fintech "); ClickGenerate])
  = [Api.generateReportBackground
       {| Types.topic := js "Fintech";
          Types.report_type := js "comprehensive";
          Types.format := js "pdf";
          Types.use_langgraph := Some true |}].
Proof. vm_compute. done. Qed.

(** The scenario of the specification: a first poll says processing, a
    later one says completed, and the report is listed. *)
Example report_is_surfaced :
  let st :=
    run initial
      (Samples.submitted ++
       [ Timer 1;
         StatusSettles 0
           (Samples.answer "processing"
              (Some (js "Generating sections...")) None None) ]) in
  let st' :=
    run st
      [ Timer 1;
        StatusSettles 0
          (Samples.answer "completed" None (Some Samples.fintech_report)
             None) ] in
  isGenerating st = true
  ∧ pollingStatus st = js "Generating sections..."
  ∧ size (intervals st) = 1%nat
  ∧ isGenerating st' = false
  ∧ intervals st' = ∅
  ∧ GeneratedReport.filename <$> generatedReports st'
    = [js "fintech-analysis.pdf"].
Proof. vm_compute. done. Qed.




(** C10, where the code falls short of it.  The user asks for a report
    and leaves the page before the server has answered: the cleanup
    runs while no interval is registered, the answer then makes
    [pollStatus] register one, and nothing is left to clear it.  The
    page is unmounted and its interval goes on asking for the status. *)
Theorem interval_outlives_the_page :
  let st := run initial Samples.left_early in
  mounted st = false
  ∧ intervals st
    = {[ 1%positive := {| delay := 10000; taskId := js "t-123";
                          env := Samples.seen |} ]}
  ∧ calls (run st [Timer 1; StatusSettles 0 Samples.unknown_task; Timer 1])
    = calls st ++ [ Api.getReportTaskStatus (js "t-123");
                    Api.getReportTaskStatus (js "t-123") ]
  ∧ intervals (run st [Timer 1; StatusSettles 0 Samples.unknown_task;
                       Timer 1; Unmount])
    = intervals st.
Proof. vm_compute. done. Qed.

End Page.

(** ** Failures of the stream *)

Section Failures.
Import JS Protocol Api.

Lemma fetchSSE_app onEvent st i1 i2 :
  fetchSSE onEvent st (i1 ++ i2) =
  let '(st1, out1) := fetchSSE onEvent st i1 in
  let '(st2, out2) := fetchSSE onEvent st1 i2 in
  (st2, out1 ++ out2).
Proof.
  revert st. induction i1 as [|i i1 IH]; intros st; simpl.
  - by destruct (fetchSSE onEvent st i2).
  - destruct (step onEvent st i) as [st1 out1].
    rewrite IH. destruct (fetchSSE onEvent st1 i1) as [st2 out2].
    destruct (fetchSSE onEvent st2 i2) as [st3 out3].
    by rewrite app_assoc.
Qed.

(** The [catch] of [fetchSSE] on anything but an [AbortError]. *)
Lemma catch_reports (f : callback) (st : state) (e : Error) :
  name e ≠ js "AbortError" →
  catch (Some f) st e =
  ({| at_ := Finished (if throws (f (delivered st) (error_event e))
                       then Rejected else Fulfilled);
      decoder := decoder st; buffer := buffer st;
      aborted := aborted st || cancels (f (delivered st) (error_event e));
      delivered := delivered st ++ [error_event e] |},
   [LogStreamError e; OnEvent (error_event e)]).
Proof.
  intros Hne. unfold catch, eqb.
  rewrite bool_decide_eq_false_2 by done. reflexivity.
Qed.

Lemma catch_finishes onEvent st e :
  ∃ how, at_ (fst (catch onEvent st e)) = Finished how.
Proof.
  unfold catch. destruct (negb _).
  - destruct onEvent as [f|]; cbn.
    + destruct (throws _); eauto.
    + eauto.
  - cbn. eauto.
Qed.

(** X1.  A response that is not ok ends the stream before anything is
    read.  The failure is logged and the callback is given one event of
    type error, whose message is the words Error: HTTP error! status:
    followed by the status in decimal; nothing else is done, whatever
    comes later.  The function ends without an exception unless the
    callback throws on that event. *)
Theorem http_error_is_reported
    (f : callback) (status : N) (has_body : bool) (after : list input) :
  let e := new_Error (js "HTTP error! status: " ++ of_N status) in
  let run := fetchSSE (Some f) initial (Response false status has_body :: after) in
  snd run = [LogStreamError e; OnEvent (error_event e)]
  ∧ error_event e
    = Json.JObject
        [(js "type", Json.JString (js "error"));
         (js "message",
          Json.JString (js "Error: HTTP error! status: " ++ of_N status))]
  ∧ delivered (fst run) = [error_event e]
  ∧ at_ (fst run)
    = Finished (if throws (f [] (error_event e)) then Rejected else Fulfilled).
Proof.
  intros e run. subst run. cbn [fetchSSE]. unfold step. cbn [at_ initial negb].
  rewrite catch_reports by done.
  destruct (catch_finishes (Some f) initial e) as [how Hhow].
  rewrite catch_reports in Hhow by done. cbn [fst] in Hhow.
  rewrite (run_finished _ _ after how Hhow). cbn [fst snd].
  rewrite app_nil_r. repeat split; try done.
Qed.

(** X2.  When [fetch] or a read rejects, the stream ends at once.  An
    exception named AbortError is swallowed: nothing is logged and the
    callback is not called, whether or not anyone has cancelled.  Any
    other exception is logged and given to the callback as one event of
    type error whose message is [String(error)]; nothing follows it. *)
Theorem failure_ends_the_stream
    (f : callback) (st : state) (i : input) (e : Error) (after : list input) :
  (at_ st = AwaitFetch ∧ i = FetchFails e)
  ∨ (at_ st = AwaitRead ∧ i = ReadFails e) →
  let run := fetchSSE (Some f) st (i :: after) in
  if decide (name e = js "AbortError") then
    snd run = [] ∧ delivered (fst run) = delivered st
    ∧ at_ (fst run) = Finished Fulfilled
  else
    snd run = [LogStreamError e; OnEvent (error_event e)]
    ∧ delivered (fst run) = delivered st ++ [error_event e]
    ∧ Json.get "message" (error_event e) = Some (Json.JString (String_of e))
    ∧ at_ (fst run)
      = Finished (if throws (f (delivered st) (error_event e))
                  then Rejected else Fulfilled).
Proof.
  intros Hi run.
  assert (Hstep : step (Some f) st i = catch (Some f) st e).
  { unfold step. by destruct Hi as [[-> ->]|[-> ->]]. }
  subst run. cbn [fetchSSE]. rewrite Hstep.
  destruct (catch_finishes (Some f) st e) as [how Hhow].
  destruct (catch (Some f) st e) as [st1 out1] eqn:Hc. cbn [fst] in Hhow.
  rewrite (run_finished _ _ after how Hhow). cbn [fst snd].
  rewrite app_nil_r.
  case_decide as Hname.
  - unfold catch, eqb in Hc. rewrite bool_decide_eq_true_2 in Hc by done.
    cbn in Hc. by inversion Hc.
  - rewrite catch_reports in Hc by done. by inversion Hc.
Qed.

Lemma failure_ends_the_stream_witness :
  let f := Samples.quiet in
  let e := Samples.network_down in
  let i := FetchFails e in
  ((at_ initial = AwaitFetch ∧ i = FetchFails e)
   ∨ (at_ initial = AwaitRead ∧ i = ReadFails e))
  ∧ (let run := fetchSSE (Some f) initial [i; Done] in
     if decide (name e = js "AbortError") then
       snd run = [] ∧ delivered (fst run) = delivered initial
       ∧ at_ (fst run) = Finished Fulfilled
     else
       snd run = [LogStreamError e; OnEvent (error_event e)]
       ∧ delivered (fst run) = delivered initial ++ [error_event e]
       ∧ Json.get "message" (error_event e)
         = Some (Json.JString (String_of e))
       ∧ at_ (fst run)
         = Finished (if throws (f (delivered initial) (error_event e))
                     then Rejected else Fulfilled)).
Proof.
  intros f e i.
  assert (H : (at_ initial = AwaitFetch ∧ i = FetchFails e)
              ∨ (at_ initial = AwaitRead ∧ i = ReadFails e))
    by (left; split; reflexivity).
  split; [exact H|].
  exact (failure_ends_the_stream f initial i e [Done] H).
Defined.

End Failures.

Section Callbacks.
Import JS Protocol Api.

(** Without a callback *)
Lemma process_lines_silent st lines :
  events (snd (process_lines None st lines)) = []
  ∧ fst (process_lines None st lines) = st.
Proof.
  induction lines as [|l lines [IH1 IH2]]; simpl; [done|].
  assert (H : ∃ out, process_line None st l = (st, out) ∧ events out = []).
  { unfold process_line.
    destruct (startsWith _ l); [|by eexists].
    destruct (truthy _); [|by eexists].
    destruct (Json.parse _); by eexists. }
  destruct H as (out1 & -> & He1).
  destruct (process_lines None st lines) as [st2 out2]; simpl in *.
  by rewrite events_app, He1, IH1, IH2.
Qed.

Lemma catch_silent st e :
  events (snd (catch None st e)) = []
  ∧ delivered (fst (catch None st e)) = delivered st
  ∧ aborted (fst (catch None st e)) = aborted st
  ∧ at_ (fst (catch None st e)) = Finished Fulfilled.
Proof. unfold catch. by destruct (negb _). Qed.

Lemma step_silent st i :
  events (snd (step None st i)) = []
  ∧ delivered (fst (step None st i)) = delivered st
  ∧ (at_ st ≠ Finished Rejected → at_ (fst (step None st i)) ≠ Finished Rejected).
Proof.
  assert (Hc : ∀ s e, delivered s = delivered st →
            events (snd (catch None s e)) = []
            ∧ delivered (fst (catch None s e)) = delivered st
            ∧ (at_ st ≠ Finished Rejected →
               at_ (fst (catch None s e)) ≠ Finished Rejected)).
  { intros s e Hs. destruct (catch_silent s e) as (-> & -> & _ & ->). done. }
  unfold step.
  destruct (at_ st) eqn:Hat; destruct i as [|ok status has_body|e|value| |e];
    cbv beta iota; try (by cbn [fst snd]; rewrite ?Hat); try (by apply Hc).
  - destruct (negb ok); [by apply Hc|].
    destruct (negb has_body); [by apply Hc|]. done.
  - unfold process_chunk.
    destruct (TextDecoder.decode (decoder st) value) as [text dec].
    destruct (pop _) as [last_line lines].
    match goal with |- context [process_lines None ?s lines] =>
      destruct (process_lines_silent s lines) as [He Hs];
      destruct (process_lines None s lines) as [st1 out1] end.
    cbn [fst snd] in *. subst st1. cbn [aborted].
    destruct (aborted st) eqn:Hab.
    + rewrite catch_AbortError. cbn. rewrite app_nil_r. done.
    + cbn. rewrite Hat. done.
Qed.

(** X3.  Without a callback the stream is read all the same, but no
    event is ever delivered, and the function never ends with an
    exception. *)
Theorem no_callback_no_event (st : state) (inputs : list input) :
  events (snd (fetchSSE None st inputs)) = []
  ∧ delivered (fst (fetchSSE None st inputs)) = delivered st
  ∧ (at_ st ≠ Finished Rejected →
     at_ (fst (fetchSSE None st inputs)) ≠ Finished Rejected).
Proof.
  revert st. induction inputs as [|i inputs IH]; intros st; [done|].
  cbn [fetchSSE].
  destruct (step_silent st i) as (He & Hd & Hr).
  destruct (step None st i) as [st1 out1]. cbn [fst snd] in *.
  destruct (IH st1) as (He' & Hd' & Hr').
  destruct (fetchSSE None st1 inputs) as [st2 out2]. cbn [fst snd] in *.
  rewrite events_app, He, He', Hd', Hd. auto.
Qed.

(** With a callback that returns normally *)
Lemma process_line_genuine f st line l :
  never_throws f →
  l ∈ logged (snd (process_line (Some f) st line)) →
  l = line ∧ startsWith (js "data: ") l = true
  ∧ Json.parse (slice 6 l) = None ∧ trim (slice 6 l) ≠ [].
Proof.
  intros Hf Hl.
  destruct (process_line_logged f st line l Hl) as [-> Ht].
  split; [done|]. split; [|split]; [..|by destruct (trim (slice 6 line))].
  - revert Hl. unfold process_line.
    destruct (startsWith _ line) eqn:Hs; [done|]. by intros ?%elem_of_nil.
  - revert Hl. unfold process_line.
    destruct (startsWith _ line) eqn:Hs; [|by intros ?%elem_of_nil].
    destruct (truthy _); [|by intros ?%elem_of_nil].
    destruct (Json.parse _) as [event|] eqn:Hp; [|done].
    cbn. rewrite Hf. by intros ?%elem_of_nil.
Qed.

Lemma process_lines_genuine f st lines l :
  never_throws f →
  l ∈ logged (snd (process_lines (Some f) st lines)) →
  l ∈ lines ∧ startsWith (js "data: ") l = true
  ∧ Json.parse (slice 6 l) = None ∧ trim (slice 6 l) ≠ [].
Proof.
  intros Hf. revert st. induction lines as [|x lines IH]; intros st; simpl.
  - by intros ?%elem_of_nil.
  - pose proof (process_line_genuine f st x l Hf) as H1.
    destruct (process_line (Some f) st x) as [st1 out1]; simpl in *.
    specialize (IH st1).
    destruct (process_lines (Some f) st1 lines) as [st2 out2]; simpl in *.
    rewrite logged_app, elem_of_app. intros [H|H].
    + destruct (H1 H) as (-> & ?). split; [left | done].
    + destruct (IH H) as (? & ?). split; [by right | done].
Qed.

Lemma catch_returns f st e :
  never_throws f →
  logged (snd (catch (Some f) st e)) = []
  ∧ at_ (fst (catch (Some f) st e)) = Finished Fulfilled.
Proof.
  intros Hf. unfold catch. destruct (negb _); [|done].
  cbn. by rewrite Hf.
Qed.

Lemma step_returns f st i :
  never_throws f → at_ st ≠ Finished Rejected →
  at_ (fst (step (Some f) st i)) ≠ Finished Rejected
  ∧ ∀ l, l ∈ logged (snd (step (Some f) st i)) →
         startsWith (js "data: ") l = true
         ∧ Json.parse (slice 6 l) = None ∧ trim (slice 6 l) ≠ [].
Proof.
  intros Hf Hst.
  assert (Hc : ∀ s e,
            at_ (fst (catch (Some f) s e)) ≠ Finished Rejected
            ∧ ∀ l, l ∈ logged (snd (catch (Some f) s e)) →
                   startsWith (js "data: ") l = true
                   ∧ Json.parse (slice 6 l) = None ∧ trim (slice 6 l) ≠ []).
  { intros s e. destruct (catch_returns f s e Hf) as [-> ->].
    split; [done|]. by intros l ?%elem_of_nil. }
  assert (Hn : ∀ s : state, at_ s ≠ Finished Rejected →
            at_ (fst (s, @nil effect)) ≠ Finished Rejected
            ∧ ∀ l, l ∈ logged (snd (s, @nil effect)) →
                   startsWith (js "data: ") l = true
                   ∧ Json.parse (slice 6 l) = None ∧ trim (slice 6 l) ≠ []).
  { intros s Hs. split; [done|]. by intros l ?%elem_of_nil. }
  unfold step.
  destruct (at_ st) eqn:Hat; destruct i as [|ok status has_body|e|value| |e];
    cbv beta iota; try (by apply Hc); try (apply Hn; by rewrite ?Hat).
  - destruct (negb ok); [by apply Hc|].
    destruct (negb has_body); [by apply Hc|]. by apply Hn.
  - destruct (process_chunk (Some f) st value) as [st1 out1] eqn:Hpc.
    assert (H1 : at_ st1 = AwaitRead
                 ∧ ∀ l, l ∈ logged out1 →
                        startsWith (js "data: ") l = true
                        ∧ Json.parse (slice 6 l) = None
                        ∧ trim (slice 6 l) ≠ []).
    { destruct (process_chunk_spec f st value)
        as (lines & rest & _ & _ & _ & Hspec).
      rewrite Hpc in Hspec. inversion Hspec; subst. split; [done|].
      intros l Hl. by apply (process_lines_genuine f st lines l Hf) in Hl as (_ & ?). }
    destruct H1 as [Hat1 Hlog].
    destruct (aborted st1).
    + rewrite catch_AbortError. cbn [fst snd]. rewrite app_nil_r.
      split; [done|exact Hlog].
    + cbn [fst snd]. rewrite Hat1. split; [done|exact Hlog].
Qed.

(** X4.  With a callback that always returns normally, [fetchSSE]
    never ends with an exception, and a line is logged as a parse
    failure only if it starts with [data: ], its payload is not blank
    and [JSON.parse] rejects the payload. *)
Theorem callback_that_returns_never_rejects
    (f : callback) (st : state) (inputs : list input) :
  never_throws f → at_ st ≠ Finished Rejected →
  at_ (fst (fetchSSE (Some f) st inputs)) ≠ Finished Rejected
  ∧ ∀ l, l ∈ logged (snd (fetchSSE (Some f) st inputs)) →
         startsWith (js "data: ") l = true
         ∧ Json.parse (slice 6 l) = None ∧ trim (slice 6 l) ≠ [].
Proof.
  intros Hf. revert st. induction inputs as [|i inputs IH]; intros st Hst.
  - split; [done|]. by intros l ?%elem_of_nil.
  - cbn [fetchSSE].
    destruct (step_returns f st i Hf Hst) as [H1 H2].
    destruct (step (Some f) st i) as [st1 out1]. cbn [fst snd] in *.
    destruct (IH st1 H1) as [H3 H4].
    destruct (fetchSSE (Some f) st1 inputs) as [st2 out2]. cbn [fst snd] in *.
    split; [done|]. intros l. rewrite logged_app, elem_of_app.
    intros [?|?]; auto.
Qed.

Lemma callback_that_returns_never_rejects_witness :
  let f := Samples.quiet in
  let inputs :=
    Response true 200 true
    :: (Chunk <$> Samples.garbled) ++ [ReadFails Samples.network_down] in
  never_throws f
  ∧ at_ initial ≠ Finished Rejected
  ∧ at_ (fst (fetchSSE (Some f) initial inputs)) ≠ Finished Rejected
  ∧ ∀ l, l ∈ logged (snd (fetchSSE (Some f) initial inputs)) →
         startsWith (js "data: ") l = true
         ∧ Json.parse (slice 6 l) = None ∧ trim (slice 6 l) ≠ [].
Proof.
  intros f inputs.
  assert (H1 : never_throws f) by (intros ? ?; reflexivity).
  assert (H2 : at_ initial ≠ Finished Rejected) by discriminate.
  split; [exact H1|]. split; [exact H2|].
  exact (callback_that_returns_never_rejects f initial inputs H1 H2).
Defined.

End Callbacks.

Section Chunks.
Import JS Protocol Api.

Lemma process_line_throwing f st line v :
  decode_line line = Some v → (∀ h, throws (f h v) = true) →
  line ∈ logged (snd (process_line (Some f) st line)).
Proof.
  unfold decode_line, process_line. intros Hd Hf.
  destruct (startsWith _ line); [|done].
  destruct (truthy _); [|done]. cbn [andb] in Hd. rewrite Hd.
  cbn. rewrite Hf. cbn. left.
Qed.

(** X5.  An exception thrown by the callback is caught by the [try]
    that is meant for [JSON.parse]: the line is logged as one that
    could not be parsed, although it was; the event counts as
    delivered, and the loop goes on with the other lines, all of whose
    events are delivered. *)
Theorem exception_of_the_callback_is_logged
    (f : callback) (st : state) (lines : list (list N)) (l : list N)
    (v : Json.value) :
  l ∈ lines → decode_line l = Some v → (∀ h, throws (f h v) = true) →
  let r := process_lines (Some f) st lines in
  l ∈ logged (snd r)
  ∧ events (snd r) = omap decode_line lines
  ∧ delivered (fst r) = delivered st ++ omap decode_line lines
  ∧ reader_of (fst r) = reader_of st.
Proof.
  intros Hin Hd Hf r. subst r.
  split; [|apply process_lines_events].
  apply list_elem_of_split in Hin as (l1 & l2 & ->).
  rewrite process_lines_app.
  destruct (process_lines (Some f) st l1) as [st1 out1].
  cbn [process_lines].
  destruct (process_line (Some f) st1 l) as [st2 out2] eqn:E.
  assert (Hl : l ∈ logged out2).
  { change out2 with (snd (st2, out2)). rewrite <- E.
    by apply process_line_throwing with v. }
  destruct (process_lines (Some f) st2 l2) as [st3 out3].
  cbn [snd]. rewrite !logged_app, !elem_of_app. right. left. exact Hl.
Qed.

Lemma exception_of_the_callback_is_logged_witness :
  let f := Samples.always_throws in
  let st := Samples.reading in
  let l := Samples.text "data: {'type':'end'}" in
  let v := Json.JObject [(js "type", Json.JString (js "end"))] in
  let lines := [Samples.text "data: {'type':'start'}"; l] in
  l ∈ lines
  ∧ decode_line l = Some v
  ∧ (∀ h, throws (f h v) = true)
  ∧ (let r := process_lines (Some f) st lines in
     l ∈ logged (snd r)
     ∧ events (snd r) = omap decode_line lines
     ∧ delivered (fst r) = delivered st ++ omap decode_line lines
     ∧ reader_of (fst r) = reader_of st).
Proof.
  intros f st l v lines.
  assert (H1 : l ∈ lines) by (right; left).
  assert (H2 : decode_line l = Some v) by (vm_compute; reflexivity).
  assert (H3 : ∀ h, throws (f h v) = true) by (intros ?; reflexivity).
  split; [exact H1|]. split; [exact H2|]. split; [exact H3|].
  exact (exception_of_the_callback_is_logged f st lines l v H1 H2 H3).
Defined.

(** X6.  How the bytes of a stream are cut into chunks makes no
    difference: two sequences of reads that carry the same bytes leave
    the stream in the same state and make the same calls and logs, in
    the same order. *)
Theorem chunking_does_not_matter
    (f : callback) (st : state) (values values' : list (list byte)) :
  never_cancels f → at_ st = AwaitRead → aborted st = false →
  LF ∉ buffer st →
  concat values = concat values' →
  fetchSSE (Some f) st (Chunk <$> values)
  = fetchSSE (Some f) st (Chunk <$> values').
Proof.
  intros Hf Hat Hab Hbuf Heq.
  destruct (run_chunks f st values Hf Hat Hab Hbuf)
    as (l1 & r1 & Hc1 & Hl1 & Hr1 & ->).
  destruct (run_chunks f st values' Hf Hat Hab Hbuf)
    as (l2 & r2 & Hc2 & Hl2 & Hr2 & ->).
  rewrite Heq in Hc1. rewrite Hc1 in Hc2.
  destruct (lines_unique _ _ _ _ Hl1 Hl2 Hr1 Hr2 Hc2) as [-> ->].
  by rewrite Heq.
Qed.

Lemma chunking_does_not_matter_witness :
  let f := Samples.quiet in
  let st := Samples.reading in
  let values := Samples.turn in
  let values' := [concat Samples.turn] in
  never_cancels f ∧ at_ st = AwaitRead ∧ aborted st = false
  ∧ (LF ∉ buffer st)
  ∧ concat values = concat values'
  ∧ fetchSSE (Some f) st (Chunk <$> values)
    = fetchSSE (Some f) st (Chunk <$> values').
Proof.
  intros f st values values'.
  assert (H1 : never_cancels f) by (intros ? ?; reflexivity).
  assert (H2 : at_ st = AwaitRead) by reflexivity.
  assert (H3 : aborted st = false) by reflexivity.
  assert (H4 : LF ∉ buffer st) by apply not_elem_of_nil.
  assert (H5 : concat values = concat values') by (vm_compute; reflexivity).
  do 5 (split; [assumption|]).
  exact (chunking_does_not_matter f st values values' H1 H2 H3 H4 H5).
Defined.

(** The reads of a stream that is not cancelled, up to its end: what
    follows the last line feed stays in the buffer. *)
Lemma run_to_the_end f st values after :
  never_cancels f → at_ st = AwaitRead → aborted st = false →
  LF ∉ buffer st →
  ∃ lines rest,
    buffer st ++ fst (TextDecoder.decode (decoder st) (concat values))
      = with_line_feeds lines ++ rest
    ∧ Forall (fun l => LF ∉ l) lines ∧ (LF ∉ rest)
    ∧ fetchSSE (Some f) st ((Chunk <$> values) ++ Done :: after) =
      (relay (Finished Fulfilled)
             (snd (TextDecoder.decode (decoder st) (concat values))) rest
             (fst (process_lines (Some f) st lines)),
       snd (process_lines (Some f) st lines)).
Proof.
  intros Hf Hat Hab Hbuf.
  destruct (run_chunks f st values Hf Hat Hab Hbuf)
    as (lines & rest & Hc & Hl & Hr & Hrun).
  exists lines, rest. do 3 (split; [assumption|]).
  rewrite fetchSSE_app, Hrun.
  destruct (process_lines (Some f) st lines) as [st1 out1].
  cbn [fst snd fetchSSE].
  match goal with |- context [step (Some f) ?s Done] =>
    change (step (Some f) s Done) with (set_phase (Finished Fulfilled) s, @nil effect)
  end.
  cbv beta iota.
  rewrite (run_finished _ _ after Fulfilled) by done.
  by rewrite !app_nil_r.
Qed.

(** X7.  What follows the last line feed is never processed.  When
    the stream ends, the callback has been given the events of the
    complete lines and nothing else: the text left in the buffer is
    dropped, even if it is a whole event, and nothing that comes after
    the end is looked at. *)
Theorem unterminated_line_is_dropped
    (f : callback) (st : state) (values : list (list byte))
    (lines : list (list N)) (rest : list N) (after : list input) :
  never_cancels f → at_ st = AwaitRead → aborted st = false →
  LF ∉ buffer st →
  buffer st ++ fst (TextDecoder.decode (decoder st) (concat values))
    = with_line_feeds lines ++ rest →
  Forall (fun l => LF ∉ l) lines → LF ∉ rest →
  let run := fetchSSE (Some f) st ((Chunk <$> values) ++ Done :: after) in
  events (snd run) = omap decode_line lines
  ∧ delivered (fst run) = delivered st ++ omap decode_line lines
  ∧ buffer (fst run) = rest
  ∧ at_ (fst run) = Finished Fulfilled.
Proof.
  intros Hf Hat Hab Hbuf Htext Hlines Hrest run. subst run.
  destruct (run_to_the_end f st values after Hf Hat Hab Hbuf)
    as (lines' & rest' & Hc & Hl & Hr & ->).
  rewrite Htext in Hc.
  destruct (lines_unique _ _ _ _ Hlines Hl Hrest Hr Hc) as [<- <-].
  destruct (process_lines_events f st lines) as (He & Hd & _).
  done.
Qed.

Lemma unterminated_line_is_dropped_witness :
  let f := Samples.quiet in
  let st := Samples.reading in
  let values := Samples.cut_short in
  let lines := [Samples.text "data: {'type':'content','message':'Hi'}"] in
  let rest := Samples.text "data: {'type':'end'}" in
  never_cancels f ∧ at_ st = AwaitRead ∧ aborted st = false
  ∧ (LF ∉ buffer st)
  ∧ buffer st ++ fst (TextDecoder.decode (decoder st) (concat values))
    = with_line_feeds lines ++ rest
  ∧ Forall (fun l => LF ∉ l) lines
  ∧ (LF ∉ rest)
  ∧ is_Some (decode_line rest)
  ∧ (let run := fetchSSE (Some f) st ((Chunk <$> values) ++ [Done]) in
     events (snd run) = omap decode_line lines
     ∧ delivered (fst run) = delivered st ++ omap decode_line lines
     ∧ buffer (fst run) = rest
     ∧ at_ (fst run) = Finished Fulfilled).
Proof.
  intros f st values lines rest.
  assert (H1 : never_cancels f) by (intros ? ?; reflexivity).
  assert (H2 : at_ st = AwaitRead) by reflexivity.
  assert (H3 : aborted st = false) by reflexivity.
  assert (H4 : LF ∉ buffer st) by apply not_elem_of_nil.
  assert (H5 : buffer st ++ fst (TextDecoder.decode (decoder st) (concat values))
               = with_line_feeds lines ++ rest) by (vm_compute; reflexivity).
  assert (H6 : Forall (fun l => LF ∉ l) lines) by compute_done.
  assert (H7 : LF ∉ rest) by compute_done.
  assert (H8 : is_Some (decode_line rest)) by (vm_compute; eauto).
  do 8 (split; [assumption|]).
  exact (unterminated_line_is_dropped f st values lines rest []
           H1 H2 H3 H4 H5 H6 H7).
Defined.

End Chunks.

Section Trim.
Import JS.

Lemma trimStart_head (s : list N) :
  match trimStart s with
  | [] => True
  | c :: _ => is_space c = false
  end.
Proof.
  induction s as [|c s IH]; simpl; [done|].
  destruct (is_space c) eqn:Hc; [done|]. exact Hc.
Qed.

Lemma trimStart_fixed (s : list N) :
  match s with [] => True | c :: _ => is_space c = false end →
  trimStart s = s.
Proof. destruct s as [|c s]; simpl; [done|]. by intros ->. Qed.

Lemma trimStart_snoc (s : list N) (c : N) :
  trimStart (s ++ [c]) =
  match trimStart s with
  | [] => if is_space c then [] else [c]
  | t => t ++ [c]
  end.
Proof.
  induction s as [|d s IH]; simpl; [done|].
  destruct (is_space d); [exact IH|done].
Qed.

(** What [trimEnd] leaves of a text that starts with a character that
    is not white space starts with that character. *)
Lemma trimEnd_cons (c : N) (s : list N) :
  is_space c = false → ∃ t, trimEnd (c :: s) = c :: t.
Proof.
  intros Hc. unfold trimEnd. cbn [rev]. rewrite trimStart_snoc, Hc.
  destruct (trimStart (rev s)) as [|d t].
  - by exists [].
  - exists (rev (d :: t)). by rewrite rev_app_distr.
Qed.

Lemma trimEnd_last (s : list N) :
  match last (trimEnd s) with
  | None => True
  | Some c => is_space c = false
  end.
Proof.
  unfold trimEnd. pose proof (trimStart_head (rev s)) as H.
  destruct (trimStart (rev s)) as [|c t]; [done|].
  simpl. by rewrite last_snoc.
Qed.

Lemma trimEnd_fixed (s : list N) :
  match last s with None => True | Some c => is_space c = false end →
  trimEnd s = s.
Proof.
  intros H. unfold trimEnd. rewrite trimStart_fixed, rev_involutive; [done|].
  destruct s as [|c s] using rev_ind; [done|].
  rewrite last_snoc in H. by rewrite rev_app_distr.
Qed.

(** [trim] returns a text that has no white space at either end. *)
Lemma trim_ends (s : list N) :
  match trim s with
  | [] => True
  | c :: _ => is_space c = false
  end
  ∧ match last (trim s) with
    | None => True
    | Some c => is_space c = false
    end.
Proof.
  split; [|apply trimEnd_last]. unfold trim.
  pose proof (trimStart_head s) as H.
  destruct (trimStart s) as [|c t]; [done|].
  destruct (trimEnd_cons c t H) as [u ->]. exact H.
Qed.

Lemma trim_fixed (s : list N) :
  match s with [] => True | c :: _ => is_space c = false end →
  match last s with None => True | Some c => is_space c = false end →
  trim s = s.
Proof.
  intros H1 H2. unfold trim. rewrite trimStart_fixed by done.
  by apply trimEnd_fixed.
Qed.

Lemma trim_idem (s : list N) : trim (trim s) = trim s.
Proof. destruct (trim_ends s). by apply trim_fixed. Qed.

End Trim.

Section Promise.
Import JS Protocol Api Api.ChatStreamEvent.

Lemma on_event_trimmed w e : trimmed (result w) → trimmed (result (on_event w e)).
Proof.
  intros Hw. unfold on_event. destruct (type e); try done.
  - by destruct (truthy_opt _).
  - cbn. destruct (result w); try done. cbn. split; [done|].
    eexists. split; [done|]. cbn. apply trim_idem.
  - cbn. by destruct (result w).
Qed.

Lemma deliver_trimmed w es : trimmed (result w) → trimmed (result (deliver w es)).
Proof.
  revert w. induction es as [|e es IH]; intros w Hw; [done|].
  rewrite deliver_cons. apply IH. by apply on_event_trimmed.
Qed.

(** X8.  When the promise of [sendChatMessage] resolves, [success] is
    true and the response is trimmed: trimming it again changes
    nothing, and it neither starts nor ends with white space. *)
Theorem resolved_response_is_trimmed
    (sessionId : option (list N)) (es : list t)
    (r : Types.ApiResponse ChatData) :
  result (deliver (sendChatMessage sessionId) es) = Resolved r →
  Types.success r = true
  ∧ ∃ d, Types.data r = Some d
         ∧ trim (Api.response d) = Api.response d
         ∧ match Api.response d with
           | [] => True
           | c :: _ => is_space c = false
           end
         ∧ match last (Api.response d) with
           | None => True
           | Some c => is_space c = false
           end.
Proof.
  intros Hr.
  assert (H : trimmed (result (deliver (sendChatMessage sessionId) es)))
    by (by apply deliver_trimmed).
  rewrite Hr in H. destruct H as (Hs & d & Hd & Ht).
  split; [done|]. exists d. split; [done|]. split; [done|].
  rewrite <- Ht. apply trim_ends.
Qed.

Lemma resolved_response_is_trimmed_witness :
  let r :=
    {| Types.success := true;
       Types.data :=
         Some {| Api.response := js "Stripe is a payments company.";
                 Api.session_id := js "s-1";
                 Api.tools_used := [js "search_companies"] |};
       Types.error := None; Types.message := None |} in
  result (deliver (sendChatMessage None) Samples.whole_turn) = Resolved r
  ∧ Types.success r = true
  ∧ ∃ d, Types.data r = Some d
         ∧ trim (Api.response d) = Api.response d
         ∧ match Api.response d with
           | [] => True
           | c :: _ => is_space c = false
           end
         ∧ match last (Api.response d) with
           | None => True
           | Some c => is_space c = false
           end.
Proof.
  intros r.
  assert (H : result (deliver (sendChatMessage None) Samples.whole_turn)
              = Resolved r) by (vm_compute; reflexivity).
  split; [exact H|].
  exact (resolved_response_is_trimmed None Samples.whole_turn r H).
Defined.

Lemma typed_error_event (e : Error) :
  typed (error_event e)
  = Some {| type := error; message := Some (String_of e); query := None;
            session_id := None; tool_name := None; tools_used := None;
            partial := None |}.
Proof. reflexivity. Qed.

(** X9.  [sendChatMessage] on a response that is not ok: the only
    event of the stream is the error event, and the promise rejects
    with an [Error] whose message is the words Error: HTTP error!
    status: followed by the status. *)
Theorem http_error_rejects_the_promise
    (sessionId : option (list N)) (status : N) (has_body : bool)
    (after : list input) :
  let out :=
    snd (fetchSSE (Some switch_on_type) initial
           (Response false status has_body :: after)) in
  ∃ es, mapM typed (events out) = Some es
        ∧ result (deliver (sendChatMessage sessionId) es)
          = RejectedWith
              (new_Error (js "Error: HTTP error! status: " ++ of_N status)).
Proof.
  intros out. subst out. cbn [fetchSSE]. unfold step. cbn [at_ initial negb].
  set (e := new_Error (js "HTTP error! status: " ++ of_N status)).
  rewrite catch_reports by done.
  rewrite (run_finished _ _ after Fulfilled) by done.
  cbn [fst snd]. rewrite app_nil_r.
  eexists. split; [reflexivity|]. reflexivity.
Qed.

Lemma switch_on_type_never_cancels : never_cancels switch_on_type.
Proof. by intros h v. Qed.

Lemma nullable_optional {A} (read : Json.value → option A) key v x :
  read Json.JNull = None →
  optional read key v = Some x → nullable read key v = Some x.
Proof.
  unfold optional, nullable. intros Hnull.
  destruct (Json.get key v) as [[]|]; try done.
  by rewrite Hnull.
Qed.

(** On a value that has the type of the interface, [heard] reads what
    [typed] reads, as far as the callback of the wrapper can tell. *)
Lemma heard_typed v e :
  typed v = Some e →
  ∃ h, heard v = Some h
       ∧ ∀ w, deliver w (option_list h) = on_event w e.
Proof.
  unfold typed, heard. intros H.
  destruct (case_of v) as [ty|]; [|done]. cbn [mbind option_bind] in H.
  destruct (optional as_string "message" v) as [msg|] eqn:Hm; [|done].
  cbn [mbind option_bind] in H.
  destruct (optional as_string "query" v) as [q|]; [|done].
  cbn [mbind option_bind] in H.
  destruct (optional as_string "session_id" v) as [sid|] eqn:Hs; [|done].
  cbn [mbind option_bind] in H.
  destruct (optional as_string "tool_name" v) as [tn|]; [|done].
  cbn [mbind option_bind] in H.
  destruct (optional as_strings "tools_used" v) as [tu|] eqn:Hu; [|done].
  cbn [mbind option_bind] in H.
  destruct (optional as_boolean "partial" v) as [pa|]; [|done].
  cbn [mbind option_bind] in H. injection H as <-.
  rewrite (nullable_optional as_string "message" v msg eq_refl Hm).
  rewrite (nullable_optional as_string "session_id" v sid eq_refl Hs).
  rewrite (nullable_optional as_strings "tools_used" v tu eq_refl Hu).
  destruct ty; cbn [mbind option_bind]; eexists; (split; [reflexivity|]);
    intros w; reflexivity.
Qed.

(** X10.  When the server closes the stream and none of the events
    the callback of [sendChatMessage] was given is of type end or
    error, [fetchSSE] ends normally and the promise of
    [sendChatMessage] is left pending: nothing that happens later
    settles it.  The events are taken as that callback reads them:
    [null] and a value whose type is none of content, complete, end and
    error are ignored, a property that is [null] counts as absent, and
    the message, the session and the tools of an event, where its case
    reads them, are strings and a list of strings as the interface
    declares; a stream that carries one of them with another type is
    not covered. *)
Theorem promise_is_left_pending
    (sessionId : option (list N)) (status : N) (values : list (list byte))
    (after : list input) (hs : list (option t)) :
  let run :=
    fetchSSE (Some switch_on_type) initial
      (Response true status true :: (Chunk <$> values) ++ Done :: after) in
  mapM heard (events (snd run)) = Some hs →
  Forall (fun e => settles e = false) (omap id hs) →
  at_ (fst run) = Finished Fulfilled
  ∧ result (deliver (sendChatMessage sessionId) (omap id hs)) = Pending.
Proof.
  intros run Hes Hno. split; [|by rewrite deliver_pending].
  subst run. cbn [fetchSSE].
  change (step (Some switch_on_type) initial (Response true status true))
    with ({| at_ := AwaitRead; decoder := TextDecoder.create; buffer := [];
             aborted := false; delivered := [] |}, @nil effect).
  cbv beta iota.
  match goal with |- context [fetchSSE _ ?s _] =>
    destruct (run_to_the_end switch_on_type s values after
                switch_on_type_never_cancels eq_refl eq_refl)
      as (lines & rest & _ & _ & _ & ->); [apply not_elem_of_nil|]
  end.
  done.
Qed.

Lemma promise_is_left_pending_witness :
  let hs :=
    [ None;
      Some {| type := complete; message := Some (js "Hi"); query := None;
              session_id := None; tool_name := None; tools_used := None;
              partial := None |} ] in
  let run :=
    fetchSSE (Some switch_on_type) initial
      (Response true 200 true :: (Chunk <$> Samples.unfinished) ++ [Done]) in
  mapM heard (events (snd run)) = Some hs
  ∧ Forall (fun e => settles e = false) (omap id hs)
  ∧ at_ (fst run) = Finished Fulfilled
  ∧ result (deliver (sendChatMessage None) (omap id hs)) = Pending.
Proof.
  intros hs run.
  assert (H1 : mapM heard (events (snd run)) = Some hs)
    by (vm_compute; reflexivity).
  assert (H2 : Forall (fun e => settles e = false) (omap id hs))
    by (repeat constructor).
  split; [exact H1|]. split; [exact H2|].
  exact (promise_is_left_pending None 200 Samples.unfinished [] hs H1 H2).
Defined.

End Promise.

Section PageInvariants.
Import JS Reports.


Lemma run_snoc st actions a : run st (actions ++ [a]) = step (run st actions) a.
Proof. unfold run. by rewrite foldl_app. Qed.

Lemma run_app st a b : run st (a ++ b) = run (run st a) b.
Proof. apply foldl_app. Qed.

(** A property of the page that holds at the start and that every step
    keeps holds at every moment. *)
Lemma run_invariant (P : state → Prop) :
  (∀ st a, P st → P (step st a)) →
  ∀ st actions, P st → P (run st actions).
Proof.
  intros Hstep st actions. revert st.
  induction actions as [|a actions IH]; intros st Hst; [done|].
  apply IH. by apply Hstep.
Qed.

Lemma tick_resume_calls st c o :
  calls (tick_resume st c o) = calls st
  ∧ awaiting (tick_resume st c o) = awaiting st
  ∧ mounted (tick_resume st c o) = mounted st.
Proof.
  unfold tick_resume. destruct o as [response|]; [|done].
  destruct (Types.data response) as [task|]; [|done].
  destruct (clear_current_keeps st) as (_ & _ & _ & _ & _ & Ha & Hc & Hm).
  destruct (eqb _ (js "completed")).
  { unfold on_completed.
    destruct (Api.ReportTaskStatus.result task) as [r|];
      try destruct (truthy (Api.report_filename r)); done. }
  destruct (eqb _ (js "failed")); done.
Qed.

Lemma handleGenerate_resume_calls st c o :
  calls (handleGenerate_resume st c o) = calls st
  ∧ awaiting (handleGenerate_resume st c o) = awaiting st
  ∧ mounted (handleGenerate_resume st c o) = mounted st.
Proof.
  unfold handleGenerate_resume.
  destruct (clear_current_keeps st) as (_ & _ & _ & _ & _ & Ha & Hc & Hm).
  destruct o as [response|detail]; [|done].
  destruct (_ && _); done.
Qed.

(** The requests a step adds. *)
Lemma step_calls st a :
  calls (step st a) = calls st
  ∨ (truthy (trim (topic st)) = true
     ∧ calls (step st a)
       = calls st ++ [Api.generateReportBackground
                        {| Types.topic := trim (topic st);
                           Types.report_type := reportType st;
                           Types.format := format st;
                           Types.use_langgraph := Some true |}])
  ∨ (∃ id iv, intervals st !! id = Some iv
              ∧ calls (step st a)
                = calls st ++ [Api.getReportTaskStatus (taskId iv)]).
Proof.
  destruct a as [s|s|s| |id|n o|n o|]; cbn [step].
  - left. by destruct (mounted st).
  - left. by destruct (mounted st).
  - left. by destruct (mounted st).
  - destruct (mounted st); [|by left]. unfold handleGenerate.
    destruct (truthy (trim (topic st))) eqn:Ht; cbn [negb]; [|by left].
    right. left. done.
  - destruct (intervals st !! id) as [iv|] eqn:Hid; [|by left].
    right. right. by exists id, iv.
  - left. destruct (awaiting st !! n) as [[c|c t]|]; [|done..].
    by destruct (handleGenerate_resume_calls (resumed n st) c o) as (-> & _).
  - left. destruct (awaiting st !! n) as [[c|c t]|]; [done| |done].
    by destruct (tick_resume_calls (resumed n st) c o) as (-> & _).
  - left. destruct (mounted st); [|done]. unfold unmount. cbn [unmounted calls].
    by destruct (clear_current_keeps st) as (_ & _ & _ & _ & _ & _ & -> & _).
Qed.

(** X11.  Every request for a report the page ever sends carries a
    topic that is not empty and is trimmed, asks for LangGraph, and is
    posted to the background endpoint with exactly these fields. *)
Theorem submitted_topic_is_trimmed
    (actions : list action) (r : Types.ReportRequest) :
  Api.generateReportBackground r ∈ calls (run initial actions) →
  Types.topic r ≠ []
  ∧ trim (Types.topic r) = Types.topic r
  ∧ Types.use_langgraph r = Some true
  ∧ Api.send (Api.generateReportBackground r)
    = Api.PostReport (js "/generate-comprehensive-report-background")
        {| Api.body_topic := Types.topic r;
           Api.body_report_type := Types.report_type r;
           Api.body_format := Types.format r;
           Api.body_use_langgraph := true |}.
Proof.
  revert r.
  apply (run_invariant
           (fun st => ∀ r, Api.generateReportBackground r ∈ calls st →
              Types.topic r ≠ []
              ∧ trim (Types.topic r) = Types.topic r
              ∧ Types.use_langgraph r = Some true
              ∧ Api.send (Api.generateReportBackground r)
                = Api.PostReport (js "/generate-comprehensive-report-background")
                    {| Api.body_topic := Types.topic r;
                       Api.body_report_type := Types.report_type r;
                       Api.body_format := Types.format r;
                       Api.body_use_langgraph := true |})).
  - intros st a Hst r.
    destruct (step_calls st a) as [->|[[Ht ->]|(id & iv & Hid & ->)]].
    + apply Hst.
    + rewrite elem_of_app, list_elem_of_singleton.
      intros [Hin|[= ->]]; [by apply Hst|]. cbn.
      split; [by destruct (trim (topic st))|]. split; [apply trim_idem|].
      split; [done|]. unfold Api.send, Api.body_of. cbn. done.
    + rewrite elem_of_app, list_elem_of_singleton.
      intros [Hin|[=]]. by apply Hst.
  - intros r Hin. by apply elem_of_nil in Hin.
Qed.

Lemma submitted_topic_is_trimmed_witness :
  let actions := [Type_ (js " Fintech "); ClickGenerate] in
  let r :=
    {| Types.topic := js "Fintech";
       Types.report_type := js "comprehensive";
       Types.format := js "pdf";
       Types.use_langgraph := Some true |} in
  Api.generateReportBackground r ∈ calls (run initial actions)
  ∧ Types.topic r ≠ []
  ∧ trim (Types.topic r) = Types.topic r
  ∧ Types.use_langgraph r = Some true
  ∧ Api.send (Api.generateReportBackground r)
    = Api.PostReport (js "/generate-comprehensive-report-background")
        {| Api.body_topic := Types.topic r;
           Api.body_report_type := Types.report_type r;
           Api.body_format := Types.format r;
           Api.body_use_langgraph := true |}.
Proof.
  intros actions r.
  assert (H : Api.generateReportBackground r ∈ calls (run initial actions)).
  { assert (Hc : calls (run initial actions) = [Api.generateReportBackground r])
      by (vm_compute; reflexivity).
    rewrite Hc. left. }
  split; [exact H|].
  exact (submitted_topic_is_trimmed actions r H).
Defined.

(** The intervals a step leaves. *)
Lemma step_intervals st a id iv :
  intervals (step st a) !! id = Some iv →
  intervals st !! id = Some iv
  ∨ (delay iv = 10000 ∧ taskId iv ≠ []).
Proof.
  assert (Hclear : ∀ s, intervals (clear_current s) !! id = Some iv →
                        intervals s !! id = Some iv).
  { intros s. unfold clear_current.
    destruct (pollingIntervalRef s) as [cur|]; [|done]. cbn.
    by intros [_ ?]%lookup_delete_Some. }
  assert (Htick : ∀ s c o, intervals (tick_resume s c o) !! id = Some iv →
                           intervals s !! id = Some iv).
  { intros s c o. unfold tick_resume. destruct o as [response|]; [|done].
    destruct (Types.data response) as [task|]; [|done].
    destruct (eqb _ (js "completed")).
    { unfold on_completed.
      destruct (Api.ReportTaskStatus.result task) as [r|];
        try destruct (truthy (Api.report_filename r)); apply Hclear. }
    destruct (eqb _ (js "failed")); [apply Hclear|done]. }
  destruct a as [s|s|s| |i|n o|n o|]; cbn [step].
  - intros H. left. by destruct (mounted st).
  - intros H. left. by destruct (mounted st).
  - intros H. left. by destruct (mounted st).
  - intros H. left. destruct (mounted st); [|done]. revert H.
    unfold handleGenerate. by destruct (negb _).
  - intros H. left. by destruct (intervals st !! i).
  - destruct (awaiting st !! n) as [[c|c t]|]; [|by left..].
    unfold handleGenerate_resume. destruct o as [response|detail]; [|by left].
    destruct (Types.success response && _) eqn:Hok; [|by left].
    unfold pollStatus. cbn [setInterval_into_ref intervals].
    intros [[<- <-]|[_ H]]%lookup_insert_Some.
    + right. split; [done|]. cbn.
      apply andb_true_iff in Hok as [_ Hok].
      by destruct (Api.task_id <$> Types.data response) as [[|]|].
    + left. by apply Hclear in H.
  - destruct (awaiting st !! n) as [[c|c t]|]; [by left| |by left].
    intros H. left. by apply Htick in H.
  - destruct (mounted st); [|by left]. intros H. left.
    unfold unmount in H. cbn in H. by apply Hclear in H.
Qed.

(** X12.  At every moment, every interval of the page fires every
    10000 ms and asks for a task whose identifier is not empty; so every
    status request the page ever sends names a task, and goes to
    [/report-tasks/] followed by that name. *)
Theorem pollers_ask_for_a_named_task (actions : list action) :
  let st := run initial actions in
  (∀ id iv, intervals st !! id = Some iv →
            delay iv = 10000 ∧ taskId iv ≠ [])
  ∧ (∀ task, Api.getReportTaskStatus task ∈ calls st →
             task ≠ []
             ∧ Api.send (Api.getReportTaskStatus task)
               = Api.Get {| Api.get_url := js "/report-tasks/" ++ task;
                            Api.get_params := ∅ |}).
Proof.
  apply (run_invariant
           (fun st =>
              (∀ id iv, intervals st !! id = Some iv →
                        delay iv = 10000 ∧ taskId iv ≠ [])
              ∧ (∀ task, Api.getReportTaskStatus task ∈ calls st →
                         task ≠ []
                         ∧ Api.send (Api.getReportTaskStatus task)
                           = Api.Get {| Api.get_url := js "/report-tasks/" ++ task;
                                        Api.get_params := ∅ |}))).
  - intros st a [Hiv Hcalls]. split.
    + intros id iv H. destruct (step_intervals st a id iv H) as [H'|H']; eauto.
    + intros task.
      destruct (step_calls st a) as [->|[[Ht ->]|(id & iv & Hid & ->)]].
      * apply Hcalls.
      * rewrite elem_of_app, list_elem_of_singleton.
        intros [Hin|[=]]. by apply Hcalls.
      * rewrite elem_of_app, list_elem_of_singleton.
        intros [Hin|[= ->]]; [by apply Hcalls|].
        split; [|done]. by destruct (Hiv id iv Hid).
  - split.
    + intros id iv. cbn. by rewrite lookup_empty.
    + intros task Hin. by apply elem_of_nil in Hin.
Qed.

(** X13.  An answer that says completed or failed stops the polling
    of the page, whichever task the answer is about: after it no
    interval is registered and the loading state is over.  An answer
    for an earlier task that arrives late thus ends the polling of the
    task that is current. *)
Theorem terminal_answer_stops_every_poller
    (actions : list action) (n : nat) (c : closure) (task : list N)
    (o : status_outcome) :
  let st := run initial actions in
  awaiting st !! n = Some (AwaitStatus c task) → terminal o = true →
  let st' := step st (StatusSettles n o) in
  intervals st' = ∅ ∧ isGenerating st' = false ∧ pollingStatus st' = [].
Proof.
  intros st Hn Ho st'. subst st'. cbn [step]. rewrite Hn.
  assert (Ht : tidy (resumed n st)).
  { apply (tidy_weaken st); [|done|by left].
    apply tidy_run. intros id. cbn. rewrite lookup_empty. by intros [? ?]. }
  pose proof (clear_current_empty _ Ht) as He.
  revert Ho. unfold terminal, tick_resume.
  destruct o as [response|]; [|done].
  destruct (Types.data response) as [t|]; [|done].
  destruct (eqb _ (js "completed")).
  { intros _. unfold on_completed.
    destruct (Api.ReportTaskStatus.result t) as [r|];
      try destruct (truthy (Api.report_filename r)); cbn; by rewrite He. }
  destruct (eqb _ (js "failed")); [|done].
  intros _. unfold on_failed. cbn. by rewrite He.
Qed.

Lemma terminal_answer_stops_every_poller_witness :
  let st := run initial Samples.second_report in
  let o := Samples.answer "completed" None (Some Samples.fintech_report) None in
  awaiting st !! 0%nat = Some (AwaitStatus Samples.seen (js "t-123"))
  ∧ terminal o = true
  ∧ taskId <$> intervals st !! 2%positive = Some (js "t-456")
  ∧ (let st' := step st (StatusSettles 0 o) in
     intervals st' = ∅ ∧ isGenerating st' = false ∧ pollingStatus st' = []).
Proof.
  intros st o.
  assert (H1 : awaiting st !! 0%nat
               = Some (AwaitStatus Samples.seen (js "t-123")))
    by (vm_compute; reflexivity).
  assert (H2 : terminal o = true) by reflexivity.
  assert (H3 : taskId <$> intervals st !! 2%positive = Some (js "t-456"))
    by (vm_compute; reflexivity).
  split; [exact H1|]. split; [exact H2|]. split; [exact H3|].
  exact (terminal_answer_stops_every_poller Samples.second_report 0
           Samples.seen (js "t-123") o H1 H2).
Defined.

(** The reports a step lists. *)
Lemma step_reports st a :
  generatedReports (step st a) = generatedReports st
  ∨ ∃ r, GeneratedReport.filename r ≠ []
         ∧ generatedReports (step st a) = r :: generatedReports st.
Proof.
  destruct a as [s|s|s| |i|n o|n o|]; cbn [step].
  - left. by destruct (mounted st).
  - left. by destruct (mounted st).
  - left. by destruct (mounted st).
  - left. destruct (mounted st); [|done]. unfold handleGenerate.
    by destruct (negb _).
  - left. by destruct (intervals st !! i).
  - left. destruct (awaiting st !! n) as [[c|c t]|]; [|done..].
    unfold handleGenerate_resume, pollStatus.
    destruct (clear_current_keeps (resumed n st)) as (_ & _ & _ & _ & Hr & _).
    destruct o as [response|detail]; [|done].
    destruct (_ && _); [|done]. cbn. by rewrite Hr.
  - destruct (awaiting st !! n) as [[c|c t]|]; [by left| |by left].
    destruct (clear_current_keeps (resumed n st)) as (_ & _ & _ & _ & Hr & _).
    unfold tick_resume. destruct o as [response|]; [|by left].
    destruct (Types.data response) as [task|]; [|by left].
    destruct (eqb _ (js "completed")).
    { unfold on_completed.
      destruct (Api.ReportTaskStatus.result task) as [r|]; [|by left].
      destruct (truthy (Api.report_filename r)) eqn:Hf; [|by left].
      right. eexists. split; [|cbn; by rewrite Hr]. cbn.
      by destruct (Api.report_filename r). }
    left. destruct (eqb _ (js "failed")); [|done].
    unfold on_failed. cbn. by rewrite Hr.
  - left. destruct (mounted st); [|done]. unfold unmount. cbn.
    by destruct (clear_current_keeps st) as (_ & _ & _ & _ & -> & _).
Qed.

Lemma run_reports st actions :
  generatedReports st `suffix_of` generatedReports (run st actions).
Proof.
  revert st. induction actions as [|a actions IH]; intros st; [done|].
  cbn [run foldl]. etrans; [|apply IH].
  destruct (step_reports st a) as [->|(r & _ & ->)]; [done|].
  by apply suffix_cons_r.
Qed.

(** X14.  Every report the page lists has a file name, so its
    download address names a file; and the list only grows, at its
    head: what is listed at some moment is a suffix of what is listed
    at any later moment. *)
Theorem listed_reports_have_file_names (actions more : list action) :
  let st := run initial actions in
  Forall (fun r => GeneratedReport.filename r ≠ []) (generatedReports st)
  ∧ generatedReports st `suffix_of` generatedReports (run st more).
Proof.
  split; [|apply run_reports].
  apply (run_invariant
           (fun st => Forall (fun r => GeneratedReport.filename r ≠ [])
                             (generatedReports st))); [|by constructor].
  intros st a Hst.
  destruct (step_reports st a) as [->|(r & Hr & ->)]; [done|].
  by constructor.
Qed.

Lemma tick_resume_no_interval st c o :
  intervals st = ∅ → intervals (tick_resume st c o) = ∅.
Proof.
  intros He.
  assert (Hc : intervals (clear_current st) = ∅).
  { unfold clear_current. destruct (pollingIntervalRef st); [|done].
    cbn. rewrite He. apply delete_empty. }
  unfold tick_resume. destruct o as [response|]; [|done].
  destruct (Types.data response) as [task|]; [|done].
  destruct (eqb _ (js "completed")).
  { unfold on_completed.
    destruct (Api.ReportTaskStatus.result task) as [r|];
      try destruct (truthy (Api.report_filename r)); done. }
  destruct (eqb _ (js "failed")); done.
Qed.

(** X15.  When the page is unmounted while no submission is waiting
    for its answer, the cleanup is enough: from then on no interval is
    registered and no request is sent, whatever happens. *)
Theorem cleanup_stops_the_poller (actions more : list action) :
  let st := run initial actions in
  mounted st = true →
  Forall (fun k => submitting k = false) (awaiting st) →
  let st' := run st (Unmount :: more) in
  intervals st' = ∅ ∧ calls st' = calls st ∧ mounted st' = false.
Proof.
  intros st Hm Hw st'. subst st'. cbn [run foldl step]. rewrite Hm.
  assert (Ht : tidy st).
  { apply tidy_run. intros id. cbn. rewrite lookup_empty. by intros [? ?]. }
  destruct (clear_current_keeps st) as (_ & _ & _ & _ & _ & Ha & Hc & _).
  assert (H0 : intervals (unmount st) = ∅
               ∧ calls (unmount st) = calls st
               ∧ mounted (unmount st) = false
               ∧ Forall (fun k => submitting k = false) (awaiting (unmount st))).
  { unfold unmount. cbn. rewrite Ha, Hc. split; [|done].
    by apply clear_current_empty. }
  clear Ha Hc.
  assert (H : let s := run (unmount st) more in
              intervals s = ∅ ∧ calls s = calls st ∧ mounted s = false
              ∧ Forall (fun k => submitting k = false) (awaiting s)).
  { apply (run_invariant
             (fun s => intervals s = ∅ ∧ calls s = calls st ∧ mounted s = false
                       ∧ Forall (fun k => submitting k = false) (awaiting s)));
      [|exact H0].
    clear. intros s a (Hi & Hc & Hm & Hw).
    destruct a as [x|x|x| |i|n o|n o|]; cbn [step]; rewrite ?Hm; try done.
    - by rewrite Hi, lookup_empty.
    - destruct (awaiting s !! n) as [[c|c t]|] eqn:Hn; [|done..].
      by apply (Forall_lookup_1 _ _ _ _ Hw) in Hn.
    - destruct (awaiting s !! n) as [[c|c t]|] eqn:Hn; [done| |done].
      destruct (tick_resume_calls (resumed n s) c o) as (-> & -> & ->).
      rewrite tick_resume_no_interval by done.
      cbn. repeat split; try done. by apply Forall_delete. }
  cbv zeta in H. fold (run (unmount st) more).
  by destruct H as (? & ? & ? & _).
Qed.

Lemma cleanup_stops_the_poller_witness :
  let actions := Samples.submitted ++ [Timer 1] in
  let more := [StatusSettles 0 Samples.unknown_task; Timer 1; ClickGenerate] in
  let st := run initial actions in
  mounted st = true
  ∧ Forall (fun k => submitting k = false) (awaiting st)
  ∧ size (intervals st) = 1%nat
  ∧ (let st' := run st (Unmount :: more) in
     intervals st' = ∅ ∧ calls st' = calls st ∧ mounted st' = false).
Proof.
  intros actions more st.
  assert (H1 : mounted st = true) by reflexivity.
  assert (H2 : Forall (fun k => submitting k = false) (awaiting st))
    by (vm_compute; repeat constructor).
  assert (H3 : size (intervals st) = 1%nat) by (vm_compute; reflexivity).
  split; [exact H1|]. split; [exact H2|]. split; [exact H3|].
  exact (cleanup_stops_the_poller actions more H1 H2).
Defined.

End PageInvariants.

(** ** The poller of the Reports page *)

Section Polling.
Import JS Reports.







End Polling.

(** ** The chat page *)

Section ChatPage.
Import JS Chat.

Lemma in_view_keeps k f st :
  app (in_view k f st) = app st
  ∧ streams (in_view k f st) = streams st
  ∧ mounted (in_view k f st) = mounted st
  ∧ instance (in_view k f st) = instance st.
Proof. unfold in_view. by destruct (_ && _). Qed.

Lemma app_in_view k f st : app (in_view k f st) = app st.
Proof. apply in_view_keeps. Qed.

Lemma streams_in_view k f st : streams (in_view k f st) = streams st.
Proof. apply in_view_keeps. Qed.

Lemma streams_now f st : streams (now f st) = streams st.
Proof. apply in_view_keeps. Qed.

(** What an event does to the conversation. *)
Lemma on_event_chatMessages s st e :
  chatMessages (app (on_event s st e))
  = chatMessages (app st) ++ option_list (reply (env s) e).
Proof.
  unfold on_event, reply.
  destruct (Api.ChatStreamEvent.type e); cbn [option_list];
    rewrite ?app_nil_r, ?app_in_view;
    repeat match goal with
           | |- context [if ?b then _ else _] => destruct b
           end;
    rewrite ?app_in_view; cbn; rewrite ?app_in_view, ?app_nil_r; done.
Qed.

Lemma foldl_on_event_chatMessages s st es :
  chatMessages (app (foldl (on_event s) st es))
  = chatMessages (app st) ++ omap (reply (env s)) es.
Proof.
  revert st. induction es as [|e es IH]; intros st; cbn [foldl omap list_omap].
  - by rewrite app_nil_r.
  - rewrite IH, on_event_chatMessages, <- app_assoc. f_equal.
    by destruct (reply (env s) e).
Qed.

(** X16.  A question that is submitted starts one stream, whose
    [cancel] the ref takes, and adds the user's message.  Whatever
    events the stream then delivers, the conversation grows by one
    message for each event of type complete or error and by nothing
    else, in the order of the events.  The text of a message comes from
    the event, or else from what the page was showing when the question
    was submitted: the chunks that are streamed during the turn are
    shown while they arrive, but never stored. *)
Theorem streamed_text_is_not_stored
    (st : state) (es : list Api.ChatStreamEvent.t) :
  mounted st = true → isChatLoading (app st) = false →
  trim (input (view st)) ≠ [] →
  let c := {| seen_streamingContent := streamingContent (view st);
              seen_currentTools := currentTools (view st) |} in
  ∃ s, streams (handleSubmit st) = streams st ++ [s]
       ∧ query s = trim (input (view st))
       ∧ cancelRef (view (handleSubmit st)) = Some (length (streams st))
       ∧ chatMessages (app (foldl (on_event s) (handleSubmit st) es))
         = chatMessages (app st)
           ++ {| role := user; content := trim (input (view st));
                 tools_used := None |}
           :: omap (reply c) es.
Proof.
  intros Hm Hl Hq c.
  exists {| query := trim (input (view st));
            sessionId := if truthy_opt (chatSessionId (app st))
                         then chatSessionId (app st) else None;
            owner := instance st; env := c; connection := Api.initial |}.
  rewrite foldl_on_event_chatMessages.
  unfold handleSubmit. rewrite Hl.
  assert (Ht : truthy (trim (input (view st))) = true)
    by (by destruct (trim (input (view st)))).
  rewrite Ht. cbn [negb orb]. unfold now, in_view. cbn. rewrite Hm.
  rewrite !bool_decide_eq_true_2 by done. cbn.
  split; [reflexivity|]. split; [done|]. split; [done|].
  by rewrite <- app_assoc.
Qed.

Lemma streamed_text_is_not_stored_witness :
  let st := Samples.asked in
  let es := [Samples.event Api.ChatStreamEvent.content (Some (js "Stripe"));
             Samples.event Api.ChatStreamEvent.complete None] in
  let c := {| seen_streamingContent := streamingContent (view st);
              seen_currentTools := currentTools (view st) |} in
  mounted st = true
  ∧ isChatLoading (app st) = false
  ∧ trim (input (view st)) ≠ []
  ∧ omap (reply c) es
    = [{| role := assistant; content := []; tools_used := Some [] |}]
  ∧ ∃ s, streams (handleSubmit st) = streams st ++ [s]
         ∧ query s = trim (input (view st))
         ∧ cancelRef (view (handleSubmit st)) = Some (length (streams st))
         ∧ chatMessages (app (foldl (on_event s) (handleSubmit st) es))
           = chatMessages (app st)
             ++ {| role := user; content := trim (input (view st));
                   tools_used := None |}
             :: omap (reply c) es.
Proof.
  intros st es c.
  assert (H1 : mounted st = true) by reflexivity.
  assert (H2 : isChatLoading (app st) = false) by reflexivity.
  assert (H3 : trim (input (view st)) ≠ []) by (vm_compute; discriminate).
  split; [exact H1|]. split; [exact H2|]. split; [exact H3|].
  split; [vm_compute; reflexivity|].
  exact (streamed_text_is_not_stored st es H1 H2 H3).
Defined.

(** What the callback may touch. *)
Lemma on_event_keeps s st e :
  streams (on_event s st e) = streams st
  ∧ mounted (on_event s st e) = mounted st
  ∧ instance (on_event s st e) = instance st
  ∧ (cancelRef (view (on_event s st e)) = cancelRef (view st)
     ∨ cancelRef (view (on_event s st e)) = None).
Proof.
  unfold on_event, in_view, in_store, reset_streaming.
  destruct (Api.ChatStreamEvent.type e);
    repeat match goal with
           | |- context [if ?b then _ else _] => destruct b; cbn
           end; auto.
Qed.

Lemma receive_keeps s st v st' :
  receive s st v = Some st' →
  streams st' = streams st
  ∧ mounted st' = mounted st
  ∧ instance st' = instance st
  ∧ (cancelRef (view st') = cancelRef (view st) ∨ cancelRef (view st') = None).
Proof.
  unfold receive. destruct (Api.typed v) as [e|].
  - intros [= <-]. apply on_event_keeps.
  - destruct v; try destruct (Api.no_case _); intros [= <-]; auto.
Qed.

Lemma receive_all_keeps s st vs st' :
  receive_all s st vs = Some st' →
  streams st' = streams st
  ∧ mounted st' = mounted st
  ∧ instance st' = instance st
  ∧ (cancelRef (view st') = cancelRef (view st) ∨ cancelRef (view st') = None).
Proof.
  revert st. induction vs as [|v vs IH]; intros st; cbn [receive_all].
  - intros [= <-]. auto.
  - destruct (receive s st v) as [st1|] eqn:H1; [|done]. cbn.
    intros H2. apply receive_keeps in H1 as (Ha1 & Hb1 & Hc1 & Hd1).
    apply IH in H2 as (Ha2 & Hb2 & Hc2 & Hd2).
    rewrite Ha2, Hb2, Hc2, Ha1, Hb1, Hc1. repeat split; try done.
    destruct Hd2 as [-> | ->]; auto.
Qed.

(** A step changes the streams only by what it does to a connection,
    or by starting one stream. *)
Lemma alter_connection_Forall (P : stream → Prop) i conn l :
  (∀ s c, P s → P {| query := query s; sessionId := sessionId s;
                     owner := owner s; env := env s; connection := c |}) →
  Forall P l →
  Forall P (alter (fun s => {| query := query s; sessionId := sessionId s;
                               owner := owner s; env := env s;
                               connection := conn |}) i l).
Proof. intros HP Hl. apply Forall_alter; [done|]. intros s _. apply HP. Qed.

Lemma step_streams (P : stream → Prop) st a st' :
  (∀ s c, P s → P {| query := query s; sessionId := sessionId s;
                     owner := owner s; env := env s; connection := c |}) →
  (∀ s, query s ≠ [] → trim (query s) = query s → sessionId s ≠ Some [] →
        connection s = Api.initial → P s) →
  step st a = Some st' → Forall P (streams st) → Forall P (streams st').
Proof.
  intros Hconn Hnew.
  assert (Habort : ∀ i s, Forall P (streams s) → Forall P (streams (abort i s))).
  { intros i s Hs. unfold abort. destruct (streams s !! i); [|done].
    cbn. by apply alter_connection_Forall. }
  destruct a as [x| | | |i inp| |]; cbn [step].
  - intros [= <-]. destruct (mounted st); [|done]. by rewrite streams_now.
  - intros [= <-] Hst. destruct (mounted st) eqn:Hm; [|done].
    unfold handleSubmit.
    destruct (negb _ || _) eqn:Hg; [done|].
    apply orb_false_iff in Hg as [Ht Hl]. apply negb_false_iff in Ht.
    rewrite streams_now. cbn [streams]. rewrite !streams_now. cbn [streams in_store].
    rewrite streams_now. cbn [streams in_store].
    apply Forall_app. split; [done|]. constructor; [|done].
    apply Hnew; cbn; try done.
    + by destruct (trim (input (view st))).
    + apply trim_idem.
    + by destruct (chatSessionId (app st)) as [[|]|].
  - intros [= <-] Hst. destruct (mounted st); [|done].
    unfold handleCancel. destruct (cancelRef (view st)) as [i|]; [|done].
    rewrite streams_now. cbn [streams in_store]. rewrite streams_now.
    by apply Habort.
  - intros [= <-]. by destruct (mounted st).
  - unfold network. intros Hn Hst.
    destruct inp; try (by inversion Hn; subst);
      (destruct (streams st !! i) as [s|] eqn:Hi; [|by inversion Hn; subst]);
      destruct (Api.step _ _ _) as [conn out];
      apply receive_all_keeps in Hn as (-> & _); cbn;
      by apply alter_connection_Forall.
  - intros [= <-] Hst. destruct (mounted st); [|done].
    unfold unmount. cbn. destruct (cancelRef (view st)); [|done].
    by apply Habort.
  - intros [= <-]. by destruct (mounted st).
Qed.

Lemma run_streams (P : stream → Prop) st actions st' :
  (∀ s c, P s → P {| query := query s; sessionId := sessionId s;
                     owner := owner s; env := env s; connection := c |}) →
  (∀ s, query s ≠ [] → trim (query s) = query s → sessionId s ≠ Some [] →
        connection s = Api.initial → P s) →
  run st actions = Some st' → Forall P (streams st) → Forall P (streams st').
Proof.
  intros Hconn Hnew. revert st.
  induction actions as [|a actions IH]; intros st; cbn [run].
  - by intros [= <-].
  - destruct (step st a) as [st1|] eqn:H1; [|done]. cbn. intros H2 Hst.
    apply (IH st1 H2). by apply (step_streams P st a st1).
Qed.

(** X17.  Every stream the chat page ever starts asks a question that
    is not empty and is trimmed, and carries either no session
    identifier or one that is not empty. *)
Theorem streams_carry_a_question (actions : list action) (st : state) :
  run initial actions = Some st →
  Forall (fun s => query s ≠ [] ∧ trim (query s) = query s
                   ∧ sessionId s ≠ Some [])
         (streams st).
Proof.
  intros Hrun.
  apply (run_streams _ initial actions st); [| |done|by constructor].
  - by intros s c.
  - by intros s.
Qed.

Lemma streams_carry_a_question_witness :
  let actions := [Type_ (js " What is Stripe? "); Submit] in
  run initial actions = Some Samples.mid_turn
  ∧ query <$> streams Samples.mid_turn = [js "What is Stripe?"]
  ∧ Forall (fun s => query s ≠ [] ∧ trim (query s) = query s
                     ∧ sessionId s ≠ Some [])
           (streams Samples.mid_turn).
Proof.
  intros actions.
  assert (H : run initial actions = Some Samples.mid_turn)
    by (vm_compute; reflexivity).
  split; [exact H|]. split; [vm_compute; reflexivity|].
  exact (streams_carry_a_question actions Samples.mid_turn H).
Defined.

Lemma cancel_finishes onEvent (c : Api.state) :
  ∃ how, Api.at_ (fst (Api.step onEvent c Api.Cancel)) = Api.Finished how.
Proof.
  unfold Api.step. destruct (Api.at_ c) eqn:Hc; cbn; eauto.
Qed.

Lemma set_connection_same i s st :
  streams st !! i = Some s → set_connection i (connection s) st = st.
Proof.
  intros Hi. unfold set_connection. destruct st as [a v m k l]. cbn in *.
  f_equal. apply list_eq. intros j. rewrite list_lookup_alter.
  case_decide as Hj; [|done]. subst j. rewrite Hi. cbn. by destruct s.
Qed.

(** A stream that has ended does nothing more to the page. *)
Lemma network_finished i inp st :
  (∀ s, streams st !! i = Some s →
        ∃ how, Api.at_ (connection s) = Api.Finished how) →
  network i inp st = Some st.
Proof.
  intros Hf. unfold network.
  destruct (streams st !! i) as [s|] eqn:Hi; [|by destruct inp].
  destruct (Hf s eq_refl) as [how Hhow].
  assert (Hstep : Api.step (Some Api.switch_on_type) (connection s) inp
                  = (connection s, [])).
  { unfold Api.step. by rewrite Hhow. }
  destruct inp; try done; rewrite Hstep; cbn;
    by rewrite set_connection_same.
Qed.

Lemma abort_finished i st j s :
  streams (abort i st) !! j = Some s →
  (∃ how, Api.at_ (connection s) = Api.Finished how)
  ∨ (j ≠ i ∧ streams st !! j = Some s).
Proof.
  unfold abort. destruct (streams st !! i) as [x|] eqn:Hi.
  - cbn. rewrite list_lookup_alter. case_decide as Hj.
    + subst j. rewrite Hi. cbn. intros [= <-]. left. cbn.
      apply cancel_finishes.
    + intros Hs. right. split; [congruence|done].
  - intros Hs. right. split; [|done]. intros ->. congruence.
Qed.

Lemma abort_keeps i st :
  app (abort i st) = app st ∧ view (abort i st) = view st
  ∧ mounted (abort i st) = mounted st ∧ instance (abort i st) = instance st
  ∧ length (streams (abort i st)) = length (streams st).
Proof.
  unfold abort. destruct (streams st !! i); [|done].
  cbn. by rewrite length_alter.
Qed.

(** X18.  The stop button ends the turn for good: loading is over,
    the ref is cleared, the streamed text is dropped, no message is
    added, and nothing the network does to the cancelled stream changes
    the page any more. *)
Theorem cancelled_turn_stays_silent
    (st : state) (i : nat) (inputs : list Api.input) :
  mounted st = true → cancelRef (view st) = Some i →
  let st' := handleCancel st in
  isChatLoading (app st') = false
  ∧ cancelRef (view st') = None
  ∧ streamingContent (view st') = []
  ∧ chatMessages (app st') = chatMessages (app st)
  ∧ run st' (Network i <$> inputs) = Some st'.
Proof.
  intros Hm Hc st'. subst st'. unfold handleCancel. rewrite Hc.
  destruct (abort_keeps i st) as (Ha & Hv & Hm' & Hk & _).
  unfold now, in_view. cbn. rewrite Hm', Hk, Hm, Ha.
  rewrite !bool_decide_eq_true_2 by done. cbn.
  do 4 (split; [done|]).
  induction inputs as [|inp inputs IH]; [done|].
  cbn [fmap list_fmap run step].
  rewrite network_finished; [exact IH|].
  cbn. intros s Hs. apply abort_finished in Hs as [Hs|[Hne _]]; done.
Qed.

Lemma cancelled_turn_stays_silent_witness :
  let st := Samples.mid_turn in
  let inputs := [Api.Response true 200 true;
                 Api.Chunk (Samples.line "data: {'type':'end'}")] in
  mounted st = true
  ∧ cancelRef (view st) = Some 0%nat
  ∧ isChatLoading (app st) = true
  ∧ (let st' := handleCancel st in
     isChatLoading (app st') = false
     ∧ cancelRef (view st') = None
     ∧ streamingContent (view st') = []
     ∧ chatMessages (app st') = chatMessages (app st)
     ∧ run st' (Network 0 <$> inputs) = Some st').
Proof.
  intros st inputs.
  assert (H1 : mounted st = true) by reflexivity.
  assert (H2 : cancelRef (view st) = Some 0%nat) by reflexivity.
  split; [exact H1|]. split; [exact H2|]. split; [reflexivity|].
  exact (cancelled_turn_stays_silent st 0 inputs H1 H2).
Defined.

Lemma ended_finished j st :
  ended j st = true →
  ∀ s, streams st !! j = Some s →
       ∃ how, Api.at_ (connection s) = Api.Finished how.
Proof.
  unfold ended. intros H s Hs. rewrite Hs in H.
  destruct (Api.at_ (connection s)); [done..|]. eauto.
Qed.

Lemma ended_streams j st st' :
  streams st' = streams st → ended j st' = ended j st.
Proof. unfold ended. by intros ->. Qed.

(** A page that is loading and holds no [cancel] stays so, as long as
    the network speaks to streams that have ended only. *)
Lemma stuck_step st a :
  isChatLoading (app st) = true →
  (mounted st = true → cancelRef (view st) = None) →
  (∀ j inp, a = Network j inp → ended j st = true) →
  ∃ st', step st a = Some st'
         ∧ isChatLoading (app st') = true
         ∧ (mounted st' = true → cancelRef (view st') = None)
         ∧ streams st' = streams st.
Proof.
  intros Hl Hc Hf.
  assert (Hst : ∃ st', Some st = Some st'
                 ∧ isChatLoading (app st') = true
                 ∧ (mounted st' = true → cancelRef (view st') = None)
                 ∧ streams st' = streams st) by (by exists st).
  destruct a as [x| | | |i inp| |]; cbn [step].
  - destruct (mounted st) eqn:Hm; [|exact Hst].
    eexists. split; [done|].
    unfold now, in_view. rewrite Hm, bool_decide_eq_true_2 by done. cbn.
    auto.
  - destruct (mounted st); [|exact Hst].
    unfold handleSubmit. by rewrite Hl, orb_true_r.
  - destruct (mounted st) eqn:Hm; [|exact Hst].
    unfold handleCancel. by rewrite Hc.
  - destruct (mounted st) eqn:Hm; [|exact Hst].
    eexists. split; [done|]. cbn. auto.
  - rewrite network_finished; [exact Hst|].
    apply ended_finished. by apply (Hf i inp).
  - destruct (mounted st) eqn:Hm; [|exact Hst].
    eexists. split; [done|]. unfold unmount. rewrite Hc by done. cbn.
    repeat split; try done.
  - destruct (mounted st) eqn:Hm; [exact Hst|].
    eexists. split; [done|]. cbn. auto.
Qed.

Lemma stuck_run st actions :
  isChatLoading (app st) = true →
  (mounted st = true → cancelRef (view st) = None) →
  Forall (fun a => ∀ j inp, a = Network j inp → ended j st = true) actions →
  ∃ st', run st actions = Some st'
         ∧ isChatLoading (app st') = true
         ∧ (mounted st' = true → cancelRef (view st') = None)
         ∧ streams st' = streams st.
Proof.
  revert st. induction actions as [|a actions IH]; intros st Hl Hc Hf.
  - by exists st.
  - inversion Hf as [|? ? Ha Hrest]; subst.
    destruct (stuck_step st a Hl Hc Ha) as (st1 & Hs & Hl1 & Hc1 & Hst).
    destruct (IH st1 Hl1 Hc1) as (st' & Hr & ? & ? & Hst').
    { eapply Forall_impl; [exact Hrest|]. intros b Hb j inp Hj.
      rewrite (ended_streams j st st1 Hst). by apply (Hb j inp). }
    exists st'. cbn [run]. rewrite Hs. cbn. rewrite Hst', Hst. done.
Qed.

Lemma ended_abort i st j :
  bool_decide (j = i) || ended j st = true → ended j (abort i st) = true.
Proof.
  intros H. unfold ended.
  destruct (streams (abort i st) !! j) as [s|] eqn:Hs; [|done].
  apply abort_finished in Hs as [[how ->]|[Hne Hs]]; [done|].
  apply orb_true_iff in H as [H|H].
  - by apply bool_decide_eq_true in H.
  - unfold ended in H. by rewrite Hs in H.
Qed.

(** X19.  The loading flag lives in the store and the [cancel] in the
    component.  When the page is left in the middle of a turn, the
    cleanup cancels the stream of that turn, and the flag stays set.
    From then on the flag stays set whatever the user does and whatever
    happens to the cancelled stream or to a stream that had ended: on
    the page that is mounted again the ref is empty, so the stop button
    does nothing, a question cannot be submitted and no stream is
    started.  What is left out is the network speaking to another
    stream that was still open when the page was left, such as the
    stream of an earlier turn that the server has not closed. *)
Theorem leaving_mid_turn_leaves_the_page_loading
    (st : state) (i : nat) (actions : list action) :
  mounted st = true → cancelRef (view st) = Some i →
  isChatLoading (app st) = true →
  Forall (fun a => spares i st a = true) actions →
  ∃ st', run st (Unmount :: actions) = Some st'
         ∧ isChatLoading (app st') = true
         ∧ (mounted st' = true → cancelRef (view st') = None)
         ∧ streams st' = streams (abort i st)
         ∧ length (streams st') = length (streams st)
         ∧ ended i st' = true.
Proof.
  intros Hm Hc Hl Hf. cbn [run step]. rewrite Hm. cbn.
  destruct (abort_keeps i st) as (Ha & Hv & Hm' & Hk & Hlen).
  assert (Hs : streams (unmount st) = streams (abort i st)).
  { unfold unmount. by rewrite Hc. }
  destruct (stuck_run (unmount st) actions) as (st' & Hr & Hl' & Hc' & Hst).
  - unfold unmount. rewrite Hc. cbn. by rewrite Ha.
  - done.
  - eapply Forall_impl; [exact Hf|]. intros a Ha' j inp ->.
    rewrite (ended_streams j (abort i st) (unmount st) Hs).
    by apply ended_abort.
  - exists st'. split; [done|]. split; [done|]. split; [done|].
    rewrite Hst, Hs. split; [done|]. split; [done|].
    rewrite (ended_streams i (abort i st) st') by (by rewrite Hst).
    apply ended_abort. by rewrite bool_decide_eq_true_2.
Qed.

Lemma leaving_mid_turn_leaves_the_page_loading_witness :
  let st := Samples.during_second_turn in
  let actions := [Mount; Type_ (js "Hello?"); Submit; ClickCancel;
                  Network 1 (Api.Response true 200 true);
                  Network 1 (Api.Chunk (Samples.line "data: {'type':'end'}"));
                  ClearHistory] in
  run initial Samples.second_turn = Some st
  ∧ mounted st = true
  ∧ cancelRef (view st) = Some 1%nat
  ∧ isChatLoading (app st) = true
  ∧ ended 0 st = false
  ∧ Forall (fun a => spares 1 st a = true) actions
  ∧ ∃ st', run st (Unmount :: actions) = Some st'
           ∧ isChatLoading (app st') = true
           ∧ (mounted st' = true → cancelRef (view st') = None)
           ∧ streams st' = streams (abort 1 st)
           ∧ length (streams st') = length (streams st)
           ∧ ended 1 st' = true.
Proof.
  intros st actions.
  assert (H0 : run initial Samples.second_turn = Some st)
    by (vm_compute; reflexivity).
  assert (H1 : mounted st = true) by (vm_compute; reflexivity).
  assert (H2 : cancelRef (view st) = Some 1%nat) by (vm_compute; reflexivity).
  assert (H3 : isChatLoading (app st) = true) by (vm_compute; reflexivity).
  assert (H4 : ended 0 st = false) by (vm_compute; reflexivity).
  assert (H5 : Forall (fun a => spares 1 st a = true) actions)
    by (repeat (constructor; [vm_compute; reflexivity|]); constructor).
  split; [exact H0|]. split; [exact H1|]. split; [exact H2|].
  split; [exact H3|]. split; [exact H4|]. split; [exact H5|].
  exact (leaving_mid_turn_leaves_the_page_loading st 1 actions H1 H2 H3 H5).
Defined.

(** Without the condition on the network the flag does not stay: the
    stream of the first turn, left open by the server after its error
    event, ends the loading of the second turn after the page was left
    in the middle of it. *)
Example an_open_stream_ends_the_loading :
  let st := run initial Samples.second_turn in
  let st' :=
    run initial
      (Samples.second_turn
       ++ [Unmount;
           Network 0 (Api.Chunk (Samples.line "data: {'type':'end'}"))]) in
  mounted <$> st = Some true
  ∧ (fun s => cancelRef (view s)) <$> st = Some (Some 1%nat)
  ∧ (fun s => isChatLoading (app s)) <$> st = Some true
  ∧ ended 0 <$> st = Some false
  ∧ (fun s => isChatLoading (app s)) <$> st' = Some false.
Proof. vm_compute. done. Qed.

(** [handleSubmit] on a question, when the page is not loading. *)
Lemma handleSubmit_starts st :
  mounted st = true → isChatLoading (app st) = false →
  trim (input (view st)) ≠ [] →
  handleSubmit st
  = {| app := setIsChatLoading true
                (addChatMessage
                   {| role := user; content := trim (input (view st));
                      tools_used := None |} (app st));
       view := set_cancelRef (Some (length (streams st)))
                 (reset_streaming (setInput [] (view st)));
       mounted := true; instance := instance st;
       streams :=
         streams st
         ++ [ {| query := trim (input (view st));
                 sessionId := if truthy_opt (chatSessionId (app st))
                              then chatSessionId (app st) else None;
                 owner := instance st;
                 env := {| seen_streamingContent := streamingContent (view st);
                           seen_currentTools := currentTools (view st) |};
                 connection := Api.initial |} ] |}.
Proof.
  intros Hm Hl Hq.
  assert (Ht : truthy (trim (input (view st))) = true)
    by (by destruct (trim (input (view st)))).
  unfold handleSubmit. rewrite Hl, Ht. cbn [negb orb].
  unfold now, in_view. cbn. rewrite Hm.
  rewrite !bool_decide_eq_true_2 by done. reflexivity.
Qed.

(** The callback on an event of type error, while the instance that
    asked is on the page. *)
Lemma on_event_error s st e :
  Api.ChatStreamEvent.type e = Api.ChatStreamEvent.error →
  mounted st = true → owner s = instance st →
  on_event s st e
  = {| app := setIsChatLoading false
                (addChatMessage
                   {| role := assistant;
                      content :=
                        js "I apologize, but I encountered an error: "
                        ++ template (Api.ChatStreamEvent.message e);
                      tools_used := None |} (app st));
       view := set_cancelRef None (reset_streaming (view st));
       mounted := true; instance := instance st; streams := streams st |}.
Proof.
  intros He Hm Ho. unfold on_event. rewrite He, Ho.
  unfold in_view, in_store.
  cbn [app view mounted instance streams].
  repeat (rewrite ?Hm, ?bool_decide_eq_true_2 by done;
          cbn [andb app view mounted instance streams]).
  reflexivity.
Qed.

(** X20.  A turn of the chat on a response that is not ok, end to
    end: the conversation gains the question and one apology that
    quotes the words Error: HTTP error! status: and the status; loading
    is over, the ref is cleared and the input is empty. *)
Theorem chat_turn_ends_on_an_http_error
    (st : state) (status : N) (has_body : bool) :
  mounted st = true → isChatLoading (app st) = false →
  trim (input (view st)) ≠ [] →
  ∃ st',
    run st [Submit;
            Network (length (streams st)) (Api.Response false status has_body)]
    = Some st'
    ∧ chatMessages (app st')
      = chatMessages (app st)
        ++ [ {| role := user; content := trim (input (view st));
                tools_used := None |};
             {| role := assistant;
                content :=
                  js "I apologize, but I encountered an error: Error: HTTP error! status: "
                  ++ of_N status;
                tools_used := None |} ]
    ∧ isChatLoading (app st') = false
    ∧ cancelRef (view st') = None
    ∧ input (view st') = []
    ∧ streamingContent (view st') = [].
Proof.
  intros Hm Hl Hq.
  cbn [run step]. rewrite Hm. cbn [mbind option_bind].
  rewrite (handleSubmit_starts st Hm Hl Hq).
  unfold network. cbn [streams]. rewrite list_lookup_middle by done.
  cbn [connection]. unfold Api.step. cbn [Api.at_ Api.initial negb].
  rewrite catch_reports by done.
  cbn [Api.events omap list_omap receive_all].
  unfold receive. rewrite typed_error_event.
  cbn [mbind option_bind]. eexists. split; [reflexivity|].
  rewrite on_event_error by done.
  cbn [app view chatMessages isChatLoading cancelRef input streamingContent
       setIsChatLoading addChatMessage set_cancelRef reset_streaming
       setCurrentTools setStreamingStatus setStreamingContent setInput
       set_connection].
  split; [|done]. rewrite <- app_assoc. reflexivity.
Qed.

Lemma chat_turn_ends_on_an_http_error_witness :
  let st := Samples.asked in
  mounted st = true
  ∧ isChatLoading (app st) = false
  ∧ trim (input (view st)) ≠ []
  ∧ ∃ st',
      run st [Submit;
              Network (length (streams st)) (Api.Response false 500 true)]
      = Some st'
      ∧ chatMessages (app st')
        = chatMessages (app st)
          ++ [ {| role := user; content := trim (input (view st));
                  tools_used := None |};
               {| role := assistant;
                  content :=
                    js "I apologize, but I encountered an error: Error: HTTP error! status: "
                    ++ of_N 500;
                  tools_used := None |} ]
      ∧ isChatLoading (app st') = false
      ∧ cancelRef (view st') = None
      ∧ input (view st') = []
      ∧ streamingContent (view st') = [].
Proof.
  intros st.
  assert (H1 : mounted st = true) by reflexivity.
  assert (H2 : isChatLoading (app st) = false) by reflexivity.
  assert (H3 : trim (input (view st)) ≠ []) by (vm_compute; discriminate).
  split; [exact H1|]. split; [exact H2|]. split; [exact H3|].
  exact (chat_turn_ends_on_an_http_error st 500 true H1 H2 H3).
Defined.

(** The callback of a stream depends on the stream only through the
    instance that started it and what it closed over. *)
Lemma on_event_ext s s' st e :
  owner s = owner s' → env s = env s' → on_event s st e = on_event s' st e.
Proof. intros Ho He. unfold on_event. by rewrite Ho, He. Qed.

Lemma receive_all_typed s st vs es :
  mapM Api.typed vs = Some es →
  receive_all s st vs = Some (foldl (on_event s) st es).
Proof.
  revert st es. induction vs as [|v vs IH]; intros st es; cbn [mapM receive_all].
  - by intros [= <-].
  - unfold receive. destruct (Api.typed v) as [e|]; [|done]. cbn.
    destruct (mapM Api.typed vs) as [es'|]; [|done]. cbn.
    intros [= <-]. cbn [foldl]. by apply IH.
Qed.

Lemma foldl_on_event_keeps s st es :
  streams (foldl (on_event s) st es) = streams st.
Proof.
  revert st. induction es as [|e es IH]; intros st; [done|].
  cbn [foldl]. rewrite IH. apply on_event_keeps.
Qed.

(** When loading ends. *)
Lemma on_event_isChatLoading s st e :
  isChatLoading (app (on_event s st e))
  = if Protocol.settles e then false else isChatLoading (app st).
Proof.
  unfold on_event, Protocol.settles.
  destruct (Api.ChatStreamEvent.type e);
    rewrite ?app_in_view;
    repeat match goal with
           | |- context [if ?b then _ else _] => destruct b
           end;
    rewrite ?app_in_view; cbn; rewrite ?app_in_view; done.
Qed.

Lemma foldl_on_event_isChatLoading s st es :
  isChatLoading (app (foldl (on_event s) st es))
  = if existsb Protocol.settles es then false else isChatLoading (app st).
Proof.
  revert st. induction es as [|e es IH]; intros st; [done|].
  cbn [foldl existsb]. rewrite IH, on_event_isChatLoading.
  by destruct (Protocol.settles e), (existsb Protocol.settles es).
Qed.

Lemma mapM_typed_app vs1 vs2 es :
  mapM Api.typed (vs1 ++ vs2) = Some es →
  ∃ es1 es2, es = es1 ++ es2 ∧ mapM Api.typed vs1 = Some es1
             ∧ mapM Api.typed vs2 = Some es2.
Proof.
  rewrite mapM_Some. intros H. apply Forall2_app_inv_l in H
    as (es1 & es2 & H1 & H2 & ->).
  exists es1, es2. by rewrite !mapM_Some.
Qed.

(** X25.  The chat page follows the stream.  However the network
    feeds a stream, when the events [fetchSSE] delivers have the type
    of the interface, the page ends where the callback, folded over
    those events in order, takes it: the conversation grows by the
    replies to the complete and error events, loading ends exactly if
    an end or error event was among them, and the stream is where
    [fetchSSE] left it. *)
Theorem page_follows_the_stream
    (st : state) (i : nat) (s : stream) (inputs : list Api.input)
    (es : list Api.ChatStreamEvent.t) :
  streams st !! i = Some s → Api.Cancel ∉ inputs →
  let r := Api.fetchSSE (Some Api.switch_on_type) (connection s) inputs in
  mapM Api.typed (Api.events (snd r)) = Some es →
  ∃ st', run st (Network i <$> inputs) = Some st'
         ∧ chatMessages (app st')
           = chatMessages (app st) ++ omap (reply (env s)) es
         ∧ isChatLoading (app st')
           = (if existsb Protocol.settles es then false
              else isChatLoading (app st))
         ∧ connection <$> streams st' !! i = Some (fst r).
Proof.
  intros Hi Hno r. subst r. revert st s es Hi.
  induction inputs as [|inp inputs IH]; intros st s es Hi.
  - cbn. intros [= <-]. exists st. rewrite app_nil_r, Hi. done.
  - apply not_elem_of_cons in Hno as [Hinp Hno].
    cbn [Api.fetchSSE fmap list_fmap run step].
    assert (Hnet : network i inp st
                   = let '(conn, out) :=
                       Api.step (Some Api.switch_on_type) (connection s) inp in
                     receive_all s (set_connection i conn st) (Api.events out)).
    { unfold network. rewrite Hi. by destruct inp. }
    rewrite Hnet. clear Hnet.
    destruct (Api.step _ (connection s) inp) as [conn out1].
    specialize (IH Hno).
    destruct (Api.fetchSSE _ conn inputs) as [conn2 out2] eqn:Hrest.
    cbn [fst snd]. rewrite events_app. intros Hes.
    apply mapM_typed_app in Hes as (es1 & es2 & -> & H1 & H2).
    rewrite (receive_all_typed _ _ _ _ H1). cbn [mbind option_bind].
    set (s1 := {| query := query s; sessionId := sessionId s; owner := owner s;
                  env := env s; connection := conn |}).
    set (st1 := foldl (on_event s) (set_connection i conn st) es1).
    assert (Hi1 : streams st1 !! i = Some s1).
    { subst st1. rewrite foldl_on_event_keeps. cbn.
      by rewrite list_lookup_alter_eq, Hi. }
    destruct (IH st1 s1 es2 Hi1) as (st' & Hrun & Hmsg & Hload & Hconn).
    { cbn [connection s1]. by rewrite Hrest. }
    cbn [connection s1] in Hconn. rewrite Hrest in Hconn.
    exists st'. split; [done|]. rewrite Hmsg, Hload. subst st1.
    rewrite foldl_on_event_chatMessages, foldl_on_event_isChatLoading.
    cbn [env s1 set_connection app]. rewrite omap_app, existsb_app, app_assoc.
    split; [done|]. split; [|done].
    by destruct (existsb Protocol.settles es1), (existsb Protocol.settles es2).
Qed.

Lemma page_follows_the_stream_witness :
  let st := Samples.mid_turn in
  let s := Samples.question in
  let inputs := [Api.Response true 200 true;
                 Api.Chunk (Samples.line "data: {'type':'content','message':'Stripe'}");
                 Api.Chunk (Samples.line "data: {'type':'complete','message':'Stripe is a payments company.','session_id':'s-1','tools_used':['search_companies']}");
                 Api.Chunk (Samples.line "data: {'type':'end'}");
                 Api.Done] in
  let es := [Samples.event Api.ChatStreamEvent.content (Some (js "Stripe"));
             Samples.completed (js "Stripe is a payments company.") (js "s-1")
               [js "search_companies"];
             Samples.event Api.ChatStreamEvent.end_ None] in
  streams st !! 0%nat = Some s
  ∧ (Api.Cancel ∉ inputs)
  ∧ (let r := Api.fetchSSE (Some Api.switch_on_type) (connection s) inputs in
     mapM Api.typed (Api.events (snd r)) = Some es
     ∧ ∃ st', run st (Network 0 <$> inputs) = Some st'
              ∧ chatMessages (app st')
                = chatMessages (app st) ++ omap (reply (env s)) es
              ∧ isChatLoading (app st')
                = (if existsb Protocol.settles es then false
                   else isChatLoading (app st))
              ∧ connection <$> streams st' !! 0%nat = Some (fst r)).
Proof.
  intros st s inputs es.
  assert (H1 : streams st !! 0%nat = Some s) by reflexivity.
  assert (H2 : Api.Cancel ∉ inputs).
  { intros H. unfold inputs in H.
    repeat (apply elem_of_cons in H as [H|H]; [discriminate|]).
    by apply elem_of_nil in H. }
  assert (H3 : mapM Api.typed
                 (Api.events
                    (snd (Api.fetchSSE (Some Api.switch_on_type)
                            (connection s) inputs))) = Some es)
    by (vm_compute; reflexivity).
  split; [exact H1|]. split; [exact H2|]. split; [exact H3|].
  exact (page_follows_the_stream st 0 s inputs es H1 H2 H3).
Defined.

End ChatPage.

(** ** The search page *)

Section SearchPageProperties.
Import JS SearchPage.

(** The request of [handleSearch]. *)
Lemma handleSearch_request st :
  let r := Api.searchCompanies (trim (searchQuery st)) (Some 100%Z)
             (Some (filters_of st)) in
  calls (handleSearch st) = calls st ++ [r]
  ∧ pending (handleSearch st) = S (pending st)
  ∧ isSearching (handleSearch st) = true
  ∧ Api.get_url r = js "/companies"
  ∧ Api.get_params r !! "query" = Some (Api.PStr (trim (searchQuery st)))
  ∧ Api.get_params r !! "limit" = Some (Api.PNum 100)
  ∧ Api.get_params r !! "industry"
    = (if decide (selectedIndustry st = js "All" ∨ selectedIndustry st = []
                  ∨ toLowerCase (selectedIndustry st) = js "all")
       then None else Some (Api.PStr (selectedIndustry st)))
  ∧ dom (Api.get_params r) ⊆ {["query"; "limit"; "industry"]}.
Proof.
  intros r. subst r. do 4 (split; [done|]).
  unfold Api.searchCompanies, filters_of.
  cbn [Api.opt_chain Api.industry Api.location Api.min_year Api.stage
       truthy_opt Api.truthy_num default Api.get_params].
  set (base := <["limit" := Api.PNum 100]>
                 ({["query" := Api.PStr (trim (searchQuery st))]}
                  : gmap string Api.param)).
  set (i := if negb (eqb (selectedIndustry st) (js "All"))
            then Some (selectedIndustry st) else None).
  assert (Hi : i = if decide (selectedIndustry st = js "All") then None
                   else Some (selectedIndustry st)).
  { subst i. unfold eqb. by destruct (decide (selectedIndustry st = js "All"));
      [rewrite bool_decide_eq_true_2 | rewrite bool_decide_eq_false_2]. }
  split; [by rewrite lookup_set_str_ne|].
  split; [by rewrite lookup_set_str_ne|].
  split.
  - rewrite lookup_set_str_eq by done. rewrite given_industry, Hi.
    destruct (decide (selectedIndustry st = js "All")) as [Hall|Hall].
    + by rewrite decide_True by auto.
    + destruct (decide (selectedIndustry st ≠ []
                        ∧ toLowerCase (selectedIndustry st) ≠ js "all"))
        as [[H1 H2]|Hno].
      * rewrite decide_False; [done|]. by intros [?|[?|?]].
      * rewrite decide_True; [done|]. right.
        destruct (decide (selectedIndustry st = [])); [by left|].
        destruct (decide (toLowerCase (selectedIndustry st) = js "all"));
          [by right|]. exfalso. by apply Hno.
  - etrans; [apply dom_set_str|]. subst base.
    rewrite dom_insert, dom_singleton. set_solver.
Qed.

(** What every request of the page looks like. *)
Lemma handleSearch_sends st :
  ∃ r, calls (handleSearch st) = calls st ++ [r] ∧ well_formed r.
Proof.
  destruct (handleSearch_request st) as (Hc & _ & _ & Hu & Hq & Hl & Hi & Hd).
  eexists. split; [exact Hc|]. split; [exact Hu|]. split; [exact Hl|].
  split; [eexists; split; [exact Hq|apply trim_idem]|]. split; [exact Hd|].
  intros i. rewrite Hi. case_decide as Hsel; [done|]. intros [= <-].
  repeat split; intros ?; apply Hsel; auto.
Qed.

Lemma step_sends st a :
  ∃ rs, calls (step st a) = calls st ++ rs ∧ Forall well_formed rs.
Proof.
  assert (H0 : ∀ s : state, calls s = calls st →
            ∃ rs, calls s = calls st ++ rs ∧ Forall well_formed rs).
  { intros s Hs. exists []. by rewrite app_nil_r. }
  assert (H1 : ∀ s : state, calls s = calls st →
            ∃ rs, calls (handleSearch s) = calls st ++ rs
                  ∧ Forall well_formed rs).
  { intros s Hs. destruct (handleSearch_sends s) as (r & Hc & Hr).
    exists [r]. rewrite Hc, Hs. split; [done|]. by constructor. }
  destruct a as [q| |i| |o| |]; cbn [step].
  - destruct (mounted st); by apply H0.
  - destruct (mounted st); by apply H0.
  - destruct (mounted st); [|by apply H0]. unfold choose.
    destruct (eqb i _); [by apply H0|].
    destruct (truthy i); [by apply H1|by apply H0].
  - destruct (mounted st); [by apply H1|by apply H0].
  - destruct (pending st); [by apply H0|]. apply H0.
    unfold handleSearch_resume. destruct o as [response|]; [|done].
    by destruct (Types.success response), (Types.data response).
  - destruct (mounted st); by apply H0.
  - destruct (mounted st); [by apply H0|]. unfold mount.
    set (s0 := {| searchQuery := searchQuery st; searchResults := _;
                  isSearching := _; selectedIndustry := js "All";
                  showFilters := false; mounted := true;
                  pending := _; calls := calls st |}).
    destruct (handleSearch_sends s0) as (r1 & Hc1 & Hr1).
    destruct (handleSearch_sends (handleSearch s0)) as (r2 & Hc2 & Hr2).
    change (calls s0) with (calls st) in Hc1.
    change (truthy (selectedIndustry (handleSearch s0))) with true.
    cbv iota. exists [r1; r2]. rewrite Hc2, Hc1, <- app_assoc.
    split; [done|]. constructor; [done|]. constructor; [done|]. constructor.
Qed.

(** X21.  Every request the search page ever sends goes to
    [/companies], asks for 100 matches of a trimmed query, and carries
    at most one filter, an industry that is neither empty nor All. *)
Theorem search_requests_are_well_formed
    (actions : list action) (r : Api.get_request) :
  r ∈ calls (run initial actions) → well_formed r.
Proof.
  revert r. apply Forall_forall.
  assert (H : ∀ st, Forall well_formed (calls st) →
                    Forall well_formed (calls (run st actions))).
  { induction actions as [|a actions IH]; intros st Hst; [done|].
    cbn [run foldl]. apply IH.
    destruct (step_sends st a) as (rs & -> & Hrs). by apply Forall_app. }
  apply H. constructor.
Qed.

Lemma search_requests_are_well_formed_witness :
  let actions := [Mount; Type_ (js " pay "); ChooseIndustry (js "FinTech")] in
  let r := Api.searchCompanies (js "pay") (Some 100%Z)
             (Some {| Api.industry := Some (js "FinTech");
                      Api.location := None; Api.min_year := None;
                      Api.stage := None |}) in
  r ∈ calls (run initial actions) ∧ well_formed r.
Proof.
  intros actions r.
  assert (H : r ∈ calls (run initial actions)).
  { apply list_elem_of_lookup. exists 2%nat. vm_compute. reflexivity. }
  split; [exact H|].
  exact (search_requests_are_well_formed actions r H).
Defined.

(** X22.  With one of the industries the page offers, [handleSearch]
    sends the trimmed query, and the industry exactly when it is not
    All: the check of the page and the check of [searchCompanies]
    agree on the industries of the list. *)
Theorem industry_is_sent_when_chosen (st : state) :
  selectedIndustry st ∈ industries →
  ∃ r, calls (handleSearch st) = calls st ++ [r]
       ∧ Api.get_params r !! "query" = Some (Api.PStr (trim (searchQuery st)))
       ∧ Api.get_params r !! "industry"
         = (if decide (selectedIndustry st = js "All") then None
            else Some (Api.PStr (selectedIndustry st))).
Proof.
  intros Hin.
  destruct (handleSearch_request st) as (Hc & _ & _ & _ & Hq & _ & Hi & _).
  eexists. split; [exact Hc|]. split; [exact Hq|]. rewrite Hi.
  unfold industries in Hin.
  repeat (apply elem_of_cons in Hin as [->|Hin]; [by vm_compute|]).
  by apply elem_of_nil in Hin.
Qed.

Lemma industry_is_sent_when_chosen_witness :
  let st := setSelectedIndustry (js "FinTech") (mount initial) in
  selectedIndustry st ∈ industries
  ∧ ∃ r, calls (handleSearch st) = calls st ++ [r]
         ∧ Api.get_params r !! "query"
           = Some (Api.PStr (trim (searchQuery st)))
         ∧ Api.get_params r !! "industry"
           = (if decide (selectedIndustry st = js "All") then None
              else Some (Api.PStr (selectedIndustry st))).
Proof.
  intros st.
  assert (H : selectedIndustry st ∈ industries) by (right; right; left).
  split; [exact H|].
  exact (industry_is_sent_when_chosen st H).
Defined.

(** The spinner is on only while a request is on its way. *)
Lemma step_spinner st a :
  (isSearching st = true → (0 < pending st)%nat) →
  isSearching (step st a) = true → (0 < pending (step st a))%nat.
Proof.
  intros Hst.
  assert (H1 : ∀ s, isSearching (handleSearch s) = true →
                    (0 < pending (handleSearch s))%nat).
  { intros s _. cbn. lia. }
  destruct a as [q| |i| |o| |]; cbn [step].
  - by destruct (mounted st).
  - by destruct (mounted st).
  - destruct (mounted st); [|done]. unfold choose.
    destruct (eqb i _); [done|]. destruct (truthy i); [apply H1|done].
  - destruct (mounted st); [apply H1|done].
  - destruct (pending st) eqn:Hp; [intros H; rewrite Hp; by apply Hst|].
    unfold handleSearch_resume.
    destruct o as [response|]; [|done].
    by destruct (Types.success response), (Types.data response).
  - by destruct (mounted st).
  - destruct (mounted st); [done|]. unfold mount.
    match goal with |- context [truthy ?x] => change (truthy x) with true end.
    cbv iota. apply H1.
Qed.

(** X23.  The spinner of the search page is on only while a request
    is on its way: at every moment, if [isSearching] is set, some call
    of [handleSearch] is still waiting for its answer. *)
Theorem spinner_needs_a_request (actions : list action) :
  let st := run initial actions in
  isSearching st = true → (0 < pending st)%nat.
Proof.
  cbv zeta.
  assert (H : ∀ st, (isSearching st = true → (0 < pending st)%nat) →
                    isSearching (run st actions) = true →
                    (0 < pending (run st actions))%nat).
  { induction actions as [|a actions IH]; intros st Hst; [done|].
    cbn [run foldl]. apply IH. by apply step_spinner. }
  apply H. done.
Qed.

Lemma spinner_needs_a_request_witness :
  let st := run initial [Mount; Settles Throws] in
  isSearching st = false
  ∧ pending st = 1%nat
  ∧ isSearching (run initial [Mount]) = true
  ∧ (0 < pending (run initial [Mount]))%nat.
Proof.
  intros st.
  assert (H : isSearching (run initial [Mount]) = true) by reflexivity.
  split; [reflexivity|]. split; [reflexivity|]. split; [exact H|].
  exact (spinner_needs_a_request [Mount] H).
Defined.

(** X24.  Putting the search page on the screen sends the same
    request twice: once for the first load and once because the
    industry, All, is truthy.  The request carries the trimmed query of
    the store and the limit, and no filter. *)
Theorem mount_searches_twice (st : state) :
  mounted st = false →
  let r := Api.searchCompanies (trim (searchQuery st)) (Some 100%Z)
             (Some {| Api.industry := None; Api.location := None;
                      Api.min_year := None; Api.stage := None |}) in
  calls (step st Mount) = calls st ++ [r; r]
  ∧ pending (step st Mount) = S (S (pending st))
  ∧ selectedIndustry (step st Mount) = js "All"
  ∧ Api.get_params r
    = <["limit" := Api.PNum 100]>
        {["query" := Api.PStr (trim (searchQuery st))]}.
Proof.
  intros Hm r. cbn [step]. rewrite Hm. unfold mount.
  match goal with |- context [truthy ?x] => change (truthy x) with true end.
  cbv iota. cbn [handleSearch await setIsSearching calls pending searchQuery
                 selectedIndustry].
  rewrite <- app_assoc. done.
Qed.

Lemma mount_searches_twice_witness :
  let st := setSearchQuery (js " pay ") initial in
  let r := Api.searchCompanies (trim (searchQuery st)) (Some 100%Z)
             (Some {| Api.industry := None; Api.location := None;
                      Api.min_year := None; Api.stage := None |}) in
  mounted st = false
  ∧ calls (step st Mount) = calls st ++ [r; r]
  ∧ pending (step st Mount) = S (S (pending st))
  ∧ selectedIndustry (step st Mount) = js "All"
  ∧ Api.get_params r
    = <["limit" := Api.PNum 100]>
        {["query" := Api.PStr (trim (searchQuery st))]}.
Proof.
  intros st r.
  assert (H : mounted st = false) by reflexivity.
  split; [exact H|].
  exact (mount_searches_twice st H).
Defined.

End SearchPageProperties.

(** ** The body of a synchronisation *)

Section Sync.
Import JS Api.

(** X26.  [syncData] sends a limit of zero exactly when it is asked to
    synchronise everything; otherwise it sends the limit it was given,
    and 500 when it was given none or zero.  The source is always yc. *)
Theorem syncData_limit (n : option Z) (syncAll : option bool) :
  let body := syncData n syncAll in
  (limit body = 0%Z ↔ syncAll = Some true)
  ∧ (syncAll ≠ Some true →
     limit body = match n with
                  | Some z => if decide (z = 0%Z) then 500%Z else z
                  | None => 500%Z
                  end)
  ∧ source body = js "yc"
  ∧ sync_all body = syncAll.
Proof.
  cbv zeta. unfold syncData. cbn [limit source sync_all].
  destruct syncAll as [[|]|]; cbn [default].
  - repeat split; done.
  - destruct n as [z|]; cbn [truthy_num default].
    + destruct (Z.eqb_spec z 0) as [->|Hz]; cbn [negb].
      * rewrite decide_True by done. repeat split; done.
      * rewrite decide_False by done. repeat split; done.
    + repeat split; done.
  - destruct n as [z|]; cbn [truthy_num default].
    + destruct (Z.eqb_spec z 0) as [->|Hz]; cbn [negb].
      * rewrite decide_True by done. repeat split; done.
      * rewrite decide_False by done. repeat split; done.
    + repeat split; done.
Qed.

End Sync.

(** ** Lines that end with a carriage return *)

Section CarriageReturn.
Import JS Json.

Lemma skip_ws_CR (s : list N) (c : N) (r : list N) :
  skip_ws s = c :: r → skip_ws (s ++ [13]) = c :: r ++ [13].
Proof.
  induction s as [|d s IH]; simpl; [done|].
  destruct (is_ws d); [exact IH|]. by intros [= <- <-].
Qed.

Lemma skip_ws_CR_nil (s : list N) :
  skip_ws s = [] → skip_ws (s ++ [13]) = [].
Proof.
  induction s as [|d s IH]; simpl; [done|].
  destruct (is_ws d); [exact IH|done].
Qed.

Lemma digits_CR (s : list N) :
  digits (s ++ [13]) = (fst (digits s), snd (digits s) ++ [13]).
Proof.
  induction s as [|c s IH]; simpl; [done|].
  destruct (is_digit c); [|done].
  rewrite IH. by destruct (digits s).
Qed.

Lemma number_CR (s lex r : list N) :
  number s = Some (lex, r) → number (s ++ [13]) = Some (lex, r ++ [13]).
Proof.
  unfold number.
  assert (Hint : ∀ s0 i s1, int_part s0 = Some (i, s1) →
                            int_part (s0 ++ [13]) = Some (i, s1 ++ [13])).
  { intros [|c s0] i s1; simpl; [done|].
    destruct (c =? 48); [by intros [= <- <-]|].
    destruct (is_digit c); [|done].
    rewrite digits_CR. destruct (digits s0) as [ds r']. by intros [= <- <-]. }
  assert (Hfrac : ∀ s1 f s2, frac_part s1 = Some (f, s2) →
                             frac_part (s1 ++ [13]) = Some (f, s2 ++ [13])).
  { intros [|c s1] f s2; simpl; [by intros [= <- <-]|].
    destruct (c =? 46); [|by intros [= <- <-]].
    rewrite digits_CR. destruct (digits s1) as [[|d ds] r']; [done|].
    by intros [= <- <-]. }
  assert (Hexp : ∀ s2 e s3, exp_part s2 = Some (e, s3) →
                            exp_part (s2 ++ [13]) = Some (e, s3 ++ [13])).
  { intros [|c s2] e s3; simpl; [by intros [= <- <-]|].
    destruct ((c =? 101) || (c =? 69)); [|by intros [= <- <-]].
    destruct s2 as [|g t]; [done|]. cbn [app].
    destruct ((g =? 43) || (g =? 45)).
    - rewrite digits_CR. destruct (digits t) as [[|d ds] r']; [done|].
      by intros [= <- <-].
    - change (g :: t ++ [13]) with ((g :: t) ++ [13]). rewrite digits_CR.
      destruct (digits (g :: t)) as [[|d ds] r']; [done|].
      by intros [= <- <-]. }
  destruct s as [|c s]; [done|]. cbn [app].
  destruct (c =? 45).
  - destruct (int_part s) as [[i s1]|] eqn:H1; [|done].
    rewrite (Hint _ _ _ H1). cbn.
    destruct (frac_part s1) as [[f s2]|] eqn:H2; [|done].
    rewrite (Hfrac _ _ _ H2). cbn.
    destruct (exp_part s2) as [[e s3]|] eqn:H3; [|done].
    rewrite (Hexp _ _ _ H3). cbn. by intros [= <- <-].
  - change (c :: s ++ [13]) with ((c :: s) ++ [13]).
    destruct (int_part (c :: s)) as [[i s1]|] eqn:H1; [|done].
    rewrite (Hint _ _ _ H1). cbn.
    destruct (frac_part s1) as [[f s2]|] eqn:H2; [|done].
    rewrite (Hfrac _ _ _ H2). cbn.
    destruct (exp_part s2) as [[e s3]|] eqn:H3; [|done].
    rewrite (Hexp _ _ _ H3). cbn. by intros [= <- <-].
Qed.

Lemma chars_CR (s cs r : list N) :
  chars s = Some (cs, r) → chars (s ++ [13]) = Some (cs, r ++ [13]).
Proof.
  remember (length s) as m eqn:Hm.
  revert s cs r Hm. induction m as [m IH] using lt_wf_ind.
  intros [|c s] cs r Hm; [done|]. cbn [chars app].
  destruct (c =? 34); [by intros [= <- <-]|].
  destruct (c =? 92).
  - destruct s as [|e r1]; [done|]. cbn [app].
    destruct (e =? 117).
    + destruct r1 as [|h1 [|h2 [|h3 [|h4 r2]]]]; try done. cbn [app].
      destruct (hex_digit h1); [|done]. destruct (hex_digit h2); [|done].
      destruct (hex_digit h3); [|done]. destruct (hex_digit h4); [|done].
      cbn. destruct (chars r2) as [[cs' rest]|] eqn:Hc; [|done].
      rewrite (IH (length r2) ltac:(simpl in Hm; lia) r2 cs' rest eq_refl Hc).
      cbn. by intros [= <- <-].
    + destruct (escape e); [|done]. cbn.
      destruct (chars r1) as [[cs' rest]|] eqn:Hc; [|done].
      rewrite (IH (length r1) ltac:(simpl in Hm; lia) r1 cs' rest eq_refl Hc).
      cbn. by intros [= <- <-].
  - destruct (c <? 32); [done|].
    destruct (chars s) as [[cs' rest]|] eqn:Hc; [|done].
    rewrite (IH (length s) ltac:(simpl in Hm; lia) s cs' rest eq_refl Hc).
    cbn. by intros [= <- <-].
Qed.

Lemma startsWith_app (p s t : list N) :
  startsWith p s = true →
  startsWith p (s ++ t) = true ∧ drop (length p) (s ++ t) = drop (length p) s ++ t.
Proof.
  revert s. induction p as [|a p IH]; intros s; simpl; [done|].
  destruct s as [|b s]; [done|]. simpl.
  destruct (a =? b); [|done]. apply IH.
Qed.

Lemma length_js (word : string) : length (js word) = String.length word.
Proof.
  unfold js. rewrite length_fmap.
  induction word as [|a word IH]; simpl; [done|]. by rewrite IH.
Qed.

Lemma literal_CR word v (s : list N) v' rest :
  literal word v s = Some (v', rest) →
  literal word v (s ++ [13]) = Some (v', rest ++ [13]).
Proof.
  unfold literal. destruct (startsWith (js word) s) eqn:Hs; [|done].
  intros [= <- <-].
  destruct (startsWith_app _ _ [13] Hs) as [-> Hd].
  by rewrite <- length_js, Hd.
Qed.

(** A value that is parsed is parsed the same with a carriage return
    after the text, and with any larger bound. *)
Lemma parse_CR (n : nat) :
  (∀ s v r k, parse_value n s = Some (v, r) →
              parse_value (n + k) (s ++ [13]) = Some (v, r ++ [13]))
  ∧ (∀ s vs r k, parse_elements n s = Some (vs, r) →
                 parse_elements (n + k) (s ++ [13]) = Some (vs, r ++ [13]))
  ∧ (∀ s ms r k, parse_members n s = Some (ms, r) →
                 parse_members (n + k) (s ++ [13]) = Some (ms, r ++ [13])).
Proof.
  induction n as [|n (IHv & IHe & IHm)]; [done|].
  split; [|split].
  - intros s v r k. change (S n + k)%nat with (S (n + k)).
    cbn [parse_value].
    destruct (skip_ws s) as [|c t] eqn:Hs; [done|].
    rewrite (skip_ws_CR _ _ _ Hs).
    destruct (c =? 123).
    { destruct (skip_ws t) as [|c' t'] eqn:Ht; [done|].
      rewrite (skip_ws_CR _ _ _ Ht).
      destruct (c' =? 125); [by intros [= <- <-]|].
      destruct (parse_members n (c' :: t')) as [[ms rest]|] eqn:Hm; [|done].
      change (c' :: t' ++ [13]) with ((c' :: t') ++ [13]).
      rewrite (IHm _ _ _ k Hm). cbn. by intros [= <- <-]. }
    destruct (c =? 91).
    { destruct (skip_ws t) as [|c' t'] eqn:Ht; [done|].
      rewrite (skip_ws_CR _ _ _ Ht).
      destruct (c' =? 93); [by intros [= <- <-]|].
      destruct (parse_elements n (c' :: t')) as [[vs rest]|] eqn:He; [|done].
      change (c' :: t' ++ [13]) with ((c' :: t') ++ [13]).
      rewrite (IHe _ _ _ k He). cbn. by intros [= <- <-]. }
    destruct (c =? 34).
    { destruct (chars t) as [[cs rest]|] eqn:Hc; [|done].
      rewrite (chars_CR _ _ _ Hc). cbn. by intros [= <- <-]. }
    change (c :: t ++ [13]) with ((c :: t) ++ [13]).
    destruct (c =? 116); [apply literal_CR|].
    destruct (c =? 102); [apply literal_CR|].
    destruct (c =? 110); [apply literal_CR|].
    destruct (number (c :: t)) as [[lex rest]|] eqn:Hn; [|done].
    rewrite (number_CR _ _ _ Hn). cbn. by intros [= <- <-].
  - intros s vs r k. change (S n + k)%nat with (S (n + k)).
    rewrite !parse_elements_S.
    destruct (parse_value n s) as [[v t]|] eqn:Hv; [|done].
    rewrite (IHv _ _ _ k Hv). cbn [mbind option_bind].
    destruct (skip_ws t) as [|c t'] eqn:Ht; [done|].
    rewrite (skip_ws_CR _ _ _ Ht).
    destruct (c =? 93); [by intros [= <- <-]|].
    destruct (c =? 44); [|done].
    destruct (parse_elements n t') as [[vs' rest]|] eqn:He; [|done].
    rewrite (IHe _ _ _ k He). cbn. by intros [= <- <-].
  - intros s ms r k. change (S n + k)%nat with (S (n + k)).
    rewrite !parse_members_S.
    destruct (skip_ws s) as [|q r0] eqn:Hs; [done|].
    rewrite (skip_ws_CR _ _ _ Hs).
    destruct (q =? 34); [|done].
    destruct (chars r0) as [[key r1]|] eqn:Hc; [|done].
    rewrite (chars_CR _ _ _ Hc). cbn [mbind option_bind].
    destruct (skip_ws r1) as [|colon r2] eqn:H1; [done|].
    rewrite (skip_ws_CR _ _ _ H1).
    destruct (colon =? 58); [|done].
    destruct (parse_value n r2) as [[v r3]|] eqn:Hv; [|done].
    rewrite (IHv _ _ _ k Hv). cbn [mbind option_bind].
    destruct (skip_ws r3) as [|c r'] eqn:H3; [done|].
    rewrite (skip_ws_CR _ _ _ H3).
    destruct (c =? 125); [by intros [= <- <-]|].
    destruct (c =? 44); [|done].
    destruct (parse_members n r') as [[ms' rest]|] eqn:Hm; [|done].
    rewrite (IHm _ _ _ k Hm). cbn. by intros [= <- <-].
Qed.

Lemma parse_snoc_CR (text : list N) (v : value) :
  parse text = Some v → parse (text ++ [13]) = Some v.
Proof.
  unfold parse.
  destruct (parse_value (2 * length text + 2) text) as [[v' rest]|] eqn:Hp;
    [|done].
  cbn [mbind option_bind].
  destruct (skip_ws rest) eqn:Hr; [|done]. intros [= ->].
  destruct (parse_CR (2 * length text + 2)) as (Hv & _).
  rewrite length_app. cbn [length].
  replace (2 * (length text + 1) + 2)%nat with (2 * length text + 2 + 2)%nat
    by lia.
  rewrite (Hv _ _ _ 2%nat Hp). cbn [mbind option_bind].
  by rewrite (skip_ws_CR_nil _ Hr).
Qed.

Lemma startsWith_snoc (p l : list N) (w : N) :
  w ∉ p → startsWith p (l ++ [w]) = startsWith p l.
Proof.
  revert l. induction p as [|a p IH]; intros l Hw; [done|].
  apply not_elem_of_cons in Hw as [Hne Hw].
  destruct l as [|b l]; simpl.
  - destruct (N.eqb_spec a w); [done|done].
  - by rewrite IH.
Qed.

Lemma trim_snoc_CR (x : list N) : trim (x ++ [13]) = trim x.
Proof.
  unfold trim. rewrite trimStart_snoc.
  change (is_space 13) with true. cbv iota.
  destruct (trimStart x) as [|c t] eqn:Hx; [done|].
  unfold trimEnd. by rewrite rev_app_distr.
Qed.

Lemma decode_line_CR (line : list N) (e : value) :
  Protocol.decode_line line = Some e →
  Protocol.decode_line (line ++ [13]) = Some e.
Proof.
  unfold Protocol.decode_line.
  destruct (startsWith (js "data: ") line) eqn:Hs; [|done].
  destruct (startsWith_app _ _ [13] Hs) as [-> Hd].
  unfold slice. change (length (js "data: ")) with 6%nat in Hd. rewrite Hd.
  rewrite trim_snoc_CR.
  destruct (truthy (trim (drop 6 line))); [|done]. cbn [andb].
  apply parse_snoc_CR.
Qed.

Lemma decode_line_CR_other (line : list N) :
  startsWith (js "data: ") line = false →
  Protocol.decode_line (line ++ [13]) = None.
Proof.
  intros Hs. unfold Protocol.decode_line.
  rewrite startsWith_snoc, Hs; [done|]. compute_done.
Qed.

(** X27.  A stream whose lines end with a carriage return and a line
    feed is read like the same stream with bare line feeds.  When every
    line either stands for an event or does not start with [data: ],
    the callback is given the same events in the same order: the
    carriage return that [split] leaves at the end of a line is white
    space to [trim] and to [JSON.parse], and a line that is only a
    carriage return is skipped. *)
Theorem carriage_returns_are_tolerated
    (f : Api.callback) (st : Api.state) (lines : list (list N)) :
  Forall (fun l => is_Some (Protocol.decode_line l)
                   ∨ startsWith (js "data: ") l = false) lines →
  let r := Api.process_lines (Some f) st lines in
  let r' := Api.process_lines (Some f) st ((fun l => l ++ [13]) <$> lines) in
  Api.events (snd r') = Api.events (snd r)
  ∧ Api.delivered (fst r') = Api.delivered (fst r)
  ∧ Api.events (snd r) = omap Protocol.decode_line lines.
Proof.
  intros Hl r r'. subst r r'.
  destruct (process_lines_events f st lines) as (-> & -> & _).
  destruct (process_lines_events f st ((fun l => l ++ [13]) <$> lines))
    as (-> & -> & _).
  assert (H : omap Protocol.decode_line ((fun l => l ++ [13]) <$> lines)
              = omap Protocol.decode_line lines).
  { induction Hl as [|l lines Hl _ IH]; [done|].
    cbn [fmap list_fmap omap list_omap]. rewrite IH.
    destruct Hl as [[e He]|Hs].
    - by rewrite (decode_line_CR _ _ He), He.
    - rewrite (decode_line_CR_other _ Hs).
      unfold Protocol.decode_line. by rewrite Hs. }
  by rewrite H.
Qed.

Lemma carriage_returns_are_tolerated_witness :
  let f := Samples.quiet in
  let st := Samples.reading in
  let lines := [Samples.text "data: {'type':'start'}"; [];
                Samples.text "data: {'type':'end'}"] in
  Forall (fun l => is_Some (Protocol.decode_line l)
                   ∨ startsWith (js "data: ") l = false) lines
  ∧ (let r := Api.process_lines (Some f) st lines in
     let r' := Api.process_lines (Some f) st ((fun l => l ++ [13]) <$> lines) in
     Api.events (snd r') = Api.events (snd r)
     ∧ Api.delivered (fst r') = Api.delivered (fst r)
     ∧ Api.events (snd r) = omap Protocol.decode_line lines).
Proof.
  intros f st lines.
  assert (H : Forall (fun l => is_Some (Protocol.decode_line l)
                               ∨ startsWith (js "data: ") l = false) lines).
  { constructor; [left; vm_compute; eauto|].
    constructor; [right; reflexivity|].
    constructor; [left; vm_compute; eauto|]. constructor. }
  split; [exact H|].
  exact (carriage_returns_are_tolerated f st lines H).
Defined.

End CarriageReturn.

(** ** The chat page that awaits the wrapper *)

Section Legacy.
Import JS Protocol Api ChatLegacy.

(** The promise of the wrapper at the event that settles it. *)
Lemma result_at_settle w before e rest :
  result w = Pending →
  Forall (fun e => settles e = false) before → settles e = true →
  result (deliver w (before ++ e :: rest))
  = result (on_event (deliver w before) e)
  ∧ result (deliver w before) = Pending
  ∧ result (on_event (deliver w before) e) ≠ Pending.
Proof.
  intros Hw Hb He.
  assert (Hp : result (deliver w before) = Pending)
    by (by rewrite deliver_pending).
  assert (Hs : result (on_event (deliver w before) e) ≠ Pending).
  { unfold on_event. unfold settles in He.
    destruct (ChatStreamEvent.type e); try done; cbn; by rewrite Hp. }
  split; [|done]. rewrite deliver_app, deliver_cons. by apply deliver_settled.
Qed.

(** A session the wrapper takes from an event is not empty. *)
Lemma last_session_id_truthy es s :
  last_session_id es = Some s → truthy s = true.
Proof.
  unfold last_session_id. intros H.
  assert (Hin : s ∈ omap (fun e =>
                   match ChatStreamEvent.type e with
                   | ChatStreamEvent.complete =>
                       if truthy_opt (ChatStreamEvent.session_id e)
                       then ChatStreamEvent.session_id e else None
                   | _ => None
                   end) es).
  { apply last_Some in H as [l ->]. apply elem_of_app. right. left. }
  apply list_elem_of_omap in Hin as (e & _ & He).
  destruct (ChatStreamEvent.type e); try done.
  destruct (ChatStreamEvent.session_id e) as [x|]; [|done].
  cbn in He. destruct (truthy x) eqn:Hx; [|done]. by injection He as <-.
Qed.

(** X28.  A turn of the chat page that awaits [sendChatMessage], end
    to end.  The question is added to the conversation and the input is
    emptied.  As long as the stream has delivered no event of type end
    or error, the page is loading and nothing else has changed; this
    page has nothing that would end the wait.  At the first such event
    loading ends and the conversation has gained exactly one reply.  At
    end the reply is the response of the wrapper: its text is the
    trimmed text made of the message of the last complete event before
    the end that has one, and of the messages of the content events
    after that one, a space after each; its tools are the list of the
    last complete event that has one, else none; and the session of the
    store becomes that of the last complete event that has one, else
    stays as it was.  At error the reply is one fixed apology that does
    not say what went wrong, without tools, and the session stays as it
    was. *)
Theorem legacy_turn_settles
    (st : state) (es : list ChatStreamEvent.t) :
  Chat.isChatLoading (app st) = false → trim (input st) ≠ [] →
  let asked := {| Chat.role := Chat.user; Chat.content := trim (input st);
                  Chat.tools_used := None |} in
  input (turn st es) = []
  ∧ match until_settled es with
    | (_, None) =>
        Chat.chatMessages (app (turn st es))
        = Chat.chatMessages (app st) ++ [asked]
        ∧ Chat.isChatLoading (app (turn st es)) = true
        ∧ Chat.chatSessionId (app (turn st es)) = Chat.chatSessionId (app st)
    | (before, Some e) =>
        Chat.isChatLoading (app (turn st es)) = false
        ∧ match ChatStreamEvent.type e with
          | ChatStreamEvent.error =>
              Chat.chatMessages (app (turn st es))
              = Chat.chatMessages (app st)
                ++ [asked;
                    {| Chat.role := Chat.assistant;
                       Chat.content :=
                         js "I apologize, but I encountered an error. Please try again.";
                       Chat.tools_used := None |}]
              ∧ Chat.chatSessionId (app (turn st es))
                = Chat.chatSessionId (app st)
          | _ =>
              Chat.chatMessages (app (turn st es))
              = Chat.chatMessages (app st)
                ++ [asked;
                    {| Chat.role := Chat.assistant;
                       Chat.content := response_text before;
                       Chat.tools_used :=
                         Some (default [] (last_tools_used before)) |}]
              ∧ Chat.chatSessionId (app (turn st es))
                = match last_session_id before with
                  | Some session => Some session
                  | None => Chat.chatSessionId (app st)
                  end
          end
    end.
Proof.
  intros Hl Hq asked.
  assert (Ht : truthy (trim (input st)) = true)
    by (by destruct (trim (input st))).
  unfold turn, handleSubmit. rewrite Hl, Ht. cbn [negb orb].
  set (sent := if truthy_opt _ then _ else _).
  pose proof (until_settled_spec es) as H.
  destruct (until_settled es) as [before [e|]].
  - destruct H as (rest & -> & Hb & He).
    destruct (result_at_settle (sendChatMessage sent) before e rest eq_refl Hb He)
      as (-> & Hp & _).
    pose proof (deliver_finalResponse (sendChatMessage sent) before) as Hr.
    pose proof (deliver_finalSessionId (sendChatMessage sent) before) as Hi.
    pose proof (deliver_toolsUsed (sendChatMessage sent) before) as Hu.
    unfold on_event. unfold settles in He.
    destruct (ChatStreamEvent.type e); try done; cbn [result]; rewrite Hp;
      cbn [settle handleSubmit_resume Types.success Types.data].
    + set (w := deliver (sendChatMessage sent) before) in *.
      cbn [Api.session_id Api.response Api.tools_used].
      assert (Hresp : trim (finalResponse w) = response_text before).
      { rewrite Hr. unfold response_text.
        destruct (since_complete before) as [[m|] after] eqn:Hs; cbn; [done|].
        by rewrite (since_complete_None _ _ Hs). }
      rewrite Hresp, Hu, Hi.
      cbn [sendChatMessage finalSessionId toolsUsed].
      assert (Hsid :
        (if truthy (default (or_else sent []) (last_session_id before))
         then Some (default (or_else sent []) (last_session_id before))
         else Chat.chatSessionId (app st))
        = match last_session_id before with
          | Some session => Some session
          | None => Chat.chatSessionId (app st)
          end).
      { destruct (last_session_id before) as [s|] eqn:Hlast.
        - cbn [from_option id]. by rewrite (last_session_id_truthy _ _ Hlast).
        - cbn [from_option id]. subst sent.
          by destruct (Chat.chatSessionId (app st)) as [[|]|]. }
      rewrite <- Hsid.
      destruct (truthy (default (or_else sent []) (last_session_id before)));
        cbn; rewrite <- app_assoc; done.
    + cbn [handleSubmit_resume in_store setInput app input Chat.chatMessages
           Chat.addChatMessage Chat.setIsChatLoading Chat.isChatLoading
           Chat.chatSessionId].
      by rewrite <- app_assoc.
  - destruct H as [-> Hb]. rewrite deliver_pending by done. done.
Qed.

Lemma legacy_turn_settles_witness :
  let st := {| app := Chat.app Chat.initial; input := js " What is Stripe? " |} in
  let es := Samples.whole_turn in
  Chat.isChatLoading (app st) = false
  ∧ trim (input st) ≠ []
  ∧ input (turn st es) = []
  ∧ Chat.isChatLoading (app (turn st es)) = false
  ∧ Chat.chatMessages (app (turn st es))
    = [ {| Chat.role := Chat.user; Chat.content := js "What is Stripe?";
           Chat.tools_used := None |};
        {| Chat.role := Chat.assistant;
           Chat.content := js "Stripe is a payments company.";
           Chat.tools_used := Some [js "search_companies"] |} ]
  ∧ Chat.chatSessionId (app (turn st es)) = Some (js "s-1").
Proof.
  intros st es.
  assert (H1 : Chat.isChatLoading (app st) = false) by reflexivity.
  assert (H2 : trim (input st) ≠ []) by (vm_compute; discriminate).
  pose proof (legacy_turn_settles st es H1 H2) as H.
  cbv zeta in H.
  assert (Hu : until_settled es
               = ( [ Samples.event ChatStreamEvent.start (Some (js "Processing"));
                     Samples.event ChatStreamEvent.content (Some (js "Stripe"));
                     Samples.event ChatStreamEvent.content (Some (js "is"));
                     Samples.completed (js " Stripe is a payments company. ")
                       (js "s-1") [js "search_companies"] ],
                   Some (Samples.event ChatStreamEvent.end_ None) ))
    by reflexivity.
  rewrite Hu in H. destruct H as (Ha & Hb & Hc & Hd).
  split; [exact H1|]. split; [exact H2|]. split; [exact Ha|].
  split; [exact Hb|].
  split.
  - etrans; [exact Hc|]. vm_compute. reflexivity.
  - etrans; [exact Hd|]. vm_compute. reflexivity.
Defined.

End Legacy.
